(** * CxList: the pointer-array list of catcore-cpp

    A shallow embedding of [include/core/common/CxList.h].  The list keeps
    an array of pointers ([mp_raw]) into a chain of storage blocks
    ([CxListStore]); [mp_list] points at the first live cell of that array
    and [m_size] cells from there are the content of the list.

    Undefined behaviour of the C++ source (a cell read or written outside
    the pointer array, a pointer that leads outside its block, an
    allocation of negative size) is the value [None] of the option monad:
    an operation that returns [Some] ran to its end inside its memory. *)

From Stdlib Require Import ZArith Lia.
From stdpp Require Import base option list.

Local Open Scope Z_scope.

(** ** Scalar types ([core/CxTypes.h], [core/Cx.h]) *)

Definition CxI32 := Z.
Definition CxBool := bool.

(** Two's complement reduction of an arithmetic result to 32 bits. *)
Definition wrap32 (z : Z) : CxI32 :=
  (z + 2147483648) `mod` 4294967296 - 2147483648.

Definition INT32_MAX : Z := 2147483647.

Inductive CxCopy := kCxNoCopy | kCxCopy | kCxCopyOnRead | kCxCopyOnWrite.

(** What the template asks of its element type: a default constructor,
    [operator==], and, for [count], a comparison of an element with a
    [CxI32]. *)
Class Element (T : Type) := {
  T_default : T;
  T_eq : T -> T -> bool;
  T_eq_spec : forall x y, T_eq x y = true <-> x = y;
  T_eq_I32 : T -> CxI32 -> bool
}.

#[export] Instance Element_CxI32 : Element CxI32 := {|
  T_default := 0;
  T_eq := Z.eqb;
  T_eq_spec := Z.eqb_eq;
  T_eq_I32 := Z.eqb
|}.

(** ** Memory *)

(** A [T*]: the slot [slot] of the block number [blk] of the chain. *)
Record Ptr := mkPtr { blk : nat; slot : nat }.

#[export] Instance Ptr_eq_dec : EqDecision Ptr.
Proof. solve_decision. Defined.

(** A cell of the pointer array holds a pointer once it has been assigned;
    [None] is a cell as the allocator left it. *)
Abbreviation Cell := (option Ptr).

(** A [for (i = lo; i < hi; ++i)] loop whose body changes neither [i] nor
    [hi]. *)
Fixpoint for_loop {S : Type} (n : nat) (i : Z) (body : Z -> S -> option S)
    (s : S) : option S :=
  match n with
  | O => Some s
  | Datatypes.S n' => s' ← body i s; for_loop n' (i + 1) body s'
  end.

Definition for_range {S : Type} (lo hi : Z) (body : Z -> S -> option S)
    (s : S) : option S :=
  for_loop (Z.to_nat (hi - lo)) lo body s.

(** A [for (i = lo; i < hi; ++i)] loop that only reads and may [return]
    from its body: the body gives [Some a] to return [a] and [None] to go
    on; [otherwise] is the [return] after the loop. *)
Fixpoint for_first {A : Type} (n : nat) (i : Z)
    (body : Z -> option (option A)) (otherwise : A) : option A :=
  match n with
  | O => Some otherwise
  | Datatypes.S n' =>
      r ← body i;
      match r with
      | Some a => Some a
      | None => for_first n' (i + 1) body otherwise
      end
  end.

Definition for_range_first {A : Type} (lo hi : Z)
    (body : Z -> option (option A)) (otherwise : A) : option A :=
  for_first (Z.to_nat (hi - lo)) lo body otherwise.

(** The same for a [for (i = from; i >= 0; --i)] loop. *)
Fixpoint for_down_first {A : Type} (n : nat) (i : Z)
    (body : Z -> option (option A)) (otherwise : A) : option A :=
  match n with
  | O => Some otherwise
  | Datatypes.S n' =>
      r ← body i;
      match r with
      | Some a => Some a
      | None => for_down_first n' (i - 1) body otherwise
      end
  end.

(** Modelled from the spec: [core/common/CxMem.h] is not part of the
    sources; the spec lists its capabilities as allocate(n),
    resize(existing, n), bulk-copy(src, dst, n) and release(ptr).  Sizes
    are counted in cells.  A negative count is a huge [size_t] and fails.
    This is allocate(n). *)
Definition mem_alloc (n : Z) : option (list Cell) :=
  if n <? 0 then None else Some (replicate (Z.to_nat n) None).

(** Modelled from the spec: resize(existing, n) of [CxMem.h].  The first
    cells are kept, new ones are as the allocator left them; the array is
    resized where it stands, so that [mp_raw] names the resized array. *)
Definition mem_resize (raw : list Cell) (n : Z) : option (list Cell) :=
  if n <? 0 then None else Some (resize (Z.to_nat n) None raw).

(** Modelled from the spec: bulk-copy of [CxMem.h], called as
    [mem::copy(dst, src, bytes)]: [n] cells from offset [src] to offset
    [dst] of the same array, both ranges inside the array.  The ranges may
    overlap (the shifts of [insert] and [priv_removeAt] are by one cell),
    so the source range is read whole before it is written. *)
Definition mem_copy (dst src n : Z) (raw : list Cell) : option (list Cell) :=
  if (0 <=? n) && (0 <=? src) && (src + n <=? Z.of_nat (length raw))
     && (0 <=? dst) && (dst + n <=? Z.of_nat (length raw))
  then Some (take (Z.to_nat dst) raw
             ++ take (Z.to_nat n) (drop (Z.to_nat src) raw)
             ++ drop (Z.to_nat (dst + n)) raw)
  else None.

Definition raw_read (raw : list Cell) (i : Z) : option Ptr :=
  if i <? 0 then None else mjoin (raw !! Z.to_nat i).

Definition raw_write (i : Z) (p : Ptr) (raw : list Cell)
    : option (list Cell) :=
  if (0 <=? i) && (i <? Z.of_nat (length raw))
  then Some (<[Z.to_nat i := Some p]> raw)
  else None.

(** ** CxListStore: a block of slots; [next] is the rest of the chain. *)

Record CxListStore (T : Type) := mkStore { store : list T; size : CxI32 }.
Arguments mkStore {T} _ _.
Arguments store {T} _.
Arguments size {T} _.

(** What a call hands back to its caller: the value of a [return]
    statement, or nothing when control reaches the closing brace of the
    function body without one. *)
Inductive Returned (A : Type) := Value (a : A) | NoReturn.
Arguments Value {A} _.
Arguments NoReturn {A}.

(** The outcome of a [while] loop run for at most [fuel] tests of its
    condition: it left the loop, it went outside its memory, or it has
    not left the loop when the fuel is spent. *)
Inductive Run (A : Type) := Finished (a : A) | Fault | Timeout.
Arguments Finished {A} _.
Arguments Fault {A}.
Arguments Timeout {A}.

Section CxListOps.
Context {T : Type} `{Element T}.

(** [new T[n]] *)
Definition new_array (n : Z) : option (list T) :=
  if n <? 0 then None else Some (replicate (Z.to_nat n) T_default).

(** [CxListStore(CxI32 in_size)] *)
Definition CxListStore_new (in_size : CxI32) : option (CxListStore T) :=
  s ← new_array in_size; Some (mkStore s in_size).

(** [CxListStore(T *in_store, CxI32 in_size)] *)
Definition CxListStore_adopt (in_store : list T) (in_size : CxI32)
    : CxListStore T :=
  mkStore in_store in_size.

(** [*p] read and [*p = v] on the chain. *)
Definition deref (p : Ptr) (chain : list (CxListStore T)) : option T :=
  b ← chain !! blk p; store b !! slot p.

Definition assign (p : Ptr) (v : T) (chain : list (CxListStore T))
    : option (list (CxListStore T)) :=
  b ← chain !! blk p;
  if decide (slot p < length (store b))%nat
  then Some (<[blk p := mkStore (<[slot p := v]> (store b)) (size b)]> chain)
  else None.

(** ** CxList *)

(** [mp_list] is kept as the offset [mp_list - mp_raw]; [mp_store] is the
    chain from [mp_store] to [mp_lastStore], which is its last block. *)
Record CxList := mkList {
  mp_raw : list Cell;
  mp_list : Z;
  mp_store : list (CxListStore T);
  m_invalidValue : T;
  m_capacity : CxI32;
  m_size : CxI32
}.

Definition set_size (n : CxI32) (l : CxList) : CxList :=
  mkList (mp_raw l) (mp_list l) (mp_store l) (m_invalidValue l)
         (m_capacity l) n.

Definition set_list (o : Z) (l : CxList) : CxList :=
  mkList (mp_raw l) o (mp_store l) (m_invalidValue l)
         (m_capacity l) (m_size l).

Definition set_raw (r : list Cell) (l : CxList) : CxList :=
  mkList r (mp_list l) (mp_store l) (m_invalidValue l)
         (m_capacity l) (m_size l).

Definition set_store (c : list (CxListStore T)) (l : CxList) : CxList :=
  mkList (mp_raw l) (mp_list l) c (m_invalidValue l)
         (m_capacity l) (m_size l).

(** [mp_list[i]] read: the pointer in cell [i] of the window. *)
Definition list_cell (l : CxList) (i : Z) : option Ptr :=
  raw_read (mp_raw l) (mp_list l + i).

(** [*(mp_list[i])] *)
Definition read_elem (l : CxList) (i : Z) : option T :=
  p ← list_cell l i; deref p (mp_store l).

(** [*(mp_list[i]) = v] *)
Definition write_elem (i : Z) (v : T) (l : CxList) : option CxList :=
  p ← list_cell l i;
  c ← assign p v (mp_store l);
  Some (set_store c l).

Definition length (l : CxList) : CxI32 := m_size l.
Definition capacity (l : CxList) : CxI32 := m_capacity l.
Definition isEmpty (l : CxList) : CxBool := m_size l =? 0.

(** [resizeToCapacity]: the pointer array is resized, a block of
    [cap_diff] slots joins the chain, and the cells from the old capacity
    on are pointed at its slots. *)
Definition resizeToCapacity (in_capacity : CxI32) (l : CxList)
    : option CxList :=
  let start_offset := wrap32 (mp_list l) in
  let cap_diff := wrap32 (in_capacity - m_capacity l) in
  raw ← mem_resize (mp_raw l) in_capacity;
  b ← CxListStore_new cap_diff;
  let last := Datatypes.length (mp_store l) in
  raw' ← for_range 0 cap_diff
         (fun i r => raw_write (m_capacity l + i) (mkPtr last (Z.to_nat i)) r)
         raw;
  Some (mkList raw' start_offset (mp_store l ++ [b]) (m_invalidValue l)
               in_capacity (m_size l)).

(** [resize] *)
Definition resize (in_size : CxI32) (l : CxList) : option CxList :=
  l' ← (if m_capacity l <? in_size then resizeToCapacity in_size l
        else Some l);
  Some (set_size in_size l').

(** [reserve] *)
Definition reserve (in_capacity : CxI32) (l : CxList) : option CxList :=
  if m_capacity l <? in_capacity then resizeToCapacity in_capacity l
  else Some l.

Definition initialise (in_size : CxI32) (l : CxList) : option CxList :=
  resize in_size l.

(** The member initialisers shared by the constructors. *)
Definition null_list : CxList := mkList [] 0 [] T_default 0 0.

(** [CxList()] *)
Definition CxList_new : option CxList := initialise 0 null_list.

(** [CxList(CxI32 in_size)] *)
Definition CxList_sized (in_size : CxI32) : option CxList :=
  initialise in_size null_list.

(** [fill]; [inopt_size] defaults to -1. *)
Definition fill (in_value : T) (inopt_size : CxI32) (l : CxList)
    : option CxList :=
  let inopt_size := if inopt_size =? -1 then m_size l else inopt_size in
  l' ← resize inopt_size l;
  for_range 0 inopt_size (fun i s => write_elem i in_value s) l'.

(** [CxList(CxI32 in_size, const T &in_value)] *)
Definition CxList_filled (in_size : CxI32) (in_value : T) : option CxList :=
  l ← initialise in_size null_list; fill in_value (-1) l.

(** [CxList(T *in_array, CxI32 in_size, CxCopy inopt_copy)]; the caller's
    array is the list of its elements.  The source writes
    [mp_store.store] on the pointer [mp_store]; it is read as
    [mp_store->store]. *)
Definition CxList_array (in_array : list T) (in_size : CxI32)
    (inopt_copy : CxCopy) : option CxList :=
  if 0 <? in_size then
    raw ← mem_alloc in_size;
    match inopt_copy with
    | kCxNoCopy =>
        let st := CxListStore_adopt in_array in_size in
        raw' ← for_range 0 in_size
               (fun i r => raw_write i (mkPtr 0 (Z.to_nat i)) r) raw;
        Some (mkList raw' 0 [st] T_default in_size in_size)
    | _ =>
        st ← CxListStore_new in_size;
        '(c, raw') ← for_range 0 in_size
               (fun i '(c, r) =>
                  x ← in_array !! Z.to_nat i;
                  c' ← assign (mkPtr 0 (Z.to_nat i)) x c;
                  r' ← raw_write i (mkPtr 0 (Z.to_nat i)) r;
                  Some (c', r'))
               ([st], raw);
        Some (mkList raw' 0 c T_default in_size in_size)
    end
  else Some (mkList [] 0 [] T_default in_size in_size).

(** ** Reading *)

(** [value(in_idx)]: the element, or [m_invalidValue] outside the list. *)
Definition value (in_idx : CxI32) (l : CxList) : option T :=
  if (0 <=? in_idx) && (in_idx <? m_size l) then read_elem l in_idx
  else Some (m_invalidValue l).

(** The element sequence: [value(0)], ..., [value(length() - 1)]. *)
Definition elements (l : CxList) : option (list T) :=
  mapM (fun i => value (Z.of_nat i) l) (seq 0 (Z.to_nat (m_size l))).

(** [count(in_value)].  The comparison is the source's: the element
    against [nm_occurances]. *)
Definition count (in_value : T) (l : CxList) : option CxI32 :=
  for_range 0 (m_size l)
    (fun i nm_occurances =>
       x ← read_elem l i;
       Some (if T_eq_I32 x nm_occurances then wrap32 (nm_occurances + 1)
             else nm_occurances))
    0.

(** ** Growing *)

(** [append(const T&)]; the source assigns [elem], a name it does not
    declare, read as the parameter [in_elem]. *)
Definition append (in_elem : T) (l : CxList) : option CxList :=
  l1 ← (if m_size l =? m_capacity l
        then resizeToCapacity (wrap32 (m_capacity l * 2)) l
        else Some l);
  l2 ← write_elem (m_size l1) in_elem l1;
  Some (set_size (wrap32 (m_size l1 + 1)) l2).

(** [insert(CxI32, const T&)] *)
Definition insert (in_idx : CxI32) (in_elem : T) (l : CxList)
    : option CxList :=
  l ← (if m_size l =? m_capacity l
       then resizeToCapacity (wrap32 (m_capacity l * 2)) l
       else Some l);
  let start_offset := wrap32 (mp_list l) in
  let down :=
    ((in_idx <=? Z.shiftr (m_size l) 1) && negb (start_offset =? 0))
    || (m_capacity l <=? wrap32 (start_offset + m_size l)) in
  let mv_down := if down then in_idx else 0 in
  let mv_up := if down then 0 else wrap32 (m_size l - in_idx) in
  ptr ← (if down then list_cell l (-1) else list_cell l (m_size l));
  raw ← (if negb (mv_down =? 0)
         then mem_copy (mp_list l - 1) (mp_list l) mv_down (mp_raw l)
         else if negb (mv_up =? 0)
         then mem_copy (mp_list l + in_idx + 1) (mp_list l + in_idx) mv_up
                       (mp_raw l)
         else Some (mp_raw l));
  let mp_list' :=
    if negb (mv_down =? 0) || ((in_idx =? 0) && (mv_up =? 0))
    then mp_list l - 1 else mp_list l in
  raw' ← raw_write (mp_list' + in_idx) ptr raw;
  chain ← assign ptr in_elem (mp_store l);
  Some (mkList raw' mp_list' chain (m_invalidValue l) (m_capacity l)
               (wrap32 (m_size l + 1))).

(** [set(CxI32, const T&)]; the source indexes [mp_vec], a name the class
    does not declare, read as [mp_list] like every other indexed access. *)
Definition set (in_idx : CxI32) (in_value : T) (l : CxList)
    : option CxList :=
  l1 ← (if m_size l <=? in_idx then
          l' ← (if m_capacity l <=? in_idx
                then resizeToCapacity (wrap32 (in_idx * 2)) l
                else Some l);
          Some (set_size (wrap32 (in_idx + 1)) l')
        else Some l);
  write_elem in_idx in_value l1.

(** ** Removing *)

(** [priv_removeAt] *)
Definition priv_removeAt (in_idx : CxI32) (l : CxList) : option CxList :=
  ptr ← list_cell l in_idx;
  l' ← (if in_idx <=? Z.shiftr in_idx 1 then
          l1 ← (if negb (in_idx =? 0) then
                  raw ← mem_copy (mp_list l + 1) (mp_list l) in_idx
                                 (mp_raw l);
                  raw' ← raw_write (mp_list l + 0) ptr raw;
                  Some (set_raw raw' l)
                else Some l);
          Some (set_list (mp_list l1 + 1) l1)
        else
          if negb (in_idx =? wrap32 (m_size l - 1)) then
            raw ← mem_copy (mp_list l + in_idx) (mp_list l + in_idx + 1)
                           (wrap32 (m_size l - in_idx)) (mp_raw l);
            raw' ← raw_write (mp_list l + wrap32 (m_size l - 1)) ptr raw;
            Some (set_raw raw' l)
          else Some l);
  Some (set_size (wrap32 (m_size l' - 1)) l').

(** [removeAt]: the branch of a valid index ends after [priv_removeAt]. *)
Definition removeAt (in_idx : CxI32) (l : CxList)
    : option (CxList * Returned CxBool) :=
  if (0 <=? in_idx) && (in_idx <? m_size l) then
    l' ← priv_removeAt in_idx l; Some (l', NoReturn)
  else Some (l, Value false).

(** [removeFirst] and [removeLast] touch no memory. *)
Definition removeFirst (l : CxList) : CxList :=
  if 0 <? m_size l
  then set_size (wrap32 (m_size l - 1)) (set_list (mp_list l + 1) l)
  else l.

Definition removeLast (l : CxList) : CxList :=
  if 0 <? m_size l then set_size (wrap32 (m_size l - 1)) l else l.

(** ** Replacing *)

(** [replaceAt] *)
Definition replaceAt (in_idx : CxI32) (in_value : T) (l : CxList)
    : option (CxList * CxBool) :=
  if (0 <=? in_idx) && (in_idx <? m_size l) then
    l' ← write_elem in_idx in_value l; Some (l', true)
  else Some (l, false).

(** The [while] loop of [replaceAll]. *)
Fixpoint replaceAll_loop (fuel : nat) (in_old in_new : T) (i count : CxI32)
    (l : CxList) : Run (CxList * CxI32) :=
  match fuel with
  | O => Timeout
  | Datatypes.S fuel' =>
      if i <? m_size l then
        match read_elem l i with
        | None => Fault
        | Some x =>
            if T_eq x in_old then
              match write_elem i in_new l with
              | None => Fault
              | Some l' =>
                  replaceAll_loop fuel' in_old in_new i (wrap32 (count + 1)) l'
              end
            else replaceAll_loop fuel' in_old in_new (wrap32 (i + 1)) count l
        end
      else Finished (l, count)
  end.

(** [replaceAll] *)
Definition replaceAll (fuel : nat) (in_old in_new : T) (l : CxList)
    : Run (CxList * CxI32) :=
  replaceAll_loop fuel in_old in_new 0 0 l.

(** ** Concatenation *)

(** [ret[i] = x] on a [new T[n]] array. *)
Definition array_write (i : Z) (x : T) (a : list T) : option (list T) :=
  if (0 <=? i) && (i <? Z.of_nat (Datatypes.length a))
  then Some (<[Z.to_nat i := x]> a) else None.

(** [operator+]: both lists are read only (the method and its argument
    are [const]); the result is a new list over a new array. *)
Definition operator_plus (this in_list : CxList) : option CxList :=
  let ret_size := wrap32 (m_size this + m_size in_list) in
  if 0 <? ret_size then
    ret ← new_array ret_size;
    ret ← for_range 0 (m_size this)
            (fun i r => x ← read_elem this i; array_write i x r) ret;
    ret ← for_range 0 (m_size in_list)
            (fun i r => x ← read_elem in_list i;
                        array_write (m_size this + i) x r) ret;
    CxList_array ret ret_size kCxNoCopy
  else CxList_new.

(** ** Prepending *)

(** Modelled from the spec: [prepend] is declared in the class but the
    sources hold no definition of it.  The spec (4.2, prepend-slot; 4.3,
    prepend) has it symmetric to append at the head: when the window
    starts at cell 0 there is no head slack, the list grows by a block
    sized to the growth increment (the current capacity, that is doubling,
    or the deficit of one cell when doubling adds nothing), growth yields
    tail slack, and the window is relocated so that the new cells come to
    lie before it; then the last head-slack cell joins the window and the
    value is written through it.  This is the relocation: the cells from
    the old capacity on come first. *)
Definition prepend_relocate (old_capacity : CxI32) (l : CxList) : CxList :=
  let k := Z.to_nat old_capacity in
  mkList (drop k (mp_raw l) ++ take k (mp_raw l))
         (mp_list l + (m_capacity l - old_capacity))
         (mp_store l) (m_invalidValue l) (m_capacity l) (m_size l).

(** Modelled from the spec: [prepend(v)], growth and relocation when the
    window starts at cell 0, then the prepend-slot and the write. *)
Definition prepend (in_value : T) (l : CxList) : option CxList :=
  l1 ← (if mp_list l =? 0 then
          let increment := if 1 <=? m_capacity l then m_capacity l else 1 in
          l' ← resizeToCapacity (wrap32 (m_capacity l + increment)) l;
          Some (prepend_relocate (m_capacity l) l')
        else Some l);
  let l2 := set_size (wrap32 (m_size l1 + 1)) (set_list (mp_list l1 - 1) l1) in
  write_elem 0 in_value l2.

(** ** Searching *)

(** [operator[]]: no bounds check. *)
Definition operator_index (in_idx : CxI32) (l : CxList) : option T :=
  read_elem l in_idx.

(** [value(in_idx, in_oobValue)] *)
Definition value_or (in_idx : CxI32) (in_oobValue : T) (l : CxList)
    : option T :=
  if (0 <=? in_idx) && (in_idx <? m_size l) then read_elem l in_idx
  else Some in_oobValue.

(** [startsWith] and [endsWith] *)
Definition startsWith (in_value : T) (l : CxList) : option CxBool :=
  if 0 <? m_size l then x ← read_elem l 0; Some (T_eq x in_value)
  else Some false.

Definition endsWith (in_value : T) (l : CxList) : option CxBool :=
  if 0 <? m_size l
  then x ← read_elem l (wrap32 (m_size l - 1)); Some (T_eq x in_value)
  else Some false.

(** [indexOf]; [in_from] defaults to 0. *)
Definition indexOf (in_value : T) (in_from : CxI32) (l : CxList)
    : option CxI32 :=
  for_range_first in_from (m_size l)
    (fun i => x ← read_elem l i;
              Some (if T_eq x in_value then Some i else None))
    (-1).

(** [lastIndexOf]; [in_from] defaults to -1, which stands for the last
    index. *)
Definition lastIndexOf (in_value : T) (in_from : CxI32) (l : CxList)
    : option CxI32 :=
  let in_from := if in_from =? -1 then wrap32 (m_size l - 1) else in_from in
  for_down_first (Z.to_nat (in_from + 1)) in_from
    (fun i => x ← read_elem l i;
              Some (if T_eq x in_value then Some i else None))
    (-1).

(** [contains] *)
Definition contains (in_value : T) (l : CxList) : option CxBool :=
  for_range_first 0 (m_size l)
    (fun i => x ← read_elem l i;
              Some (if T_eq x in_value then Some true else None))
    false.

(** [operator==] and [operator!=]; the elements are compared with the
    [operator!=] of [T], the negation of its [operator==]. *)
Definition operator_eq (this in_list : CxList) : option CxBool :=
  if m_size this =? m_size in_list then
    for_range_first 0 (m_size this)
      (fun i => a ← read_elem this i; b ← read_elem in_list i;
                Some (if negb (T_eq a b) then Some false else None))
      true
  else Some false.

Definition operator_ne (this in_list : CxList) : option CxBool :=
  if m_size this =? m_size in_list then
    for_range_first 0 (m_size this)
      (fun i => a ← read_elem this i; b ← read_elem in_list i;
                Some (if negb (T_eq a b) then Some true else None))
      false
  else Some true.

(** ** Removing and replacing by value, taking *)

(** [remove]; the source searches for [elem], a name it does not declare,
    read as the parameter [in_value]. *)
Definition remove (in_value : T) (l : CxList) : option (CxList * CxBool) :=
  idx ← indexOf in_value 0 l;
  if negb (idx =? -1) then l' ← priv_removeAt idx l; Some (l', true)
  else Some (l, false).

(** The [while] loop of [removeAll]. *)
Fixpoint removeAll_loop (fuel : nat) (in_value : T) (i count : CxI32)
    (l : CxList) : Run (CxList * CxI32) :=
  match fuel with
  | O => Timeout
  | Datatypes.S fuel' =>
      if i <? m_size l then
        match read_elem l i with
        | None => Fault
        | Some x =>
            if T_eq x in_value then
              match priv_removeAt i l with
              | None => Fault
              | Some l' =>
                  removeAll_loop fuel' in_value i (wrap32 (count + 1)) l'
              end
            else removeAll_loop fuel' in_value (wrap32 (i + 1)) count l
        end
      else Finished (l, count)
  end.

(** [removeAll] *)
Definition removeAll (fuel : nat) (in_value : T) (l : CxList)
    : Run (CxList * CxI32) :=
  removeAll_loop fuel in_value 0 0 l.

(** [replace] *)
Definition replace (in_old in_new : T) (l : CxList)
    : option (CxList * CxBool) :=
  idx ← indexOf in_old 0 l;
  if negb (idx =? -1) then l' ← write_elem idx in_new l; Some (l', true)
  else Some (l, false).

(** [takeAt] *)
Definition takeAt (in_idx : CxI32) (l : CxList) : option (CxList * T) :=
  if (0 <=? in_idx) && (in_idx <? m_size l) then
    ret ← read_elem l in_idx;
    l' ← priv_removeAt in_idx l;
    Some (l', ret)
  else Some (l, m_invalidValue l).

(** [takeLast]: the slot of the element taken is overwritten with
    [m_invalidValue]. *)
Definition takeLast (l : CxList) : option (CxList * T) :=
  if 0 <? m_size l then
    ret ← read_elem l (wrap32 (m_size l - 1));
    let l1 := set_size (wrap32 (m_size l - 1)) l in
    l2 ← write_elem (m_size l1) (m_invalidValue l1) l1;
    Some (l2, ret)
  else Some (l, m_invalidValue l).

(** ** Appending a list *)

(** [append(const CxList&)], for [in_src] a list other than this one. *)
Definition append_list (in_src : CxList) (l : CxList) : option CxList :=
  let capacity := wrap32 (m_size l + m_size in_src) in
  l1 ← (if m_capacity l <? capacity then resizeToCapacity capacity l
        else Some l);
  l2 ← for_range 0 (m_size in_src)
         (fun i s => x ← read_elem in_src i; write_elem (m_size l1 + i) x s)
         l1;
  Some (set_size (wrap32 (m_size l2 + m_size in_src)) l2).

(** ** Releasing, copying and compacting *)

(** [clear]: [mem::free(mp_raw)] releases the pointer array, of which no
    cell may be read or written afterwards: it is the array of no cells.
    [freeStorage] releases the chain.  The source does not reset [mp_raw]
    itself; what a later [mem::resize] makes of the released array is not
    part of this embedding, and nothing below grows a cleared list. *)
Definition freeStorage (l : CxList) : CxList := set_store [] l.

Definition clear (l : CxList) : CxList :=
  set_size 0 (mkList [] 0 (mp_store (freeStorage l)) (m_invalidValue l) 0
                     (m_size l)).

(** [operator=], for [in_src] a list other than this one: every cell of
    the source, slack included, is copied into one new block. *)
Definition operator_assign (in_src : CxList) (l : CxList) : option CxList :=
  let l := clear l in
  let capacity := m_capacity in_src in
  if 0 <? capacity then
    raw ← mem_alloc capacity;
    st ← CxListStore_new capacity;
    '(c, raw') ← for_range 0 capacity
           (fun i '(c, r) =>
              r' ← raw_write i (mkPtr 0 (Z.to_nat i)) r;
              p ← raw_read (mp_raw in_src) i;
              x ← deref p (mp_store in_src);
              c' ← assign (mkPtr 0 (Z.to_nat i)) x c;
              Some (c', r'))
           ([st], raw);
    Some (mkList raw' (mp_list in_src) c (m_invalidValue l) capacity
                 (m_size in_src))
  else Some (mkList (mp_raw l) (mp_list l) (mp_store l) (m_invalidValue l)
                    capacity (m_size in_src)).

(** [CxList(const CxList&)] *)
Definition CxList_copy (in_src : CxList) : option CxList :=
  l ← initialise 0 null_list; operator_assign in_src l.


End CxListOps.

Arguments CxList T : clear implicits.

(** ** The representation invariant and the abstraction *)

Section Invariant.
Context {T : Type} `{Element T}.

(** The cell a pointer-array entry leads to. *)
Definition load (chain : list (CxListStore T)) (c : Cell) : option T :=
  p ← c; deref p chain.

(** The live cells: [m_size] cells from [mp_list]. *)
Definition window (l : CxList T) : list Cell :=
  take (Z.to_nat (m_size l)) (drop (Z.to_nat (mp_list l)) (mp_raw l)).

(** A list as the constructors make it and the operations keep it: the
    pointer array has [m_capacity] cells, the window lies inside it, and
    the cells point at distinct slots of the chain. *)
Record wf (l : CxList T) : Prop := {
  wf_capacity : Z.of_nat (Datatypes.length (mp_raw l)) = m_capacity l;
  wf_bound : m_capacity l <= INT32_MAX;
  wf_start : 0 <= mp_list l;
  wf_size : 0 <= m_size l;
  wf_window : mp_list l + m_size l <= m_capacity l;
  wf_cells : forall i c, mp_raw l !! i = Some c ->
                         is_Some (load (mp_store l) c);
  wf_distinct : NoDup (mp_raw l)
}.

(** The cells [resizeToCapacity] points at block [b]. *)
Definition block_cells (b : nat) (from n : nat) : list Cell :=
  (fun i => Some (mkPtr b i)) <$> seq from n.

(** The list an adopted array of [n] elements makes. *)
Definition adopted (arr : list T) (n : CxI32) : CxList T :=
  mkList (block_cells 0 0 (Z.to_nat n)) 0 [mkStore arr n] T_default n n.

(** A sequence of single-element appends. *)
Fixpoint appends (vs : list T) (l : CxList T) : option (CxList T) :=
  match vs with
  | [] => Some l
  | v :: vs' => l' ← append v l; appends vs' l'
  end.


Fixpoint occurrences (in_old : T) (xs : list T) : Z :=
  match xs with
  | [] => 0
  | x :: xs' => (if T_eq x in_old then 1 else 0) + occurrences in_old xs'
  end.

End Invariant.

(** An array of 2^30 zeros, and the list that adopts it. *)
Definition half_range : CxI32 := 1073741824.
Definition half_range_array : list CxI32 := replicate (Z.to_nat half_range) 0.
Definition half_range_list : CxList CxI32 :=
  adopted half_range_array half_range.

(** The lists of the examples: [1, 5, 2, 5, 3] in a full pointer array,
    with a free cell after the window, with the window at cell 1 and
    ending with the array, and with a free cell at either end; and an
    empty list of capacity 1. *)
Definition sample_full : CxList CxI32 := adopted [1; 5; 2; 5; 3] 5.
Definition sample_slack : CxList CxI32 :=
  removeLast (adopted [1; 5; 2; 5; 3; 7] 6).
Definition sample_tail : CxList CxI32 :=
  removeFirst (adopted [7; 1; 5; 2; 5; 3] 6).
Definition sample_mid : CxList CxI32 :=
  removeFirst (removeLast (adopted [7; 1; 5; 2; 5; 3; 7] 7)).
Definition sample_empty : CxList CxI32 := removeLast (adopted [7] 1).

(** ** Tactics *)

(** Projections of a list given by its fields. *)
Ltac fields :=
  cbn [mp_raw mp_list mp_store m_invalidValue m_capacity m_size
       set_size set_list set_raw set_store] in *.

(** Comparisons that [lia] settles are replaced by their value. *)
Ltac zdecide :=
  repeat match goal with
  | |- context [?a <=? ?b] =>
      first [rewrite (proj2 (Z.leb_le a b)) by lia
            |rewrite (proj2 (Z.leb_gt a b)) by lia]
  | |- context [?a <? ?b] =>
      first [rewrite (proj2 (Z.ltb_lt a b)) by lia
            |rewrite (proj2 (Z.ltb_ge a b)) by lia]
  | |- context [?a =? ?b] =>
      first [rewrite (proj2 (Z.eqb_eq a b)) by lia
            |rewrite (proj2 (Z.eqb_neq a b)) by lia]
  end.

(** A closed fact about concrete lists and numbers, by evaluation. *)
Ltac by_evaluation :=
  first [ reflexivity
        | solve [vm_compute; intuition (discriminate || reflexivity)] ].

(** ** Arithmetic and loops *)

Lemma wrap32_id z : -2147483648 <= z <= INT32_MAX -> wrap32 z = z.
Proof.
  unfold wrap32, INT32_MAX. intros Hz.
  rewrite Z.mod_small by lia. lia.
Qed.

Lemma wrap32_double (c : Z) :
  0 <= c <= INT32_MAX -> 0 <= wrap32 (c * 2) -> c * 2 <= INT32_MAX.
Proof.
  unfold wrap32, INT32_MAX. intros Hc Hw.
  destruct (decide (c * 2 <= 2147483647)) as [|Hbig]; [done|].
  replace (c * 2 + 2147483648)
    with (c * 2 - 2147483648 + 1 * 4294967296) in Hw by lia.
  rewrite Z_mod_plus_full, Z.mod_small in Hw by lia. lia.
Qed.

Lemma shiftr1_le (i : Z) : 0 <= i -> (i <=? Z.shiftr i 1) = (i =? 0).
Proof.
  intros Hi. rewrite Z.shiftr_div_pow2 by lia. change (2 ^ 1) with 2.
  destruct (Z.eqb_spec i 0) as [->|Hne]; [done|].
  apply Z.leb_gt. apply Z.div_lt; lia.
Qed.

Lemma for_loop_inv {S : Type} (P : Z -> S -> Prop) n i body (s : S) :
  P i s ->
  (forall j s, i <= j < i + Z.of_nat n -> P j s ->
               exists s', body j s = Some s' /\ P (j + 1) s') ->
  exists s', for_loop n i body s = Some s' /\ P (i + Z.of_nat n) s'.
Proof.
  revert i s. induction n as [|n IH]; intros i s Hi Hstep.
  - exists s. split; [done|]. by replace (i + Z.of_nat 0) with i by lia.
  - destruct (Hstep i s) as (s1 & Hb & H1); [lia|done|].
    destruct (IH (i + 1) s1) as (s2 & Hl & H2); [done| |].
    + intros j s' Hj. apply Hstep. lia.
    + exists s2. simpl. rewrite Hb. simpl. split; [done|].
      by replace (i + Z.of_nat (Datatypes.S n)) with (i + 1 + Z.of_nat n) by lia.
Qed.

Lemma for_range_inv {S : Type} (P : Z -> S -> Prop) lo hi body (s : S) :
  lo <= hi -> P lo s ->
  (forall j s, lo <= j < hi -> P j s ->
               exists s', body j s = Some s' /\ P (j + 1) s') ->
  exists s', for_range lo hi body s = Some s' /\ P hi s'.
Proof.
  intros Hle H0 Hstep. unfold for_range.
  destruct (for_loop_inv P (Z.to_nat (hi - lo)) lo body s) as (s' & ? & ?);
    [done| |].
  - intros j s' Hj. apply Hstep. lia.
  - exists s'. split; [done|]. by replace hi with (lo + Z.of_nat (Z.to_nat (hi - lo))) at 1 by lia.
Qed.

Lemma for_range_empty {S : Type} lo hi body (s : S) :
  hi <= lo -> for_range lo hi body s = Some s.
Proof. intros. unfold for_range. by replace (Z.to_nat (hi - lo)) with O by lia. Qed.

Lemma mapM_Forall2_ext {A A' B : Type} (f : A -> option B)
    (g : A' -> option B) (xs : list A) (ys : list A') :
  Forall2 (fun x y => f x = g y) xs ys -> mapM f xs = mapM g ys.
Proof.
  induction 1 as [|x y xs ys Hxy _ IH]; [done|].
  simpl. by rewrite Hxy, IH.
Qed.

(** ** The pointer array *)

Lemma raw_read_lookup (raw : list Cell) i p :
  0 <= i -> raw !! Z.to_nat i = Some (Some p) -> raw_read raw i = Some p.
Proof.
  intros Hi Hl. unfold raw_read.
  destruct (Z.ltb_spec i 0); [lia|]. by rewrite Hl.
Qed.

Lemma raw_read_Some (raw : list Cell) i p :
  raw_read raw i = Some p -> 0 <= i /\ raw !! Z.to_nat i = Some (Some p).
Proof.
  unfold raw_read. destruct (Z.ltb_spec i 0); [done|].
  destruct (raw !! Z.to_nat i) as [[q|]|] eqn:E; simpl; [|done..].
  intros [= ->]. split; [lia|done].
Qed.

Lemma raw_write_Some i p (raw : list Cell) :
  0 <= i < Z.of_nat (Datatypes.length raw) ->
  raw_write i p raw = Some (<[Z.to_nat i := Some p]> raw).
Proof.
  intros Hi. unfold raw_write.
  destruct (Z.leb_spec 0 i); [|lia].
  destruct (Z.ltb_spec i (Z.of_nat (Datatypes.length raw))); [done|lia].
Qed.

Lemma raw_write_inv i p (raw raw' : list Cell) :
  raw_write i p raw = Some raw' ->
  0 <= i < Z.of_nat (Datatypes.length raw)
  /\ Datatypes.length raw' = Datatypes.length raw
  /\ forall k, 0 <= k ->
       raw' !! Z.to_nat k
       = if decide (k = i) then Some (Some p) else raw !! Z.to_nat k.
Proof.
  unfold raw_write.
  destruct (Z.leb_spec 0 i); [|done].
  destruct (Z.ltb_spec i (Z.of_nat (Datatypes.length raw))); [|done].
  simpl. intros [= <-]. split; [lia|]. split; [by rewrite length_insert|].
  intros k Hk. destruct (decide (k = i)) as [->|].
  - by rewrite list_lookup_insert_eq by lia.
  - by rewrite list_lookup_insert_ne by lia.
Qed.

Lemma mem_copy_inv dst src n (raw raw' : list Cell) :
  mem_copy dst src n raw = Some raw' ->
  (0 <= n /\ 0 <= src /\ src + n <= Z.of_nat (Datatypes.length raw)
   /\ 0 <= dst /\ dst + n <= Z.of_nat (Datatypes.length raw))
  /\ Datatypes.length raw' = Datatypes.length raw
  /\ forall k, 0 <= k ->
       raw' !! Z.to_nat k
       = if decide (dst <= k < dst + n)
         then raw !! Z.to_nat (k - dst + src)
         else raw !! Z.to_nat k.
Proof.
  unfold mem_copy.
  destruct (Z.leb_spec 0 n); [|done].
  destruct (Z.leb_spec 0 src); [|done].
  destruct (Z.leb_spec (src + n) (Z.of_nat (Datatypes.length raw))); [|done].
  destruct (Z.leb_spec 0 dst); [|done].
  destruct (Z.leb_spec (dst + n) (Z.of_nat (Datatypes.length raw))); [|done].
  simpl. intros [= <-]. split; [lia|]. split.
  - rewrite !length_app, !length_take, !length_drop. lia.
  - intros k Hk. destruct (decide (dst <= k < dst + n)) as [Hin|Hout].
    + rewrite lookup_app_r by (rewrite length_take; lia).
      rewrite length_take.
      rewrite lookup_app_l by (rewrite length_take, length_drop; lia).
      rewrite lookup_take_lt by lia. rewrite lookup_drop. f_equal. lia.
    + destruct (decide (k < dst)).
      * rewrite lookup_app_l by (rewrite length_take; lia).
        by rewrite lookup_take_lt by lia.
      * rewrite lookup_app_r by (rewrite length_take; lia).
        rewrite length_take.
        rewrite lookup_app_r by (rewrite length_take, length_drop; lia).
        rewrite length_take, length_drop, lookup_drop. f_equal. lia.
Qed.

Lemma mem_copy_is_Some dst src n (raw : list Cell) :
  0 <= n -> 0 <= src -> src + n <= Z.of_nat (Datatypes.length raw) ->
  0 <= dst -> dst + n <= Z.of_nat (Datatypes.length raw) ->
  is_Some (mem_copy dst src n raw).
Proof.
  intros. unfold mem_copy.
  destruct (Z.leb_spec 0 n); [|lia].
  destruct (Z.leb_spec 0 src); [|lia].
  destruct (Z.leb_spec (src + n) (Z.of_nat (Datatypes.length raw))); [|lia].
  destruct (Z.leb_spec 0 dst); [|lia].
  destruct (Z.leb_spec (dst + n) (Z.of_nat (Datatypes.length raw))); [|lia].
  simpl. eauto.
Qed.

Lemma block_cells_length b from n : Datatypes.length (block_cells b from n) = n.
Proof. unfold block_cells. by rewrite length_fmap, length_seq. Qed.

Lemma block_cells_lookup b from n i :
  (i < n)%nat -> block_cells b from n !! i = Some (Some (mkPtr b (from + i))).
Proof.
  intros Hi. unfold block_cells. rewrite list_lookup_fmap.
  by rewrite lookup_seq_lt.
Qed.

Lemma block_cells_snoc b from n :
  block_cells b from (Datatypes.S n)
  = block_cells b from n ++ [Some (mkPtr b (from + n))].
Proof. unfold block_cells. by rewrite seq_S, fmap_app. Qed.

Lemma block_cells_NoDup b from n : NoDup (block_cells b from n).
Proof.
  unfold block_cells. apply NoDup_fmap_2_strong; [|apply NoDup_seq].
  by intros x y _ _ [= ->].
Qed.

Lemma block_cells_elem b from n c :
  c ∈ block_cells b from n ->
  exists i, c = Some (mkPtr b i) /\ (from <= i < from + n)%nat.
Proof.
  unfold block_cells. intros (i & -> & Hi)%list_elem_of_fmap.
  apply elem_of_seq in Hi. eauto.
Qed.

(** The loop of [resizeToCapacity] (and of the array constructor) turns
    the [n] fresh cells after [pre] into pointers to the slots of block
    [b]. *)
Lemma point_cells_loop b (pre : list Cell) (n : nat) :
  for_range 0 (Z.of_nat n)
    (fun i r => raw_write (Z.of_nat (Datatypes.length pre) + i)
                          (mkPtr b (Z.to_nat i)) r)
    (pre ++ replicate n None)
  = Some (pre ++ block_cells b 0 n).
Proof.
  destruct (for_range_inv
    (fun j r => r = pre ++ block_cells b 0 (Z.to_nat j)
                        ++ replicate (n - Z.to_nat j) None)
    0 (Z.of_nat n)
    (fun i r => raw_write (Z.of_nat (Datatypes.length pre) + i)
                          (mkPtr b (Z.to_nat i)) r)
    (pre ++ replicate n None)) as (r & Hr & HP).
  - lia.
  - simpl. by rewrite Nat.sub_0_r.
  - intros j s Hj ->. eexists. split; [|reflexivity].
    rewrite raw_write_Some.
    2:{ rewrite !length_app, block_cells_length, length_replicate. lia. }
    f_equal.
    replace (Z.to_nat (Z.of_nat (Datatypes.length pre) + j))
      with (Datatypes.length pre + Z.to_nat j)%nat by lia.
    rewrite insert_app_r.
    replace (Z.to_nat j) with (Datatypes.length (block_cells b 0 (Z.to_nat j)) + 0)%nat
      at 1 by (rewrite block_cells_length; lia).
    rewrite insert_app_r.
    replace (n - Z.to_nat j)%nat with (Datatypes.S (n - Z.to_nat (j + 1))) by lia.
    simpl. replace (Z.to_nat (j + 1)) with (Datatypes.S (Z.to_nat j)) by lia.
    rewrite block_cells_snoc. by rewrite <- !app_assoc.
  - rewrite Hr, HP. rewrite Nat2Z.id, Nat.sub_diag. simpl.
    by rewrite app_nil_r.
Qed.

Lemma point_cells_from_start b (n : nat) :
  for_range 0 (Z.of_nat n)
    (fun i r => raw_write i (mkPtr b (Z.to_nat i)) r) (replicate n None)
  = Some (block_cells b 0 n).
Proof. exact (point_cells_loop b [] n). Qed.

(** ** Slots *)

Section Slots.
Context {T : Type} `{Element T}.
Implicit Types (l : CxList T) (chain : list (CxListStore T)) (xs ys : list T).

Lemma T_eq_refl (v : T) : T_eq v v = true.
Proof. by apply T_eq_spec. Qed.


Lemma assign_is_Some p v chain :
  is_Some (deref p chain) -> is_Some (assign p v chain).
Proof.
  unfold deref, assign. destruct (chain !! blk p) as [b|]; simpl.
  - intros Hs. apply lookup_lt_is_Some_1 in Hs.
    destruct (decide _); [eauto|lia].
  - by intros [? ?].
Qed.

Lemma assign_same p v chain :
  deref p chain = Some v -> assign p v chain = Some chain.
Proof.
  unfold deref, assign.
  destruct (chain !! blk p) as [b|] eqn:Hb; simpl; [|done].
  intros Hv. apply lookup_lt_Some in Hv as Hlt.
  destruct (decide _); [|lia]. f_equal.
  rewrite (list_insert_id (store b)) by done.
  destruct b. by apply list_insert_id.
Qed.

Lemma deref_assign p q v chain chain' :
  assign p v chain = Some chain' ->
  deref q chain' = if decide (q = p) then Some v else deref q chain.
Proof.
  unfold assign, deref.
  destruct (chain !! blk p) as [b|] eqn:Hb; simpl; [|done].
  destruct (decide (slot p < _)%nat) as [Hlt|]; [|done].
  intros [= <-]. apply lookup_lt_Some in Hb as Hblk.
  destruct (decide (blk q = blk p)) as [Eb|Nb].
  - rewrite Eb, list_lookup_insert_eq by done. simpl.
    destruct (decide (slot q = slot p)) as [Es|Ns].
    + rewrite Es, list_lookup_insert_eq by done.
      destruct p, q; simpl in *; subst. by rewrite decide_True.
    + rewrite list_lookup_insert_ne by done.
      rewrite decide_False by (intros ->; done). by rewrite Hb.
  - rewrite list_lookup_insert_ne by done.
    by rewrite decide_False by (intros ->; done).
Qed.

Lemma load_assign p c v chain chain' :
  assign p v chain = Some chain' ->
  load chain' c = if decide (c = Some p) then Some v else load chain c.
Proof.
  intros Ha. destruct c as [q|]; simpl; [|done].
  rewrite (deref_assign _ _ _ _ _ Ha).
  destruct (decide (q = p)) as [->|Hne].
  - by rewrite decide_True.
  - by rewrite decide_False by (intros [= ->]; done).
Qed.

Lemma load_assign_is_Some p c v chain chain' :
  assign p v chain = Some chain' ->
  is_Some (load chain c) -> is_Some (load chain' c).
Proof.
  intros Ha Hs. rewrite (load_assign _ _ _ _ _ Ha).
  destruct (decide _); eauto.
Qed.

Lemma load_blk_lt chain p :
  is_Some (load chain (Some p)) -> (blk p < Datatypes.length chain)%nat.
Proof.
  simpl. unfold deref. destruct (chain !! blk p) eqn:E; simpl.
  - intros _. by eapply lookup_lt_Some.
  - by intros [? ?].
Qed.

Lemma load_app_l chain b c :
  is_Some (load chain c) -> load (chain ++ [b]) c = load chain c.
Proof.
  destruct c as [p|]; [|by intros [? ?]].
  intros Hs. apply load_blk_lt in Hs. simpl. unfold deref.
  by rewrite lookup_app_l.
Qed.

End Slots.

(** ** The window and the element sequence *)

Section Window.
Context {T : Type} `{Element T}.
Implicit Types (l : CxList T) (chain : list (CxListStore T)) (xs ys : list T).

Lemma window_length l :
  0 <= mp_list l -> 0 <= m_size l ->
  mp_list l + m_size l <= Z.of_nat (Datatypes.length (mp_raw l)) ->
  Datatypes.length (window l) = Z.to_nat (m_size l).
Proof.
  intros. unfold window. rewrite length_take, length_drop. lia.
Qed.

Lemma window_lookup l i :
  (i < Z.to_nat (m_size l))%nat ->
  window l !! i = mp_raw l !! (Z.to_nat (mp_list l) + i)%nat.
Proof.
  intros. unfold window. by rewrite lookup_take_lt, lookup_drop.
Qed.

Lemma list_cell_Some l i p :
  list_cell l i = Some p ->
  0 <= mp_list l + i /\ mp_raw l !! Z.to_nat (mp_list l + i) = Some (Some p).
Proof. unfold list_cell. apply raw_read_Some. Qed.

Lemma read_elem_raw l i :
  0 <= mp_list l -> 0 <= i ->
  read_elem l i
  = mp_raw l !! (Z.to_nat (mp_list l) + Z.to_nat i)%nat ≫= load (mp_store l).
Proof.
  intros Hs Hi. unfold read_elem, list_cell, raw_read.
  destruct (Z.ltb_spec (mp_list l + i) 0); [lia|].
  replace (Z.to_nat (mp_list l + i))
    with (Z.to_nat (mp_list l) + Z.to_nat i)%nat by lia.
  by destruct (mp_raw l !! _) as [[p|]|].
Qed.

Lemma read_elem_rawZ l i :
  0 <= mp_list l -> 0 <= i ->
  read_elem l i = mp_raw l !! Z.to_nat (mp_list l + i) ≫= load (mp_store l).
Proof.
  intros. rewrite read_elem_raw by done. do 2 f_equal. lia.
Qed.

Lemma value_in_range l i :
  0 <= i < m_size l -> value i l = read_elem l i.
Proof.
  intros Hi. unfold value.
  destruct (Z.leb_spec 0 i); [|lia].
  destruct (Z.ltb_spec i (m_size l)); [done|lia].
Qed.

Lemma value_out_of_range l i :
  ~ (0 <= i < m_size l) -> value i l = Some (m_invalidValue l).
Proof.
  intros Hi. unfold value.
  destruct (Z.leb_spec 0 i); [|done].
  destruct (Z.ltb_spec i (m_size l)); [lia|done].
Qed.

Lemma value_window l i :
  0 <= mp_list l -> (i < Z.to_nat (m_size l))%nat ->
  value (Z.of_nat i) l = window l !! i ≫= load (mp_store l).
Proof.
  intros Hs Hi. rewrite value_in_range by lia.
  rewrite read_elem_raw by lia. rewrite window_lookup by done.
  by rewrite Nat2Z.id.
Qed.

(** The element sequence is what the cells of the window lead to. *)
Lemma elements_window l :
  0 <= mp_list l -> 0 <= m_size l ->
  mp_list l + m_size l <= Z.of_nat (Datatypes.length (mp_raw l)) ->
  elements l = mapM (load (mp_store l)) (window l).
Proof.
  intros Hs Hz Hw. unfold elements. apply mapM_Forall2_ext.
  apply Forall2_same_length_lookup_2.
  - by rewrite length_seq, window_length.
  - intros i x c Hx Hc. apply lookup_seq in Hx as [-> Hi]. simpl.
    rewrite value_window by done. by rewrite Hc.
Qed.

Lemma elements_lookup l xs :
  elements l = Some xs ->
  Datatypes.length xs = Z.to_nat (m_size l) /\
  forall i x, xs !! i = Some x -> read_elem l (Z.of_nat i) = Some x.
Proof.
  intros He. unfold elements in He. apply length_mapM in He as Hlen.
  rewrite length_seq in Hlen. split; [done|].
  intros i x Hx. apply mapM_Some_1 in He.
  apply lookup_lt_Some in Hx as Hi.
  destruct (Forall2_lookup_r _ _ _ _ _ He Hx) as (j & Hj & Hv).
  apply lookup_seq in Hj as [-> _]. simpl in Hv.
  rewrite value_in_range in Hv by lia. done.
Qed.

Lemma elements_of_reads l (xs : list T) :
  Datatypes.length xs = Z.to_nat (m_size l) ->
  (forall i x, xs !! i = Some x -> read_elem l (Z.of_nat i) = Some x) ->
  elements l = Some xs.
Proof.
  intros Hlen Hread. unfold elements.
  apply mapM_Some_2, Forall2_same_length_lookup_2.
  - by rewrite length_seq.
  - intros i j x Hj Hx. apply lookup_seq in Hj as [-> Hi]. simpl.
    rewrite value_in_range by lia. by apply Hread.
Qed.

Lemma elements_ext l l' :
  m_size l' = m_size l -> (forall i, value i l' = value i l) ->
  elements l' = elements l.
Proof.
  intros Hsz Hv. unfold elements. rewrite Hsz. by apply mapM_ext.
Qed.

Lemma empty_elements l : wf l -> m_size l = 0 -> elements l = Some [].
Proof. intros _ Hz. unfold elements. by rewrite Hz. Qed.

End Window.

(** ** Well-formed lists *)

Section WellFormed.
Context {T : Type} `{Element T}.
Implicit Types (l : CxList T) (chain : list (CxListStore T)) (xs ys : list T).

Lemma wf_window_cells l c :
  wf l -> c ∈ window l -> is_Some (load (mp_store l) c).
Proof.
  intros Hwf Hc. unfold window in Hc.
  apply list_elem_of_lookup in Hc as [i Hi].
  apply lookup_take_Some in Hi as [Hi _]. rewrite lookup_drop in Hi.
  by eapply wf_cells.
Qed.

Lemma wf_elements l : wf l -> is_Some (elements l).
Proof.
  intros Hwf. rewrite elements_window.
  - apply mapM_is_Some, Forall_forall. intros c Hc. simpl.
    by apply wf_window_cells.
  - by destruct Hwf.
  - by destruct Hwf.
  - destruct Hwf. lia.
Qed.

Lemma wf_read_elem l i :
  wf l -> 0 <= mp_list l + i < m_capacity l ->
  exists p, list_cell l i = Some p /\
            mp_raw l !! Z.to_nat (mp_list l + i) = Some (Some p) /\
            is_Some (deref p (mp_store l)).
Proof.
  intros Hwf Hi.
  destruct (lookup_lt_is_Some_2 (mp_raw l) (Z.to_nat (mp_list l + i)))
    as [c Hc]; [destruct Hwf; lia|].
  destruct (wf_cells l Hwf _ _ Hc) as [x Hx].
  destruct c as [p|]; [|done]. exists p. split_and!; [|done|by eexists].
  unfold list_cell. by apply raw_read_lookup; [lia|].
Qed.

(** The cells of a well-formed list are distinct: a slot reached from
    one cell is reached from no other. *)
Lemma wf_cell_inj l i j c :
  wf l -> 0 <= i -> 0 <= j ->
  mp_raw l !! Z.to_nat i = Some c -> mp_raw l !! Z.to_nat j = Some c ->
  i = j.
Proof.
  intros Hwf Hi Hj Hci Hcj.
  pose proof (NoDup_lookup _ _ _ _ (wf_distinct l Hwf) Hci Hcj). lia.
Qed.

(** A pointer array whose cells are those of a well-formed list in
    another order, over a chain that keeps the slots, is well-formed. *)
Lemma wf_reindex l l' (pi : Z -> Z) :
  wf l ->
  Datatypes.length (mp_raw l') = Datatypes.length (mp_raw l) ->
  m_capacity l' = m_capacity l ->
  0 <= mp_list l' -> 0 <= m_size l' ->
  mp_list l' + m_size l' <= m_capacity l' ->
  (forall k, 0 <= k < m_capacity l ->
     0 <= pi k < m_capacity l /\
     mp_raw l' !! Z.to_nat k = mp_raw l !! Z.to_nat (pi k)) ->
  (forall i j, 0 <= i < m_capacity l -> 0 <= j < m_capacity l ->
     pi i = pi j -> i = j) ->
  (forall c, is_Some (load (mp_store l) c) ->
             is_Some (load (mp_store l') c)) ->
  wf l'.
Proof.
  intros [Hcap Hb Hs Hz Hw Hcells Hnd] Hlen Hcap' Hs' Hz' Hw' Hpi Hinj Hld.
  split; try lia.
  - intros i c Hc. apply lookup_lt_Some in Hc as Hi.
    destruct (Hpi (Z.of_nat i)) as [Hr Hk]; [lia|].
    rewrite Nat2Z.id in Hk. rewrite Hk in Hc. eauto.
  - apply NoDup_alt. intros i j c Hi Hj.
    apply lookup_lt_Some in Hi as Hi'. apply lookup_lt_Some in Hj as Hj'.
    destruct (Hpi (Z.of_nat i)) as [Hri Hki]; [lia|].
    destruct (Hpi (Z.of_nat j)) as [Hrj Hkj]; [lia|].
    rewrite Nat2Z.id in Hki, Hkj. rewrite Hki in Hi. rewrite Hkj in Hj.
    pose proof (NoDup_lookup _ _ _ _ Hnd Hi Hj) as Heq.
    assert (pi (Z.of_nat i) = pi (Z.of_nat j)) by lia.
    assert (Z.of_nat i = Z.of_nat j) by (apply Hinj; lia). lia.
Qed.

Lemma set_store_wf l p v c :
  wf l -> assign p v (mp_store l) = Some c -> wf (set_store c l).
Proof.
  intros [? ? ? ? ? Hcells ?] Hc. split; fields; try done.
  intros i x Hx. eapply load_assign_is_Some; eauto.
Qed.

Lemma write_elem_spec l i v :
  wf l -> 0 <= mp_list l + i < m_capacity l ->
  exists p c,
    mp_raw l !! Z.to_nat (mp_list l + i) = Some (Some p) /\
    assign p v (mp_store l) = Some c /\
    write_elem i v l = Some (set_store c l).
Proof.
  intros Hwf Hi. destruct (wf_read_elem l i Hwf Hi) as (p & Hp & Hraw & Hd).
  destruct (assign_is_Some p v _ Hd) as [c Hc].
  exists p, c. split_and!; [done..|].
  unfold write_elem. rewrite Hp. simpl. by rewrite Hc.
Qed.

(** A write through a cell of a well-formed list changes the element at
    that cell and no other. *)
Lemma write_elem_inv l (i : Z) (v : T) l' :
  wf l -> 0 <= i -> write_elem i v l = Some l' ->
  wf l' /\ m_size l' = m_size l /\ m_capacity l' = m_capacity l /\
  mp_list l' = mp_list l /\ m_invalidValue l' = m_invalidValue l /\
  mp_list l + i < m_capacity l /\
  read_elem l' i = Some v /\
  forall j, 0 <= j -> j <> i -> read_elem l' j = read_elem l j.
Proof.
  intros Hwf Hi. pose proof Hwf as [Hcap Hb Hs Hz Hw Hcells Hnd].
  unfold write_elem.
  destruct (list_cell l i) as [p|] eqn:Hp; [|done].
  apply list_cell_Some in Hp as [_ Hp]. apply lookup_lt_Some in Hp as Hlt.
  cbn [mbind option_bind].
  destruct (assign p v (mp_store l)) as [c|] eqn:Hc; [|done].
  cbn [mbind option_bind]. intros [= <-]. fields.
  split_and!; try done; try lia.
  - by eapply set_store_wf.
  - rewrite read_elem_rawZ by (fields; lia). fields. rewrite Hp. simpl.
    rewrite (deref_assign _ _ _ _ _ Hc). by rewrite decide_True.
  - intros j Hj Hne. rewrite !read_elem_rawZ by (fields; lia). fields.
    destruct (mp_raw l !! Z.to_nat (mp_list l + j)) as [c'|] eqn:Hc'; [|done].
    change (load c c' = load (mp_store l) c').
    rewrite (load_assign _ _ _ _ _ Hc).
    destruct (decide (c' = Some p)) as [->|]; [|done].
    assert (mp_list l + j = mp_list l + i); [|lia].
    eapply (wf_cell_inj l); eauto; lia.
Qed.

Lemma write_elem_elements l (i : Z) (v : T) l' xs :
  wf l -> 0 <= i < m_size l -> elements l = Some xs ->
  write_elem i v l = Some l' ->
  elements l' = Some (<[Z.to_nat i := v]> xs).
Proof.
  intros Hwf Hi Hxs Hwr.
  destruct (write_elem_inv l i v l' Hwf) as (_ & Hsz & _ & _ & _ & _ & Hv & Hrd);
    [lia|done|].
  destruct (elements_lookup _ _ Hxs) as [Hlen Hread].
  apply elements_of_reads.
  - rewrite length_insert. lia.
  - intros j x Hx. destruct (decide (j = Z.to_nat i)) as [->|Hne].
    + rewrite list_lookup_insert_eq in Hx by lia. injection Hx as <-.
      by rewrite Z2Nat.id by lia.
    + rewrite list_lookup_insert_ne in Hx by done.
      rewrite Hrd by lia. by apply Hread.
Qed.

Lemma write_elem_same l i v :
  read_elem l i = Some v -> write_elem i v l = Some l.
Proof.
  unfold read_elem, write_elem.
  destruct (list_cell l i) as [p|]; simpl; [|done].
  intros Hv. rewrite (assign_same _ _ _ Hv). simpl. by destruct l.
Qed.

End WellFormed.

(** ** Growth *)

Section Growth.
Context {T : Type} `{Element T}.
Implicit Types (l : CxList T) (chain : list (CxListStore T)) (xs ys : list T).

Lemma resizeToCapacity_spec l n :
  wf l -> m_capacity l <= n <= INT32_MAX ->
  resizeToCapacity n l
  = Some (mkList
            (mp_raw l ++ block_cells (Datatypes.length (mp_store l)) 0
                                     (Z.to_nat (n - m_capacity l)))
            (mp_list l)
            (mp_store l
               ++ [mkStore (replicate (Z.to_nat (n - m_capacity l)) T_default)
                           (n - m_capacity l)])
            (m_invalidValue l) n (m_size l)).
Proof.
  intros [Hcap Hb Hs Hz Hw _ _] Hn. unfold resizeToCapacity, INT32_MAX in *.
  rewrite (wrap32_id (mp_list l)) by (unfold INT32_MAX; lia).
  rewrite (wrap32_id (n - m_capacity l)) by (unfold INT32_MAX; lia).
  unfold mem_resize. destruct (Z.ltb_spec n 0); [lia|]. simpl.
  unfold CxListStore_new, new_array.
  destruct (Z.ltb_spec (n - m_capacity l) 0); [lia|]. simpl.
  rewrite resize_ge by lia.
  replace (Z.to_nat n - Datatypes.length (mp_raw l))%nat
    with (Z.to_nat (n - m_capacity l)) by lia.
  set (k := Z.to_nat (n - m_capacity l)).
  replace (n - m_capacity l) with (Z.of_nat k) by lia.
  rewrite <- Hcap. by rewrite point_cells_loop.
Qed.

Lemma resizeToCapacity_wf l l' n :
  wf l -> m_capacity l <= n <= INT32_MAX ->
  resizeToCapacity n l = Some l' -> wf l'.
Proof.
  intros Hwf Hn. rewrite resizeToCapacity_spec by done. intros [= <-].
  destruct Hwf as [Hcap Hb Hs Hz Hw Hcells Hnd].
  split; simpl; try lia.
  - rewrite length_app, block_cells_length. lia.
  - intros i c [Hc|[_ Hc]]%lookup_app_Some.
    + rewrite load_app_l; eauto.
    + apply list_elem_of_lookup_2, block_cells_elem in Hc as (j & -> & Hj).
      simpl. unfold deref. simpl.
      rewrite lookup_app_r, Nat.sub_diag by done. simpl.
      apply lookup_lt_is_Some_2. rewrite length_replicate. lia.
  - apply NoDup_app. split_and!; [done| |apply block_cells_NoDup].
    intros c Hc Hc'. apply block_cells_elem in Hc' as (j & -> & _).
    apply list_elem_of_lookup in Hc as [i Hi].
    apply Hcells, load_blk_lt in Hi. simpl in Hi. lia.
Qed.

Lemma resizeToCapacity_nonneg l n l0 :
  resizeToCapacity n l = Some l0 -> 0 <= n.
Proof.
  unfold resizeToCapacity, mem_resize.
  destruct (Z.ltb_spec n 0); [done|lia].
Qed.

Lemma resizeToCapacity_read l n l0 i :
  wf l -> m_capacity l <= n <= INT32_MAX ->
  resizeToCapacity n l = Some l0 ->
  0 <= i -> mp_list l + i < m_capacity l ->
  read_elem l0 i = read_elem l i.
Proof.
  intros Hwf Hn. rewrite resizeToCapacity_spec by done. intros [= <-] Hi Hlt.
  pose proof Hwf as [Hcap Hb Hs Hz Hw Hcells Hnd].
  rewrite !read_elem_rawZ by (fields; lia). fields.
  rewrite lookup_app_l by lia.
  destruct (mp_raw l !! Z.to_nat (mp_list l + i)) as [c|] eqn:Hc; [|done].
  simpl. apply load_app_l. eauto.
Qed.

(** The growth step shared by [append] and [insert]: a full list gets
    twice its capacity, and keeps its elements. *)
Lemma grow_when_full l l1 :
  wf l ->
  (if m_size l =? m_capacity l
   then resizeToCapacity (wrap32 (m_capacity l * 2)) l
   else Some l) = Some l1 ->
  wf l1 /\ m_size l1 = m_size l /\ mp_list l1 = mp_list l /\
  m_invalidValue l1 = m_invalidValue l /\
  (forall i, 0 <= i < m_size l -> read_elem l1 i = read_elem l i).
Proof.
  intros Hwf. pose proof Hwf as [Hcap Hb Hs Hz Hw Hcells Hnd].
  destruct (Z.eqb_spec (m_size l) (m_capacity l)) as [Hfull|Hroom].
  - intros Hres. apply resizeToCapacity_nonneg in Hres as Hnn.
    apply wrap32_double in Hnn as Hdbl; [|lia].
    rewrite wrap32_id in Hres by (unfold INT32_MAX in *; lia).
    assert (Hn : m_capacity l <= m_capacity l * 2 <= INT32_MAX) by lia.
    pose proof (resizeToCapacity_wf _ _ _ Hwf Hn Hres) as Hwf1.
    assert (Hread : forall i, 0 <= i < m_size l ->
              read_elem l1 i = read_elem l i).
    { intros i Hi. eapply resizeToCapacity_read; eauto; lia. }
    rewrite resizeToCapacity_spec in Hres by done.
    injection Hres as <-. by fields.
  - by intros [= <-].
Qed.

End Growth.

(** ** Constructors *)

Section Constructors.
Context {T : Type} `{Element T}.
Implicit Types (l : CxList T) (chain : list (CxListStore T)) (xs ys : list T).

Lemma CxList_new_eq : CxList_new = Some (null_list (T:=T)).
Proof. reflexivity. Qed.

Lemma null_list_wf : wf (null_list (T:=T)).
Proof.
  split; simpl; try done; try (unfold INT32_MAX; lia).
  apply NoDup_nil_2.
Qed.

Lemma null_list_elements : elements (null_list (T:=T)) = Some [].
Proof. reflexivity. Qed.

Lemma CxList_array_NoCopy arr n :
  0 < n -> CxList_array arr n kCxNoCopy = Some (adopted arr n).
Proof.
  intros Hn. unfold CxList_array, mem_alloc.
  destruct (Z.ltb_spec 0 n); [|lia]. destruct (Z.ltb_spec n 0); [lia|].
  simpl. assert (Hp := point_cells_from_start 0 (Z.to_nat n)).
  rewrite Z2Nat.id in Hp by lia. by rewrite Hp.
Qed.

Lemma adopted_elements arr n :
  0 <= n -> Z.of_nat (Datatypes.length arr) = n ->
  elements (adopted arr n) = Some arr.
Proof.
  intros Hn Hlen. rewrite elements_window; unfold adopted; fields;
    [|lia..|rewrite block_cells_length; lia].
  unfold window. fields. rewrite drop_0.
  rewrite take_ge by (rewrite block_cells_length; lia).
  apply mapM_Some_2, Forall2_same_length_lookup_2.
  - rewrite block_cells_length. lia.
  - intros i c x Hc Hx. apply lookup_lt_Some in Hx as Hi.
    rewrite block_cells_lookup in Hc by lia. by injection Hc as <-.
Qed.

Lemma adopted_wf arr n :
  0 <= n <= INT32_MAX -> Z.of_nat (Datatypes.length arr) = n ->
  wf (adopted arr n).
Proof.
  intros Hn Hlen. unfold adopted. split; fields; try lia.
  - rewrite block_cells_length. lia.
  - intros i c Hc.
    apply list_elem_of_lookup_2, block_cells_elem in Hc as (j & -> & Hj).
    simpl. unfold deref. simpl. apply lookup_lt_is_Some_2. lia.
  - apply block_cells_NoDup.
Qed.

(** The copying constructor fills its own block with the values of the
    array: the list it makes has the cells and slots of the adopting
    one. *)
Lemma CxList_array_Copy (arr : list T) (n : CxI32) :
  0 < n -> Z.of_nat (Datatypes.length arr) = n ->
  CxList_array arr n kCxCopy = Some (adopted arr n).
Proof.
  intros Hn Hlen. unfold CxList_array, mem_alloc, CxListStore_new, new_array.
  zdecide. cbn [mbind option_bind].
  set (body := fun (i : Z) '(c, r) =>
    x ← arr !! Z.to_nat i;
    c' ← assign (mkPtr 0 (Z.to_nat i)) x c;
    r' ← raw_write i (mkPtr 0 (Z.to_nat i)) r;
    Some (c', r')).
  destruct (for_range_inv
    (fun j (s : list (CxListStore T) * list Cell) =>
       s = ([mkStore (take (Z.to_nat j) arr
                      ++ replicate (Z.to_nat (n - j)) T_default) n],
            block_cells 0 0 (Z.to_nat j)
            ++ replicate (Z.to_nat (n - j)) None))
    0 n body
    ([mkStore (replicate (Z.to_nat n) T_default) n],
     replicate (Z.to_nat n) None)) as (s & Hs & HP).
  - lia.
  - by rewrite Z.sub_0_r.
  - intros j s Hj ->. eexists. split; [|reflexivity]. unfold body.
    destruct (lookup_lt_is_Some_2 arr (Z.to_nat j)) as [x Hx]; [lia|].
    rewrite Hx. cbn [mbind option_bind]. unfold assign.
    cbn [blk slot lookup list_lookup mbind option_bind store size].
    rewrite decide_True
      by (rewrite length_app, length_take, length_replicate; lia).
    cbn [mbind option_bind].
    rewrite raw_write_Some
      by (rewrite length_app, block_cells_length, length_replicate; lia).
    cbn [mbind option_bind insert list_insert]. do 3 f_equal.
    + replace (Z.to_nat (n - j)) with (Datatypes.S (Z.to_nat (n - (j + 1))))
        by lia.
      replace (Z.to_nat j)
        with (Datatypes.length (take (Z.to_nat j) arr) + 0)%nat at 1
        by (rewrite length_take; lia).
      rewrite insert_app_r. simpl.
      replace (Z.to_nat (j + 1)) with (Datatypes.S (Z.to_nat j)) by lia.
      rewrite (take_S_r _ _ _ Hx). by rewrite <- app_assoc.
    + replace (Z.to_nat (n - j)) with (Datatypes.S (Z.to_nat (n - (j + 1))))
        by lia.
      replace (Z.to_nat j)
        with (Datatypes.length (block_cells 0 0 (Z.to_nat j)) + 0)%nat at 1
        by (rewrite block_cells_length; lia).
      rewrite insert_app_r. simpl.
      replace (Z.to_nat (j + 1)) with (Datatypes.S (Z.to_nat j)) by lia.
      rewrite block_cells_snoc. by rewrite <- app_assoc.
  - fold body. rewrite Hs, HP. cbn [mbind option_bind].
    rewrite Z.sub_diag. simpl. rewrite !app_nil_r.
    by rewrite take_ge by lia.
Qed.


Lemma CxList_sized_zero : CxList_sized 0 = Some (null_list (T:=T)).
Proof. reflexivity. Qed.

End Constructors.

(** ** append *)

Section Append.
Context {T : Type} `{Element T}.
Implicit Types (l : CxList T) (chain : list (CxListStore T)) (xs ys : list T).

(** C1. The first [append] to a list of the default constructor: the
    list is full at capacity 0, [resizeToCapacity(0 * 2)] adds a block of
    no slots and no cell, and the element is written through
    [mp_list[0]], a cell the pointer array does not have.  No sequence of
    appends to that list gets past its first one. *)
Theorem append_to_new_list_undefined (v : T) :
  CxList_new ≫= append v = None.
Proof. reflexivity. Qed.

(** The same for [append]: twice no capacity is no capacity. *)
Lemma append_capacity_zero l (v : T) :
  wf l -> m_capacity l = 0 -> append v l = None.
Proof.
  intros Hwf Hc0. pose proof Hwf as [Hcap Hb Hs Hz Hw Hcells Hnd].
  assert (m_size l = 0) as Hz0 by lia.
  assert (mp_list l = 0) as Hs0 by lia.
  assert (mp_raw l = []) as Hraw by (apply nil_length_inv; lia).
  unfold append. rewrite Hz0, Hc0. change (0 =? 0) with true.
  change (wrap32 (0 * 2)) with 0.
  rewrite (resizeToCapacity_spec l 0 Hwf) by (unfold INT32_MAX in *; lia).
  cbn [mbind option_bind]. unfold write_elem, list_cell. fields.
  by rewrite Hraw, Hs0, Hz0, Hc0.
Qed.

(** When [append] runs to its end, the new element is last and the others
    are where they were. *)
Lemma append_inv l (v : T) l' :
  wf l -> append v l = Some l' ->
  wf l' /\ m_size l' = m_size l + 1 /\
  m_invalidValue l' = m_invalidValue l /\
  forall i, 0 <= i < m_size l + 1 ->
    read_elem l' i = if decide (i < m_size l) then read_elem l i else Some v.
Proof.
  intros Hwf. unfold append.
  destruct (if m_size l =? m_capacity l then _ else _) as [l1|] eqn:Hgrow;
    [|done].
  cbn [mbind option_bind].
  destruct (grow_when_full l l1 Hwf Hgrow) as (Hwf1 & Hsz1 & Hst1 & Hinv1 & Hrd1).
  pose proof Hwf1 as [Hcap Hb Hs Hz Hw Hcells Hnd].
  unfold write_elem.
  destruct (list_cell l1 (m_size l1)) as [p|] eqn:Hp; [|done].
  apply list_cell_Some in Hp as [_ Hp]. apply lookup_lt_Some in Hp as Hlt.
  cbn [mbind option_bind].
  destruct (assign p v (mp_store l1)) as [c|] eqn:Hc; [|done].
  cbn [mbind option_bind].
  rewrite wrap32_id by (unfold INT32_MAX in *; lia).
  intros [= <-]. fields. split_and!; [|lia|done|].
  - apply (wf_reindex l1 _ (fun k => k)); fields; try done; try lia.
    intros c'. by eapply load_assign_is_Some.
  - intros i Hi.
    rewrite (read_elem_rawZ (set_size _ _)) by (fields; lia). fields.
    case_decide.
    + rewrite <- Hrd1 by lia. rewrite read_elem_rawZ by lia.
      destruct (mp_raw l1 !! Z.to_nat (mp_list l1 + i)) as [c'|] eqn:Hc';
        [|done].
      change (load c c' = load (mp_store l1) c').
      rewrite (load_assign _ _ _ _ _ Hc).
      destruct (decide (c' = Some p)) as [->|]; [|done].
      assert (mp_list l1 + i = mp_list l1 + m_size l1); [|lia].
      eapply (wf_cell_inj l1); eauto; lia.
    + replace i with (m_size l1) by lia. rewrite Hp. simpl.
      rewrite (deref_assign _ _ _ _ _ Hc). by rewrite decide_True.
Qed.

Lemma append_elements l (v : T) l' xs :
  wf l -> elements l = Some xs -> append v l = Some l' ->
  elements l' = Some (xs ++ [v]).
Proof.
  intros Hwf Hxs Happ.
  destruct (append_inv l v l' Hwf Happ) as (Hwf' & Hsz & _ & Hrd).
  destruct (elements_lookup _ _ Hxs) as [Hlen Hread].
  pose proof (wf_size l Hwf) as Hz.
  apply elements_of_reads.
  - rewrite length_app. simpl. lia.
  - intros i x Hx. apply lookup_lt_Some in Hx as Hi.
    rewrite length_app in Hi. simpl in Hi. rewrite Hrd by lia.
    case_decide.
    + rewrite lookup_app_l in Hx by lia. by apply Hread.
    + rewrite lookup_app_r in Hx by lia.
      replace (i - Datatypes.length xs)%nat with O in Hx by lia.
      by injection Hx as ->.
Qed.

(** [append] runs to its end when a cell follows the window, or when the
    list is full with at least one cell and the doubled capacity fits. *)
Lemma append_is_Some l (v : T) :
  wf l ->
  mp_list l + m_size l < m_capacity l \/
  (m_size l = m_capacity l /\ 1 <= m_capacity l
   /\ m_capacity l * 2 <= INT32_MAX) ->
  is_Some (append v l).
Proof.
  intros Hwf Hroom. pose proof Hwf as [Hcap Hb Hs Hz Hw Hcells Hnd].
  assert (exists l1, (if m_size l =? m_capacity l
            then resizeToCapacity (wrap32 (m_capacity l * 2)) l
            else Some l) = Some l1
          /\ wf l1 /\ m_size l1 = m_size l
          /\ mp_list l1 + m_size l1 < m_capacity l1) as (l1 & Hl1 & Hwf1 & Hsz1 & Hlt).
  { destruct (Z.eqb_spec (m_size l) (m_capacity l)) as [Hfull|Hne].
    - destruct Hroom as [?|(_ & Hpos & Hdbl)]; [lia|].
      rewrite wrap32_id by (unfold INT32_MAX in *; lia).
      assert (Hn : m_capacity l <= m_capacity l * 2 <= INT32_MAX) by lia.
      destruct (resizeToCapacity (m_capacity l * 2) l) as [l1|] eqn:Hres;
        [|by rewrite resizeToCapacity_spec in Hres].
      pose proof (resizeToCapacity_wf _ _ _ Hwf Hn Hres) as Hwf1.
      exists l1. rewrite resizeToCapacity_spec in Hres by done.
      injection Hres as <-. fields. split_and!; [done..|lia].
    - destruct Hroom as [?|[? _]]; [|lia]. by exists l. }
  unfold append. rewrite Hl1. cbn [mbind option_bind].
  destruct (write_elem_spec l1 (m_size l1) v Hwf1) as (p & c & _ & _ & ->);
    [destruct Hwf1; lia|].
  by eexists.
Qed.

(** Appends to a list that starts at cell 0 of a pointer array of at
    least one cell all run to their end, and the appended values follow
    the elements in order. *)
Lemma appends_spec (vs : list T) l xs :
  wf l -> mp_list l = 0 -> 1 <= m_capacity l ->
  2 * (m_size l + Z.of_nat (Datatypes.length vs)) <= INT32_MAX ->
  elements l = Some xs ->
  exists l', appends vs l = Some l' /\ wf l' /\
             length l' = length l + Z.of_nat (Datatypes.length vs) /\
             elements l' = Some (xs ++ vs).
Proof.
  unfold length. revert l xs.
  induction vs as [|v vs IH]; intros l xs Hwf Hst Hcap Hbound Hxs.
  - exists l. rewrite app_nil_r. simpl. split_and!; [done..|lia|done].
  - pose proof Hwf as [Hc Hb Hs Hz Hw Hcells Hnd].
    simpl Datatypes.length in Hbound.
    destruct (append_is_Some l v Hwf) as [l1 Hl1].
    { destruct (decide (m_size l = m_capacity l)); [right|left]; lia. }
    destruct (append_inv l v l1 Hwf Hl1) as (Hwf1 & Hsz1 & _ & _).
    pose proof (append_elements l v l1 xs Hwf Hxs Hl1) as Hxs1.
    assert (mp_list l1 = 0 /\ 1 <= m_capacity l1) as [Hst1 Hcap1].
    { revert Hl1. unfold append.
      destruct (if m_size l =? m_capacity l then _ else _) as [l0|] eqn:Hg;
        [|done].
      destruct (grow_when_full l l0 Hwf Hg) as (Hwf0 & Hsz0 & Hst0 & _ & _).
      cbn [mbind option_bind]. unfold write_elem.
      destruct (list_cell l0 (m_size l0)) as [p|]; [|done].
      cbn [mbind option_bind].
      destruct (assign p v (mp_store l0)) as [c|]; [|done].
      cbn [mbind option_bind]. intros [= <-]. fields.
      destruct Hwf0. split; [lia|].
      destruct Hwf1. fields. lia. }
    destruct (IH l1 (xs ++ [v]) Hwf1 Hst1 Hcap1) as (l' & Hl' & Hwf' & Hsz' & Hxs');
      [lia|done|].
    exists l'. simpl. rewrite Hl1. cbn [mbind option_bind].
    split_and!; [done..|lia|]. by rewrite <- app_assoc in Hxs'.
Qed.

End Append.

(** After [reserve(1)] the appends of C1 go through. *)
Lemma appends_after_reserve :
  (l ← CxList_new; l ← reserve 1 l; l ← appends [7; 8; 9] l;
   e ← elements l; Some (e, length l, capacity l))
  = Some ([7; 8; 9], 3, 4).
Proof. reflexivity. Qed.

(** ** removeAt *)

Section RemoveAt.
Context {T : Type} `{Element T}.
Implicit Types (l : CxList T) (chain : list (CxListStore T)) (xs ys : list T).

Lemma priv_removeAt_inv l (idx : CxI32) l' :
  wf l -> 0 <= idx < m_size l -> priv_removeAt idx l = Some l' ->
  wf l' /\ m_size l' = m_size l - 1 /\ m_capacity l' = m_capacity l /\
  m_invalidValue l' = m_invalidValue l /\
  forall i, 0 <= i < m_size l - 1 ->
    read_elem l' i
    = if decide (i < idx) then read_elem l i else read_elem l (i + 1).
Proof.
  intros Hwf Hidx. pose proof Hwf as [Hcap Hb Hs Hz Hw Hcells Hnd].
  unfold INT32_MAX in *. unfold priv_removeAt.
  destruct (list_cell l idx) as [ptr|] eqn:Hptr; [|done].
  apply list_cell_Some in Hptr as [_ Hptr].
  cbn [mbind option_bind]. rewrite shiftr1_le by lia.
  rewrite (wrap32_id (m_size l - 1)) by (unfold INT32_MAX; lia).
  destruct (Z.eqb_spec idx 0) as [->|Hne].
  - cbn [negb mbind option_bind]. fields.
    rewrite (wrap32_id (m_size l - 1)) by (unfold INT32_MAX; lia).
    intros [= <-]. fields. split_and!; try done.
    + apply (wf_reindex l _ (fun k => k)); fields; try done; try lia;
        intros k Hk; (split; [lia|done]).
    + intros i Hi. rewrite decide_False by lia.
      rewrite !read_elem_rawZ by (fields; lia). fields.
      do 2 f_equal. lia.
  - cbn [negb].
    destruct (Z.eqb_spec idx (m_size l - 1)) as [Hlast|Hmid];
      cbn [negb mbind option_bind].
    + fields. rewrite (wrap32_id (m_size l - 1)) by (unfold INT32_MAX; lia).
      intros [= <-]. fields. split_and!; try done.
      * apply (wf_reindex l _ (fun k => k)); fields; try done; try lia;
          intros k Hk; (split; [lia|done]).
      * intros i Hi. by rewrite decide_True by lia.
    + rewrite (wrap32_id (m_size l - idx)) by (unfold INT32_MAX; lia).
      destruct (mem_copy _ _ _ _) as [raw1|] eqn:Hcopy; [|done].
      cbn [mbind option_bind].
      destruct (raw_write _ _ _) as [raw2|] eqn:Hwrite; [|done].
      cbn [mbind option_bind]. fields.
      rewrite (wrap32_id (m_size l - 1)) by (unfold INT32_MAX; lia).
      intros [= <-]. fields.
      apply mem_copy_inv in Hcopy as (Hbnd & Hlen1 & Hraw1).
      apply raw_write_inv in Hwrite as (_ & Hlen2 & Hraw2).
      assert (Hraw : forall k, 0 <= k ->
        raw2 !! Z.to_nat k
        = mp_raw l !! Z.to_nat
            (if decide (k = mp_list l + (m_size l - 1)) then mp_list l + idx
             else if decide (mp_list l + idx <= k < mp_list l + m_size l)
                  then k + 1 else k)).
      { intros k Hk. rewrite Hraw2, Hraw1 by lia.
        repeat case_decide; try lia; try done. f_equal. lia. }
      split_and!; try done.
      * apply (wf_reindex l _ (fun k =>
          if decide (k = mp_list l + (m_size l - 1)) then mp_list l + idx
          else if decide (mp_list l + idx <= k < mp_list l + m_size l)
               then k + 1 else k)); fields; try done; try lia.
        -- intros k Hk. split; [|by apply Hraw; lia].
           repeat case_decide; lia.
        -- intros i j Hi Hj. repeat case_decide; lia.
      * intros i Hi. rewrite !read_elem_rawZ by (fields; lia). fields.
        rewrite Hraw by lia.
        repeat case_decide; try lia; do 2 f_equal; lia.
Qed.

(** [priv_removeAt] at an index that is neither first nor last copies
    [m_size - in_idx] cells starting one past the index: when the window
    ends with the pointer array, the last cell read lies after it. *)
Lemma priv_removeAt_past_end l (idx : CxI32) :
  wf l -> 0 < idx < m_size l - 1 ->
  mp_list l + m_size l = m_capacity l ->
  priv_removeAt idx l = None.
Proof.
  intros Hwf Hidx Hend. pose proof Hwf as [Hcap Hb Hs Hz Hw Hcells Hnd].
  unfold priv_removeAt.
  destruct (list_cell l idx) as [ptr|]; [|done].
  cbn [mbind option_bind]. rewrite shiftr1_le by lia.
  rewrite !wrap32_id by (unfold INT32_MAX in *; lia).
  zdecide. cbn [negb]. unfold mem_copy. zdecide.
  by rewrite !andb_false_r.
Qed.

Lemma priv_removeAt_is_Some l (idx : CxI32) :
  wf l -> 0 <= idx < m_size l ->
  idx = 0 \/ idx = m_size l - 1 \/ mp_list l + m_size l < m_capacity l ->
  is_Some (priv_removeAt idx l).
Proof.
  intros Hwf Hidx Hok. pose proof Hwf as [Hcap Hb Hs Hz Hw Hcells Hnd].
  unfold priv_removeAt.
  destruct (wf_read_elem l idx Hwf) as (ptr & -> & _ & _); [lia|].
  cbn [mbind option_bind]. rewrite shiftr1_le by lia.
  rewrite !wrap32_id by (unfold INT32_MAX in *; lia).
  destruct (Z.eqb_spec idx 0) as [->|Hne]; [by eexists|].
  cbn [negb].
  destruct (Z.eqb_spec idx (m_size l - 1)) as [->|Hmid]; [by eexists|].
  cbn [negb].
  destruct (mem_copy_is_Some (mp_list l + idx) (mp_list l + idx + 1)
              (m_size l - idx) (mp_raw l)) as [raw1 Hraw1]; try lia.
  rewrite Hraw1. cbn [mbind option_bind].
  apply mem_copy_inv in Hraw1 as (_ & Hlen & _).
  rewrite raw_write_Some by lia. by eexists.
Qed.

(** When [removeAt] runs to its end on a valid index, the element at the
    index is gone and the later ones have moved down by one. *)
Lemma removeAt_valid_inv l (idx : CxI32) l' r :
  wf l -> 0 <= idx < length l -> removeAt idx l = Some (l', r) ->
  r = NoReturn /\ wf l' /\ length l' = length l - 1 /\
  forall i, 0 <= i < length l - 1 ->
    value i l' = if decide (i < idx) then value i l else value (i + 1) l.
Proof.
  unfold length. intros Hwf Hidx. unfold removeAt.
  zdecide. cbn [andb].
  destruct (priv_removeAt idx l) as [l1|] eqn:Hrm; [|done].
  cbn [mbind option_bind]. intros [= <- <-].
  destruct (priv_removeAt_inv l idx l1 Hwf Hidx Hrm)
    as (Hwf1 & Hsz & _ & _ & Hread).
  split_and!; try done.
  intros i Hi. rewrite value_in_range by lia. rewrite Hread by done.
  case_decide; by rewrite value_in_range by lia.
Qed.

(** No call of [removeAt] returns true. *)
Lemma removeAt_never_true l (idx : CxI32) l' :
  removeAt idx l <> Some (l', Value true).
Proof.
  unfold removeAt. destruct (_ && _); [|done].
  by destruct (priv_removeAt idx l).
Qed.

(** Outside the list [removeAt] returns false and the list is as it
    was. *)
Lemma removeAt_invalid l (idx : CxI32) :
  ~ (0 <= idx < length l) -> removeAt idx l = Some (l, Value false).
Proof.
  unfold length, removeAt. intros Hidx.
  destruct (Z.leb_spec 0 idx); [|done].
  destruct (Z.ltb_spec idx (m_size l)); [lia|done].
Qed.

End RemoveAt.

(** C5. [removeAt(0)] on the list [1, 2, 3]: the element is removed and
    the list is [2, 3], but the branch of a valid index has no [return]
    statement, so the call hands back no value where true was due. *)
Theorem removeAt_valid_returns_nothing :
  (l ← CxList_array [1; 2; 3] 3 kCxCopy;
   '(l', r) ← removeAt 0 l;
   e ← elements l'; Some (e, r))
  = Some ([2; 3], NoReturn).
Proof. reflexivity. Qed.

(** On the same list [removeAt(1)] shifts [m_size - in_idx] = 2 cells
    down from cell 2 of a pointer array of 3 cells: it reads the cell
    after the array. *)
Lemma removeAt_middle_of_full_list_undefined :
  CxList_array [1; 2; 3] 3 kCxCopy ≫= removeAt 1 = None.
Proof. reflexivity. Qed.

(** ** insert, and insert followed by removeAt *)

Section Insert.
Context {T : Type} `{Element T}.
Implicit Types (l : CxList T) (chain : list (CxListStore T)) (xs ys : list T).

(** C2. [insert(0, v)] into a list of the default constructor, the only
    index in [0, length()]: capacity stays 0 as for [append], the test
    [start_offset + m_size >= m_capacity] sends the insertion down, and
    the pointer for the new element is read from [mp_list - 1], the cell
    before the pointer array.  The [removeAt(0)] that follows is not
    reached. *)
Theorem insert_removeAt_new_list_undefined (v : T) :
  (l ← CxList_new; l1 ← insert 0 v l; removeAt 0 l1) = None.
Proof. reflexivity. Qed.

(** With no cell in the pointer array there is nowhere to insert. *)
Lemma insert_capacity_zero l (idx : CxI32) (v : T) :
  wf l -> m_capacity l = 0 -> insert idx v l = None.
Proof.
  intros Hwf Hc0. pose proof Hwf as [Hcap Hb Hs Hz Hw Hcells Hnd].
  assert (m_size l = 0) as Hz0 by lia.
  assert (mp_list l = 0) as Hs0 by lia.
  unfold insert. rewrite Hz0, Hc0. cbn [Z.eqb].
  change (wrap32 (0 * 2)) with 0.
  rewrite (resizeToCapacity_spec l 0 Hwf) by (unfold INT32_MAX in *; lia).
  cbn [mbind option_bind]. cbv zeta. fields.
  rewrite Hs0, Hz0. change (wrap32 0) with 0. cbn [Z.add].
  change (wrap32 0) with 0. change (0 <=? 0) with true.
  rewrite orb_true_r.
  unfold list_cell. fields. done.
Qed.

(** An empty list whose window starts at cell 0 takes no [insert]: with
    capacity 0 the pointer is read before the array, otherwise [mp_list]
    is moved one cell before the array and the pointer written there. *)
Lemma insert_empty_at_start l (v : T) :
  wf l -> mp_list l = 0 -> m_size l = 0 -> insert 0 v l = None.
Proof.
  intros Hwf Hst Hsz.
  destruct (decide (m_capacity l = 0)) as [Hc0|Hpos];
    [by apply insert_capacity_zero|].
  pose proof Hwf as [Hcap Hb Hs Hz Hw Hcells Hnd].
  unfold insert. zdecide. cbn [mbind option_bind]. cbv zeta.
  rewrite Hst, Hsz. change (wrap32 0) with 0.
  change (wrap32 (0 + 0)) with 0. change (wrap32 (0 - 0)) with 0.
  change (Z.shiftr 0 1) with 0. change (0 <=? 0) with true.
  change (0 =? 0) with true. zdecide. cbn [negb andb orb].
  destruct (list_cell l 0) as [ptr|]; [|done].
  cbn [mbind option_bind]. done.
Qed.

(** The end of [insert]: the cells have been reordered by [pi], the
    cell at the insertion index holds the pointer taken from the slack
    cell [s], and the new element has been written through it. *)
Lemma insert_finish l (idx : CxI32) (v : T) (raw2 : list Cell) (start' s : Z)
    (ptr : Ptr) chain (pi : Z -> Z) :
  wf l -> 0 <= idx <= m_size l ->
  0 <= s < m_capacity l ->
  ~ (mp_list l <= s < mp_list l + m_size l) ->
  mp_raw l !! Z.to_nat s = Some (Some ptr) ->
  assign ptr v (mp_store l) = Some chain ->
  Datatypes.length raw2 = Datatypes.length (mp_raw l) ->
  0 <= start' -> start' + (m_size l + 1) <= m_capacity l ->
  (forall k, 0 <= k < m_capacity l ->
     0 <= pi k < m_capacity l /\
     raw2 !! Z.to_nat k = mp_raw l !! Z.to_nat (pi k)) ->
  (forall i j, 0 <= i < m_capacity l -> 0 <= j < m_capacity l ->
     pi i = pi j -> i = j) ->
  (forall i, 0 <= i < m_size l + 1 ->
     pi (start' + i)
     = if decide (i < idx) then mp_list l + i
       else if decide (i = idx) then s else mp_list l + (i - 1)) ->
  let l' := mkList raw2 start' chain (m_invalidValue l) (m_capacity l)
                   (m_size l + 1) in
  wf l' /\
  forall i, 0 <= i < m_size l + 1 ->
    read_elem l' i
    = if decide (i < idx) then read_elem l i
      else if decide (i = idx) then Some v else read_elem l (i - 1).
Proof.
  intros Hwf Hidx Hs Hout Hptr Hchain Hlen Hst Hend Hpi Hinj Hwin l'.
  pose proof Hwf as [Hcap Hb Hs0 Hz Hw Hcells Hnd].
  assert (Hkeep : forall k, 0 <= k -> k <> s ->
            mp_raw l !! Z.to_nat k ≫= load chain
            = mp_raw l !! Z.to_nat k ≫= load (mp_store l)).
  { intros k Hk Hks.
    destruct (mp_raw l !! Z.to_nat k) as [c|] eqn:Hc; [|done].
    change (load chain c = load (mp_store l) c).
    rewrite (load_assign _ _ _ _ _ Hchain).
    destruct (decide (c = Some ptr)) as [->|]; [|done].
    by pose proof (wf_cell_inj l k s _ Hwf Hk (proj1 Hs) Hc Hptr). }
  split.
  - apply (wf_reindex l l' pi); subst l'; fields; try done; try lia.
    intros c. by eapply load_assign_is_Some.
  - intros i Hi. subst l'.
    rewrite (read_elem_rawZ (mkList _ _ _ _ _ _)) by (fields; lia). fields.
    destruct (Hpi (start' + i)) as [_ ->]; [lia|]. rewrite (Hwin i Hi).
    repeat case_decide.
    + rewrite read_elem_rawZ by lia. apply Hkeep; lia.
    + rewrite Hptr. simpl. rewrite (deref_assign _ _ _ _ _ Hchain).
      by rewrite decide_True.
    + rewrite read_elem_rawZ by lia. apply Hkeep; lia.
Qed.

Lemma insert_inv_room l (idx : CxI32) (v : T) l' :
  wf l -> 0 <= idx <= m_size l -> m_size l <> m_capacity l ->
  insert idx v l = Some l' ->
  wf l' /\ m_size l' = m_size l + 1 /\ m_capacity l' = m_capacity l /\
  m_invalidValue l' = m_invalidValue l /\
  forall i, 0 <= i < m_size l + 1 ->
    read_elem l' i
    = if decide (i < idx) then read_elem l i
      else if decide (i = idx) then Some v else read_elem l (i - 1).
Proof.
  intros Hwf Hidx Hroom. pose proof Hwf as [Hcap Hb Hs Hz Hw Hcells Hnd].
  unfold INT32_MAX in *. unfold insert.
  zdecide. cbn [mbind option_bind]. cbv zeta.
  rewrite (wrap32_id (mp_list l)) by (unfold INT32_MAX; lia).
  rewrite (wrap32_id (mp_list l + m_size l)) by (unfold INT32_MAX; lia).
  rewrite (wrap32_id (m_size l - idx)) by (unfold INT32_MAX; lia).
  rewrite (wrap32_id (m_size l + 1)) by (unfold INT32_MAX; lia).
  destruct ((idx <=? Z.shiftr (m_size l) 1) && negb (mp_list l =? 0)
            || (m_capacity l <=? mp_list l + m_size l)) eqn:Hdown.
  - (* the cells before the index move down by one *)
    assert (1 <= mp_list l) as Hst.
    { apply orb_true_iff in Hdown as [Hd|Hd].
      - apply andb_true_iff in Hd as [_ Hd].
        apply negb_true_iff, Z.eqb_neq in Hd. lia.
      - apply Z.leb_le in Hd. lia. }
    destruct (list_cell l (-1)) as [ptr|] eqn:Hptr; [|done].
    apply list_cell_Some in Hptr as [_ Hptr].
    cbn [mbind option_bind].
    set (pi := fun k : Z =>
      if decide (k = mp_list l - 1 + idx) then mp_list l - 1
      else if decide (mp_list l - 1 <= k < mp_list l - 1 + idx) then k + 1
           else k).
    change (0 =? 0) with true. cbn [negb].
    destruct (Z.eqb_spec idx 0) as [Hzero|Hpos]; cbn [negb orb andb].
    + (* in_idx = 0: nothing moves *)
      cbn [mbind option_bind].
      destruct (raw_write (mp_list l - 1 + idx) ptr (mp_raw l)) as [raw2|]
        eqn:Hraw2; [|done].
      cbn [mbind option_bind].
      destruct (assign ptr v (mp_store l)) as [chain|] eqn:Hchain; [|done].
      cbn [mbind option_bind]. intros [= <-]. fields.
      apply raw_write_inv in Hraw2 as (_ & Hlen & Hraw2).
      destruct (insert_finish l idx v raw2 (mp_list l - 1) (mp_list l - 1)
                  ptr chain pi) as [Hwf' Hread];
        try done; try lia.
      * intros k Hk. split; [unfold pi; repeat case_decide; lia|].
        rewrite Hraw2 by lia. unfold pi.
        repeat case_decide; try lia; try done;
          try (rewrite <- Hptr; f_equal; lia).
      * intros i j Hi Hj. unfold pi. repeat case_decide; lia.
      * intros i Hi. unfold pi. repeat case_decide; lia.
    + destruct (mem_copy _ _ _ _) as [raw1|] eqn:Hcopy; [|done].
      cbn [mbind option_bind].
      destruct (raw_write (mp_list l - 1 + idx) ptr raw1) as [raw2|]
        eqn:Hraw2; [|done].
      cbn [mbind option_bind].
      destruct (assign ptr v (mp_store l)) as [chain|] eqn:Hchain; [|done].
      cbn [mbind option_bind]. intros [= <-]. fields.
      apply mem_copy_inv in Hcopy as (_ & Hlen1 & Hraw1).
      apply raw_write_inv in Hraw2 as (_ & Hlen & Hraw2).
      destruct (insert_finish l idx v raw2 (mp_list l - 1) (mp_list l - 1)
                  ptr chain pi) as [Hwf' Hread];
        try done; try lia.
      * intros k Hk. split; [unfold pi; repeat case_decide; lia|].
        rewrite Hraw2, Hraw1 by lia. unfold pi.
        repeat case_decide; try lia; try done;
          try (rewrite <- Hptr; f_equal; lia); try (f_equal; lia).
      * intros i j Hi Hj. unfold pi. repeat case_decide; lia.
      * intros i Hi. unfold pi. repeat case_decide; lia.
  - (* the cells from the index on move up by one *)
    assert (mp_list l + m_size l < m_capacity l) as Hend.
    { apply orb_false_iff in Hdown as [_ Hd]. apply Z.leb_gt in Hd. lia. }
    destruct (list_cell l (m_size l)) as [ptr|] eqn:Hptr; [|done].
    apply list_cell_Some in Hptr as [_ Hptr].
    cbn [mbind option_bind].
    change (negb (0 =? 0)) with false. cbn [orb].
    set (pi := fun k : Z =>
      if decide (k = mp_list l + idx) then mp_list l + m_size l
      else if decide (mp_list l + idx < k <= mp_list l + m_size l) then k - 1
           else k).
    destruct (Z.eqb_spec (m_size l - idx) 0) as [Hlast|Hmid]; cbn [negb].
    + (* in_idx = m_size: nothing moves *)
      cbn [mbind option_bind]. rewrite andb_true_r.
      destruct (Z.eqb_spec idx 0) as [Hzero|Hpos].
      { (* the empty list *)
        assert (mp_list l = 0) as Hst0.
        { apply orb_false_iff in Hdown as [Hd _].
          apply andb_false_iff in Hd as [Hd|Hd].
          - apply Z.leb_gt in Hd. subst idx.
            replace (m_size l) with 0 in Hd by lia. done.
          - apply negb_false_iff, Z.eqb_eq in Hd. done. }
        unfold raw_write. rewrite Hst0, Hzero. done. }
      destruct (raw_write (mp_list l + idx) ptr (mp_raw l)) as [raw2|]
        eqn:Hraw2; [|done].
      cbn [mbind option_bind].
      destruct (assign ptr v (mp_store l)) as [chain|] eqn:Hchain; [|done].
      cbn [mbind option_bind]. intros [= <-]. fields.
      apply raw_write_inv in Hraw2 as (_ & Hlen & Hraw2).
      destruct (insert_finish l idx v raw2 (mp_list l)
                  (mp_list l + m_size l) ptr chain pi) as [Hwf' Hread];
        try done; try lia.
      * intros k Hk. split; [unfold pi; repeat case_decide; lia|].
        rewrite Hraw2 by lia. unfold pi.
        repeat case_decide; try lia; try done;
          try (rewrite <- Hptr; f_equal; lia).
      * intros i j Hi Hj. unfold pi. repeat case_decide; lia.
      * intros i Hi. unfold pi. repeat case_decide; lia.
    + destruct (mem_copy _ _ _ _) as [raw1|] eqn:Hcopy; [|done].
      cbn [mbind option_bind]. rewrite andb_false_r.
      destruct (raw_write (mp_list l + idx) ptr raw1) as [raw2|]
        eqn:Hraw2; [|done].
      cbn [mbind option_bind].
      destruct (assign ptr v (mp_store l)) as [chain|] eqn:Hchain; [|done].
      cbn [mbind option_bind]. intros [= <-]. fields.
      apply mem_copy_inv in Hcopy as (_ & Hlen1 & Hraw1).
      apply raw_write_inv in Hraw2 as (_ & Hlen & Hraw2).
      destruct (insert_finish l idx v raw2 (mp_list l)
                  (mp_list l + m_size l) ptr chain pi) as [Hwf' Hread];
        try done; try lia.
      * intros k Hk. split; [unfold pi; repeat case_decide; lia|].
        rewrite Hraw2, Hraw1 by lia. unfold pi.
        repeat case_decide; try lia; try done;
          try (rewrite <- Hptr; f_equal; lia); try (f_equal; lia).
      * intros i j Hi Hj. unfold pi. repeat case_decide; lia.
      * intros i Hi. unfold pi. repeat case_decide; lia.
Qed.

(** When [insert] runs to its end, the new element is at the index, the
    elements before it are where they were and those from it on have
    moved up by one. *)
Lemma insert_inv l (idx : CxI32) (v : T) l' :
  wf l -> 0 <= idx <= m_size l -> insert idx v l = Some l' ->
  wf l' /\ m_size l' = m_size l + 1 /\
  m_invalidValue l' = m_invalidValue l /\
  forall i, 0 <= i < m_size l + 1 ->
    read_elem l' i
    = if decide (i < idx) then read_elem l i
      else if decide (i = idx) then Some v else read_elem l (i - 1).
Proof.
  intros Hwf Hidx Hins.
  destruct (decide (m_size l = m_capacity l)) as [Hfull|Hroom].
  2:{ destruct (insert_inv_room l idx v l' Hwf Hidx Hroom Hins)
        as (? & ? & ? & ? & ?). done. }
  destruct (decide (m_capacity l = 0)) as [Hc0|Hpos].
  { by rewrite insert_capacity_zero in Hins. }
  pose proof Hwf as [Hcap Hb Hs Hz Hw Hcells Hnd].
  destruct (resizeToCapacity (wrap32 (m_capacity l * 2)) l) as [l0|] eqn:Hres.
  2:{ unfold insert in Hins. rewrite (proj2 (Z.eqb_eq _ _) Hfull) in Hins.
      by rewrite Hres in Hins. }
  apply resizeToCapacity_nonneg in Hres as Hnn.
  apply wrap32_double in Hnn as Hdbl; [|lia].
  rewrite wrap32_id in Hres by (unfold INT32_MAX in *; lia).
  assert (Hn : m_capacity l <= m_capacity l * 2 <= INT32_MAX) by lia.
  pose proof (resizeToCapacity_wf _ _ _ Hwf Hn Hres) as Hwf0.
  assert (Hread0 : forall i, 0 <= i < m_size l ->
            read_elem l0 i = read_elem l i).
  { intros i Hi. eapply resizeToCapacity_read; eauto; lia. }
  rewrite resizeToCapacity_spec in Hres by done.
  assert (m_size l0 = m_size l) as Hsz0 by (by injection Hres as <-).
  assert (m_capacity l0 = m_capacity l * 2) as Hcap0
    by (by injection Hres as <-).
  assert (m_invalidValue l0 = m_invalidValue l) as Hinv0
    by (by injection Hres as <-).
  assert (insert idx v l = insert idx v l0) as Hsame.
  { unfold insert. rewrite (proj2 (Z.eqb_eq _ _) Hfull).
    rewrite wrap32_id by (unfold INT32_MAX in *; lia).
    rewrite resizeToCapacity_spec by done. rewrite <- Hres.
    cbn [mbind option_bind].
    by rewrite (proj2 (Z.eqb_neq (m_size l0) (m_capacity l0))) by lia. }
  rewrite Hsame in Hins.
  destruct (insert_inv_room l0 idx v l' Hwf0) as (Hwf' & Hsz & _ & Hinv & Hrd);
    [lia|lia|done|].
  split_and!; [done|lia|congruence|].
  intros i Hi. rewrite Hrd by lia.
  repeat case_decide; try done; apply Hread0; lia.
Qed.

Lemma insert_is_Some_room l (idx : CxI32) (v : T) :
  wf l -> 0 <= idx <= m_size l -> m_size l <> m_capacity l ->
  ~ (mp_list l = 0 /\ m_size l = 0) ->
  is_Some (insert idx v l).
Proof.
  intros Hwf Hidx Hroom Hne. pose proof Hwf as [Hcap Hb Hs Hz Hw Hcells Hnd].
  unfold INT32_MAX in *. unfold insert.
  zdecide. cbn [mbind option_bind]. cbv zeta.
  rewrite (wrap32_id (mp_list l)) by (unfold INT32_MAX; lia).
  rewrite (wrap32_id (mp_list l + m_size l)) by (unfold INT32_MAX; lia).
  rewrite (wrap32_id (m_size l - idx)) by (unfold INT32_MAX; lia).
  rewrite (wrap32_id (m_size l + 1)) by (unfold INT32_MAX; lia).
  destruct ((idx <=? Z.shiftr (m_size l) 1) && negb (mp_list l =? 0)
            || (m_capacity l <=? mp_list l + m_size l)) eqn:Hdown.
  - assert (1 <= mp_list l) as Hst.
    { apply orb_true_iff in Hdown as [Hd|Hd].
      - apply andb_true_iff in Hd as [_ Hd].
        apply negb_true_iff, Z.eqb_neq in Hd. lia.
      - apply Z.leb_le in Hd. lia. }
    destruct (wf_read_elem l (-1) Hwf) as (ptr & -> & _ & Hslot); [lia|].
    destruct (assign_is_Some ptr v _ Hslot) as [chain Hchain].
    cbn [mbind option_bind]. change (0 =? 0) with true.
    destruct (Z.eqb_spec idx 0) as [Hzero|Hpos]; cbn [negb orb andb].
    + cbn [mbind option_bind]. rewrite raw_write_Some by lia.
      cbn [mbind option_bind]. rewrite Hchain. by eexists.
    + destruct (mem_copy_is_Some (mp_list l - 1) (mp_list l) idx (mp_raw l))
        as [raw1 Hraw1]; try lia.
      rewrite Hraw1. cbn [mbind option_bind].
      apply mem_copy_inv in Hraw1 as (_ & Hlen & _).
      rewrite raw_write_Some by lia.
      cbn [mbind option_bind]. rewrite Hchain. by eexists.
  - assert (mp_list l + m_size l < m_capacity l) as Hend.
    { apply orb_false_iff in Hdown as [_ Hd]. apply Z.leb_gt in Hd. lia. }
    destruct (wf_read_elem l (m_size l) Hwf) as (ptr & -> & _ & Hslot); [lia|].
    destruct (assign_is_Some ptr v _ Hslot) as [chain Hchain].
    cbn [mbind option_bind]. change (negb (0 =? 0)) with false. cbn [orb].
    destruct (Z.eqb_spec (m_size l - idx) 0) as [Hlast|Hmid]; cbn [negb].
    + cbn [mbind option_bind]. rewrite andb_true_r.
      destruct (Z.eqb_spec idx 0) as [Hzero|Hpos].
      { exfalso. apply Hne. split; [|lia].
        apply orb_false_iff in Hdown as [Hd _].
        apply andb_false_iff in Hd as [Hd|Hd].
        - apply Z.leb_gt in Hd. subst idx.
          replace (m_size l) with 0 in Hd by lia. done.
        - by apply negb_false_iff, Z.eqb_eq in Hd. }
      rewrite raw_write_Some by lia.
      cbn [mbind option_bind]. rewrite Hchain. by eexists.
    + destruct (mem_copy_is_Some (mp_list l + idx + 1) (mp_list l + idx)
                  (m_size l - idx) (mp_raw l)) as [raw1 Hraw1]; try lia.
      rewrite Hraw1. cbn [mbind option_bind]. rewrite andb_false_r.
      apply mem_copy_inv in Hraw1 as (_ & Hlen & _).
      rewrite raw_write_Some by lia.
      cbn [mbind option_bind]. rewrite Hchain. by eexists.
Qed.

(** [insert] runs to its end on every list but the empty one whose window
    starts at cell 0, as long as the doubled capacity fits. *)
Lemma insert_is_Some l (idx : CxI32) (v : T) :
  wf l -> 0 <= idx <= m_size l ->
  ~ (mp_list l = 0 /\ m_size l = 0) ->
  (m_size l = m_capacity l -> m_capacity l * 2 <= INT32_MAX) ->
  is_Some (insert idx v l).
Proof.
  intros Hwf Hidx Hne Hdbl.
  destruct (decide (m_size l = m_capacity l)) as [Hfull|Hroom];
    [|by apply insert_is_Some_room].
  pose proof Hwf as [Hcap Hb Hs Hz Hw Hcells Hnd]. specialize (Hdbl Hfull).
  assert (Hn : m_capacity l <= m_capacity l * 2 <= INT32_MAX) by lia.
  destruct (resizeToCapacity (m_capacity l * 2) l) as [l0|] eqn:Hres;
    [|by rewrite resizeToCapacity_spec in Hres].
  pose proof (resizeToCapacity_wf _ _ _ Hwf Hn Hres) as Hwf0.
  assert (m_size l0 = m_size l /\ m_capacity l0 = m_capacity l * 2
          /\ mp_list l0 = mp_list l) as (Hsz0 & Hcap0 & Hst0).
  { rewrite resizeToCapacity_spec in Hres by done. by injection Hres as <-. }
  assert (insert idx v l = insert idx v l0) as ->.
  { unfold insert. rewrite (proj2 (Z.eqb_eq _ _) Hfull).
    rewrite wrap32_id by (unfold INT32_MAX in *; lia).
    rewrite Hres. cbn [mbind option_bind].
    by rewrite (proj2 (Z.eqb_neq (m_size l0) (m_capacity l0))) by lia. }
  apply insert_is_Some_room; [done|lia|lia|lia].
Qed.

(** Whenever [insert(idx, v)] and the [removeAt(idx)] after it both run
    to their end, the list has the length and the elements it had. *)
Lemma insert_removeAt_restores l (idx : CxI32) (v : T) l1 l2 r :
  wf l -> 0 <= idx <= length l ->
  insert idx v l = Some l1 -> removeAt idx l1 = Some (l2, r) ->
  length l2 = length l /\ (forall i, value i l2 = value i l) /\
  elements l2 = elements l /\ wf l2.
Proof.
  unfold length. intros Hwf Hidx Hins Hrm.
  destruct (insert_inv l idx v l1 Hwf Hidx Hins) as (Hwf1 & Hsz1 & Hinv1 & Hrd1).
  unfold removeAt in Hrm. revert Hrm. zdecide. cbn [andb].
  destruct (priv_removeAt idx l1) as [l2'|] eqn:Hp; [|done].
  cbn [mbind option_bind]. intros [= <- <-].
  destruct (priv_removeAt_inv l1 idx l2' Hwf1) as (Hwf2 & Hsz2 & _ & Hinv2 & Hrd2);
    [lia|done|].
  assert (Hval : forall i, value i l2' = value i l).
  { intros i. destruct (decide (0 <= i < m_size l)) as [Hi|Hi].
    - rewrite !value_in_range by lia. rewrite Hrd2 by lia.
      case_decide; rewrite Hrd1 by lia; repeat case_decide; try lia; try done.
      f_equal. lia.
    - rewrite !value_out_of_range by lia. congruence. }
  split_and!; [lia|done| |done].
  apply elements_ext; [lia|done].
Qed.

End Insert.

(** [insert(1, 9)] then [removeAt(1)] on [1, 2, 3]: the list is
    [1, 9, 2, 3] in between and [1, 2, 3] again after. *)
Lemma insert_removeAt_example :
  (l ← CxList_array [1; 2; 3] 3 kCxCopy;
   l1 ← insert 1 9 l; e1 ← elements l1;
   '(l2, _) ← removeAt 1 l1; e2 ← elements l2; Some (e1, e2))
  = Some ([1; 9; 2; 3], [1; 2; 3]).
Proof. reflexivity. Qed.

(** On [3, 4], what is left of [1, 2, 3, 4] after two [removeFirst],
    [insert(1, 9)] gives [3, 9, 4] with the window up against the end of
    the pointer array, and [removeAt(1)] reads past that end. *)
Lemma insert_removeAt_at_array_end :
  (l ← CxList_array [1; 2; 3; 4] 4 kCxCopy;
   l1 ← insert 1 9 (removeFirst (removeFirst l)); e1 ← elements l1;
   Some (e1, removeAt 1 l1))
  = Some ([3; 9; 4], None).
Proof. reflexivity. Qed.

(** An empty list with reserved cells takes no [insert] either. *)
Lemma insert_after_reserve_undefined :
  (l ← CxList_new; l ← reserve 4 l; insert 0 7 l) = None.
Proof. reflexivity. Qed.

(** ** count *)

(** C3. [count(5)] on the list [5, 5] is 0: each element is compared
    with the running count [nm_occurances], which starts at 0, and not
    with the value asked for. *)
Theorem count_compares_with_counter :
  CxList_array [5; 5] 2 kCxCopy ≫= count 5 = Some 0.
Proof. reflexivity. Qed.

(** The same comparison counts three on [0, 1, 2], where 5 is absent. *)
Lemma count_of_absent_value :
  CxList_array [0; 1; 2] 3 kCxCopy ≫= count 5 = Some 3.
Proof. reflexivity. Qed.

(** ** prepend *)

Section Prepend.
Context {T : Type} `{Element T}.
Implicit Types (l : CxList T) (chain : list (CxListStore T)) (xs ys : list T).

(** The growth step of [prepend]: afterwards a slack cell lies before
    the window, and the elements are the same. *)
Lemma prepend_grow l (v : T) :
  wf l ->
  (mp_list l = 0 -> m_capacity l + Z.max 1 (m_capacity l) <= INT32_MAX) ->
  exists l1,
    prepend v l
    = write_elem 0 v (set_size (wrap32 (m_size l1 + 1))
                               (set_list (mp_list l1 - 1) l1)) /\
    wf l1 /\ 1 <= mp_list l1 /\ m_size l1 = m_size l /\
    m_capacity l1 <= m_capacity l + Z.max 1 (m_capacity l) /\
    forall i, 0 <= i < m_size l -> read_elem l1 i = read_elem l i.
Proof.
  intros Hwf Hbound. pose proof Hwf as [Hcap Hb Hs Hz Hw Hcells Hnd].
  unfold prepend.
  destruct (Z.eqb_spec (mp_list l) 0) as [Hst0|Hst].
  2:{ exists l. split_and!; [done..|lia|done|lia|done]. }
  specialize (Hbound Hst0). cbv zeta.
  set (inc := if 1 <=? m_capacity l then m_capacity l else 1).
  assert (inc = Z.max 1 (m_capacity l)) as Hinc
    by (unfold inc; destruct (Z.leb_spec 1 (m_capacity l)); lia).
  rewrite wrap32_id by (unfold INT32_MAX in *; lia).
  assert (Hn : m_capacity l <= m_capacity l + inc <= INT32_MAX) by lia.
  destruct (resizeToCapacity (m_capacity l + inc) l) as [l'|] eqn:Hres;
    [|by rewrite resizeToCapacity_spec in Hres].
  pose proof (resizeToCapacity_wf _ _ _ Hwf Hn Hres) as Hwf'.
  rewrite resizeToCapacity_spec in Hres by done. injection Hres as <-.
  cbn [mbind option_bind]. eexists. split; [reflexivity|].
  unfold prepend_relocate. fields.
  replace (Z.to_nat (m_capacity l)) with (Datatypes.length (mp_raw l)) by lia.
  rewrite drop_app_length, take_app_length.
  replace (m_capacity l + inc - m_capacity l) with inc in * by lia.
  set (new := block_cells _ _ _) in *.
  assert (Datatypes.length new = Z.to_nat inc) as Hnew
    by (unfold new; rewrite block_cells_length; lia).
  destruct Hwf' as [Hcap' Hb' Hs' Hz' Hw' Hcells' Hnd']. fields.
  split_and!; try done; try lia.
  - split; fields; try lia.
    + rewrite length_app in *. lia.
    + intros i c Hc. apply list_elem_of_lookup_2 in Hc.
      assert (c ∈ mp_raw l ++ new) as Hc'
        by (apply elem_of_app; apply elem_of_app in Hc; tauto).
      apply list_elem_of_lookup in Hc' as [j Hj]. eauto.
    + apply NoDup_app in Hnd' as (? & Hdisj & ?).
      apply NoDup_app. split_and!; [done| |done].
      intros c ? ?. by eapply Hdisj.
  - intros i Hi. rewrite !read_elem_rawZ by (fields; lia). fields.
    rewrite lookup_app_r by lia.
    replace (Z.to_nat (mp_list l + inc + i) - Datatypes.length new)%nat
      with (Z.to_nat (mp_list l + i)) by lia.
    destruct (mp_raw l !! Z.to_nat (mp_list l + i)) as [c|] eqn:Hc; [|done].
    simpl. apply load_app_l. eauto.
Qed.

(** [prepend] puts the value at index 0 and moves every element up by
    one. *)
Lemma prepend_spec l (v : T) xs :
  wf l ->
  (mp_list l = 0 -> m_capacity l + Z.max 1 (m_capacity l) <= INT32_MAX) ->
  elements l = Some xs ->
  exists l',
    prepend v l = Some l' /\ wf l' /\ length l' = length l + 1 /\
    capacity l' <= capacity l + Z.max 1 (capacity l) /\
    elements l' = Some (v :: xs).
Proof.
  unfold length, capacity. intros Hwf Hbound Hxs.
  destruct (prepend_grow l v Hwf Hbound)
    as (l1 & Hl1 & Hwf1 & Hst1 & Hsz1 & Hcap1 & Hrd1).
  rewrite Hl1.
  pose proof Hwf1 as [Hcap Hb Hs Hz Hw Hcells Hnd].
  rewrite wrap32_id by (unfold INT32_MAX in *; lia).
  set (l2 := set_size (m_size l1 + 1) (set_list (mp_list l1 - 1) l1)).
  assert (wf l2) as Hwf2 by (split; unfold l2; fields; done || lia).
  destruct (write_elem_spec l2 0 v Hwf2) as (p & c & _ & _ & Hwr);
    [unfold l2; fields; lia|].
  destruct (write_elem_inv l2 0 v _ Hwf2 (Z.le_refl 0) Hwr)
    as (Hwf' & Hsz' & _ & _ & _ & _ & Hv & Hrd).
  exists (set_store c l2). rewrite Hwr.
  split_and!; [done|done|unfold l2 in *; fields; lia
              |unfold l2 in *; fields; lia|].
  destruct (elements_lookup _ _ Hxs) as [Hlen Hread].
  apply elements_of_reads.
  - unfold l2. fields. simpl. lia.
  - intros [|i] x Hx; simpl in Hx.
    + by injection Hx as <-.
    + rewrite Hrd by lia.
      rewrite read_elem_rawZ by (unfold l2; fields; lia).
      unfold l2. fields.
      apply lookup_lt_Some in Hx as Hi.
      rewrite <- (Hread _ _ Hx), <- Hrd1 by lia.
      rewrite read_elem_rawZ by lia. do 2 f_equal. lia.
Qed.

(** On every empty list, [prepend(a)] then [prepend(b)] gives [b, a]. *)
Lemma prepend_twice_on_empty_list l (a b : T) :
  wf l -> length l = 0 -> 4 * capacity l + 2 <= INT32_MAX ->
  exists l1 l2,
    prepend a l = Some l1 /\ prepend b l1 = Some l2 /\
    length l2 = 2 /\ elements l2 = Some [b; a].
Proof.
  unfold length, capacity. intros Hwf Hz Hbound.
  pose proof (wf_bound l Hwf) as Hb.
  assert (0 <= m_capacity l) as Hc0 by (destruct Hwf; lia).
  destruct (prepend_spec l a [] Hwf) as (l1 & Hl1 & Hwf1 & Hsz1 & Hcap1 & Hxs1);
    [lia|by apply empty_elements|].
  unfold length, capacity in *.
  destruct (prepend_spec l1 b [a] Hwf1) as (l2 & Hl2 & Hwf2 & Hsz2 & _ & Hxs2);
    [pose proof (wf_capacity l1 Hwf1); lia|done|].
  unfold length in *. exists l1, l2. split_and!; [done..|lia|done].
Qed.

End Prepend.

(** C4. On a list of the default constructor, [prepend(a)] then
    [prepend(b)] gives the list [b, a] of length 2: the value prepended
    last is at index 0. *)
Theorem prepend_twice_on_new_list {T : Type} `{Element T} (a b : T) :
  exists l2,
    (l ← CxList_new; l1 ← prepend a l; prepend b l1) = Some l2 /\
    length l2 = 2 /\ elements l2 = Some [b; a] /\
    value 0 l2 = Some b /\ value 1 l2 = Some a.
Proof. eexists. split; [reflexivity|]. by split_and!. Qed.

(** ** set *)

Section SetIndex.
Context {T : Type} `{Element T}.
Implicit Types (l : CxList T) (chain : list (CxListStore T)) (xs ys : list T).

(** C6. [set(0, v)] on a list of the default constructor: the index is
    not below the capacity 0, [resizeToCapacity(0 * 2)] adds no cell,
    [m_size] becomes 1 and the value is written through cell 0 of an
    empty pointer array. *)
Theorem set_on_new_list_undefined (v : T) :
  CxList_new ≫= set 0 v = None.
Proof. reflexivity. Qed.

(** With no cell in the pointer array, [set(0, v)] has no cell to write
    through: twice the index is no growth. *)
Lemma set_capacity_zero l (v : T) :
  wf l -> m_capacity l = 0 -> set 0 v l = None.
Proof.
  intros Hwf Hc0. pose proof Hwf as [Hcap Hb Hs Hz Hw Hcells Hnd].
  assert (m_size l = 0) as Hz0 by lia.
  assert (mp_list l = 0) as Hs0 by lia.
  assert (mp_raw l = []) as Hraw by (apply nil_length_inv; lia).
  unfold set. rewrite Hz0, Hc0. change (0 <=? 0) with true.
  change (wrap32 (0 * 2)) with 0. cbn [mbind option_bind].
  rewrite (resizeToCapacity_spec l 0 Hwf) by (unfold INT32_MAX in *; lia).
  cbn [mbind option_bind]. unfold write_elem, list_cell. fields.
  by rewrite Hraw, Hs0, Hc0.
Qed.

(** When [set] runs to its end: inside the list only the element at the
    index changes; from the length on, the list is extended to the index
    and the elements it had are where they were. *)
Lemma set_inv l (idx : CxI32) (v : T) l' :
  wf l -> 0 <= idx <= INT32_MAX -> set idx v l = Some l' ->
  wf l' /\ length l' = Z.max (length l) (idx + 1) /\
  value idx l' = Some v /\
  forall i, 0 <= i < length l -> i <> idx -> value i l' = value i l.
Proof.
  unfold length. intros Hwf Hidx. pose proof Hwf as [Hcap Hb Hs Hz Hw Hcells Hnd].
  unfold set.
  destruct (Z.leb_spec (m_size l) idx) as [Hext|Hin].
  - (* at or past the end *)
    destruct (if m_capacity l <=? idx then _ else _) as [l0|] eqn:Hgrow;
      [|done].
    cbn [mbind option_bind].
    assert (wf l0 /\ m_size l0 = m_size l /\ mp_list l0 = mp_list l /\
            forall i, 0 <= i < m_size l -> read_elem l0 i = read_elem l i)
      as (Hwf0 & Hsz0 & Hst0 & Hrd0).
    { destruct (Z.leb_spec (m_capacity l) idx) as [Hsmall|Hfits].
      - apply resizeToCapacity_nonneg in Hgrow as Hnn.
        apply wrap32_double in Hnn as Hdbl; [|lia].
        rewrite wrap32_id in Hgrow by (unfold INT32_MAX in *; lia).
        assert (Hn : m_capacity l <= idx * 2 <= INT32_MAX) by lia.
        pose proof (resizeToCapacity_wf _ _ _ Hwf Hn Hgrow) as Hwf0.
        assert (forall i, 0 <= i < m_size l -> read_elem l0 i = read_elem l i).
        { intros i Hi. eapply resizeToCapacity_read; eauto; lia. }
        rewrite resizeToCapacity_spec in Hgrow by done.
        injection Hgrow as <-. by fields.
      - by injection Hgrow as <-. }
    intros Hwr.
    assert (mp_list l0 + idx < m_capacity l0) as Hlt.
    { revert Hwr. unfold write_elem, list_cell. fields.
      destruct (raw_read _ _) as [p|] eqn:Hp; [|done].
      apply raw_read_Some in Hp as [_ Hp]. apply lookup_lt_Some in Hp.
      destruct Hwf0. lia. }
    pose proof Hwf0 as [Hcap0 Hb0 Hs0 Hz0 Hw0 Hcells0 Hnd0].
    rewrite wrap32_id in Hwr by (unfold INT32_MAX in *; lia).
    assert (wf (set_size (idx + 1) l0)) as Hwf1 by (split; fields; done || lia).
    destruct (write_elem_inv _ idx v l' Hwf1) as (Hwf' & Hsz & _ & _ & _ & _ & Hv & Hrd);
      [lia|done|].
    fields. split_and!; [done|lia| |].
    + by rewrite value_in_range by lia.
    + intros i Hi Hne. rewrite !value_in_range by lia.
      rewrite Hrd by lia. rewrite <- Hrd0 by lia.
      by rewrite !read_elem_rawZ by (fields; lia).
  - (* inside the list *)
    cbn [mbind option_bind]. intros Hwr.
    destruct (write_elem_inv l idx v l' Hwf) as (Hwf' & Hsz & _ & _ & _ & _ & Hv & Hrd);
      [lia|done|].
    split_and!; [done|lia| |].
    + by rewrite value_in_range by lia.
    + intros i Hi Hne. rewrite !value_in_range by lia. apply Hrd; lia.
Qed.

End SetIndex.

(** [set] past the end of [1, 2]: the list is extended to the index, the
    cell in between shows the default value of its new slot. *)
Lemma set_past_end_example :
  (l ← CxList_array [1; 2] 2 kCxCopy; l ← set 3 9 l;
   e ← elements l; Some (e, capacity l))
  = Some ([1; 2; 0; 9], 6).
Proof. reflexivity. Qed.

(** [set] checks the index against the capacity, not against the cells
    left after the window: on [2], what is left of [1, 2] after
    [removeFirst], [set(1, 9)] writes through the cell after the pointer
    array. *)
Lemma set_after_removeFirst_undefined :
  (l ← CxList_array [1; 2] 2 kCxCopy; set 1 9 (removeFirst l)) = None.
Proof. reflexivity. Qed.

(** ** replaceAll *)

Section ReplaceAll.
Context {T : Type} `{Element T}.
Implicit Types (l : CxList T) (chain : list (CxListStore T)) (xs ys : list T).

(** At a position that holds [v], the loop of [replaceAll(v, v)] writes
    [v] over [v], counts, and tests the same position again. *)
Lemma replaceAll_loop_stuck l (v : T) (i count : CxI32) fuel :
  i < m_size l -> read_elem l i = Some v ->
  replaceAll_loop fuel v v i count l = Timeout.
Proof.
  intros Hi Hv. revert count. induction fuel as [|fuel IH]; intros count.
  - done.
  - simpl. destruct (Z.ltb_spec i (m_size l)); [|lia].
    rewrite Hv, T_eq_refl, (write_elem_same _ _ _ Hv). apply IH.
Qed.

(** [replaceAll(v, v)] on a list that holds [v] does not leave its loop,
    whatever the number of steps it is given. *)
Lemma replaceAll_same_value_diverges l (v : T) (i : CxI32) :
  wf l -> 0 <= i < m_size l -> read_elem l i = Some v ->
  forall fuel, replaceAll fuel v v l = Timeout.
Proof.
  intros Hwf Hi Hv fuel. unfold replaceAll.
  assert (Hgen : forall j count, 0 <= j <= i ->
            replaceAll_loop fuel v v j count l = Timeout).
  { induction fuel as [|fuel IH]; intros j count Hj; [done|].
    simpl. destruct (Z.ltb_spec j (m_size l)); [|lia].
    destruct (wf_read_elem l j Hwf) as (p & Hp & _ & [x Hx]);
      [destruct Hwf; lia|].
    unfold read_elem at 1. rewrite Hp. simpl. rewrite Hx.
    destruct (T_eq x v) eqn:Hxv.
    - apply T_eq_spec in Hxv as ->.
      assert (Hr : read_elem l j = Some v)
        by (unfold read_elem; rewrite Hp; done).
      rewrite (write_elem_same _ _ _ Hr).
      by apply replaceAll_loop_stuck.
    - assert (j <> i).
      { intros ->. unfold read_elem in Hv. rewrite Hp in Hv. simpl in Hv.
        rewrite Hx in Hv. injection Hv as ->.
        by rewrite T_eq_refl in Hxv. }
      rewrite wrap32_id
        by (destruct Hwf; unfold INT32_MAX in *; lia).
      apply IH. lia. }
  apply Hgen. lia.
Qed.

Lemma occurrences_bounds in_old xs :
  0 <= occurrences in_old xs <= Z.of_nat (Datatypes.length xs).
Proof.
  induction xs as [|x xs IH]; simpl; [lia|]. destruct (T_eq x in_old); lia.
Qed.



End ReplaceAll.

(** C7. [replaceAll(5, 5)] on the list [5] has not finished after any
    number of steps: a match is overwritten and counted but the index
    does not advance, and the cell still holds the value searched for. *)
Theorem replaceAll_same_value_never_finishes (fuel : nat) :
  (l ← CxList_array [5] 1 kCxCopy; Some (replaceAll fuel 5 5 l))
  = Some Timeout.
Proof.
  simpl. f_equal. apply (replaceAll_loop_stuck _ 5 0 0 fuel); reflexivity.
Qed.

(** With distinct values the same call ends. *)
Lemma replaceAll_distinct_values_example :
  (l ← CxList_array [5; 1; 5] 3 kCxCopy;
   match replaceAll 7 5 6 l with
   | Finished (l', n) => e ← elements l'; Some (e, n)
   | _ => None
   end)
  = Some ([6; 1; 6], 2).
Proof. reflexivity. Qed.

(** ** operator+ *)

Section Concatenation.
Context {T : Type} `{Element T}.
Implicit Types (l : CxList T) (chain : list (CxListStore T)) (xs ys : list T).

(** A copy loop of [operator+]: the elements [xs] of [src] are written
    to the cells of the array that follow [pre]. *)
Lemma copy_loop (src : CxList T) (xs pre rest : list T) :
  (forall i x, xs !! i = Some x -> read_elem src (Z.of_nat i) = Some x) ->
  (Datatypes.length xs <= Datatypes.length rest)%nat ->
  for_range 0 (Z.of_nat (Datatypes.length xs))
    (fun i r => x ← read_elem src i;
                array_write (Z.of_nat (Datatypes.length pre) + i) x r)
    (pre ++ rest)
  = Some (pre ++ xs ++ drop (Datatypes.length xs) rest).
Proof.
  intros Hread Hlen.
  destruct (for_range_inv
    (fun j r => r = pre ++ take (Z.to_nat j) xs ++ drop (Z.to_nat j) rest)
    0 (Z.of_nat (Datatypes.length xs))
    (fun i r => x ← read_elem src i;
                array_write (Z.of_nat (Datatypes.length pre) + i) x r)
    (pre ++ rest)) as (r & Hr & HP).
  - lia.
  - done.
  - intros j s Hj ->. set (k := Z.to_nat j).
    destruct (lookup_lt_is_Some_2 xs k) as [x Hx]; [lia|].
    destruct (lookup_lt_is_Some_2 rest k) as [y Hy]; [lia|].
    eexists. split; [|reflexivity].
    replace j with (Z.of_nat k) at 1 by lia. rewrite (Hread _ _ Hx). simpl.
    unfold array_write.
    rewrite !length_app, length_take, length_drop.
    destruct (Z.leb_spec 0 (Z.of_nat (Datatypes.length pre) + j)); [|lia].
    destruct (Z.ltb_spec (Z.of_nat (Datatypes.length pre) + j)
      (Z.of_nat (Datatypes.length pre
                 + (k `min` Datatypes.length xs + (Datatypes.length rest - k)))%nat));
      [|lia].
    simpl. f_equal.
    replace (Z.to_nat (Z.of_nat (Datatypes.length pre) + j))
      with (Datatypes.length pre + k)%nat by lia.
    rewrite insert_app_r.
    replace k with (Datatypes.length (take k xs) + 0)%nat at 1
      by (rewrite length_take; lia).
    rewrite insert_app_r. rewrite (drop_S _ _ _ Hy). simpl.
    replace (Z.to_nat (j + 1)) with (Datatypes.S k) by lia.
    rewrite (take_S_r _ _ _ Hx). by rewrite <- app_assoc.
  - rewrite Hr, HP, Nat2Z.id. by rewrite firstn_all.
Qed.

Lemma copy_loop_start (src : CxList T) (xs rest : list T) :
  (forall i x, xs !! i = Some x -> read_elem src (Z.of_nat i) = Some x) ->
  (Datatypes.length xs <= Datatypes.length rest)%nat ->
  for_range 0 (Z.of_nat (Datatypes.length xs))
    (fun i r => x ← read_elem src i; array_write i x r) rest
  = Some (xs ++ drop (Datatypes.length xs) rest).
Proof. exact (copy_loop src xs [] rest). Qed.

(** C8. For lists [A] and [B] whose lengths add up within [CxI32],
    [A + B] is a list of length [A.length() + B.length()] whose elements
    are those of [A] in order followed by those of [B] in order.  [A] and
    [B] are arguments only read: the embedding of the const method hands
    back the new list and nothing else. *)
Theorem operator_plus_concat (A B : CxList T) :
  wf A -> wf B -> length A + length B <= INT32_MAX ->
  exists R ea eb,
    operator_plus A B = Some R /\
    elements A = Some ea /\ elements B = Some eb /\
    length R = length A + length B /\
    elements R = Some (ea ++ eb) /\ wf R.
Proof.
  intros HA HB Hsum. unfold length in *.
  destruct (wf_elements _ HA) as [ea Hea].
  destruct (wf_elements _ HB) as [eb Heb].
  destruct (elements_lookup _ _ Hea) as [Hla Hra].
  destruct (elements_lookup _ _ Heb) as [Hlb Hrb].
  pose proof (wf_size _ HA) as HzA. pose proof (wf_size _ HB) as HzB.
  unfold operator_plus.
  rewrite wrap32_id by (unfold INT32_MAX in *; lia).
  destruct (Z.ltb_spec 0 (m_size A + m_size B)) as [Hpos|Hzero].
  - set (n := m_size A + m_size B) in *.
    unfold new_array. destruct (Z.ltb_spec n 0); [lia|]. simpl.
    replace (m_size A) with (Z.of_nat (Datatypes.length ea)) by lia.
    rewrite copy_loop_start by (rewrite ?length_replicate; done || lia).
    simpl.
    replace (m_size B) with (Z.of_nat (Datatypes.length eb)) by lia.
    rewrite copy_loop
      by (rewrite ?length_drop, ?length_replicate; done || lia).
    simpl. rewrite drop_ge by (rewrite length_drop, length_replicate; lia).
    rewrite app_nil_r. rewrite CxList_array_NoCopy by done.
    assert (Z.of_nat (Datatypes.length (ea ++ eb)) = n)
      by (rewrite length_app; lia).
    exists (adopted (ea ++ eb) n), ea, eb.
    split_and!; [done..| |].
    + apply adopted_elements; [lia|done].
    + apply adopted_wf; [lia|done].
  - assert (ea = []) as -> by (apply nil_length_inv; lia).
    assert (eb = []) as -> by (apply nil_length_inv; lia).
    exists null_list, [], []. split_and!; [done..| | |].
    + simpl. lia.
    + done.
    + apply null_list_wf.
Qed.

End Concatenation.

(** C8 at [1, 2] + [3]. *)
Lemma operator_plus_concat_witness :
  wf (adopted [1; 2] 2) /\ wf (adopted [3] 1) /\
  length (adopted [1; 2] 2) + length (adopted [3] 1) <= INT32_MAX /\
  exists R ea eb,
    operator_plus (adopted [1; 2] 2) (adopted [3] 1) = Some R /\
    elements (adopted [1; 2] 2) = Some ea /\
    elements (adopted [3] 1) = Some eb /\
    length R = length (adopted [1; 2] 2) + length (adopted [3] 1) /\
    elements R = Some (ea ++ eb) /\ wf R.
Proof.
  assert (HA : wf (adopted [1; 2] 2))
    by (apply adopted_wf; [unfold INT32_MAX; lia|reflexivity]).
  assert (HB : wf (adopted [3] 1))
    by (apply adopted_wf; [unfold INT32_MAX; lia|reflexivity]).
  assert (Hsum : length (adopted [1; 2] 2) + length (adopted [3] 1)
                 <= INT32_MAX) by (vm_compute; discriminate).
  split_and!; [done..|].
  exact (operator_plus_concat (adopted [1; 2] 2) (adopted [3] 1) HA HB Hsum).
Defined.

Lemma half_range_array_length :
  Z.of_nat (Datatypes.length half_range_array) = half_range.
Proof.
  unfold half_range_array. rewrite length_replicate.
  apply Z2Nat.id. unfold half_range. lia.
Qed.

Lemma half_range_list_made :
  CxList_array half_range_array half_range kCxNoCopy = Some half_range_list.
Proof. apply CxList_array_NoCopy. unfold half_range. lia. Qed.

Lemma half_range_list_wf : wf half_range_list.
Proof.
  apply adopted_wf.
  - unfold half_range, INT32_MAX. lia.
  - apply half_range_array_length.
Qed.

(** C8, as stated, fails for two lists of 2^30 elements: the sum of the
    lengths is computed in [CxI32], where it is negative, and [operator+]
    returns the empty list. *)
Lemma operator_plus_beyond_CxI32 :
  wf half_range_list /\
  exists R,
    operator_plus half_range_list half_range_list = Some R /\
    length R <> length half_range_list + length half_range_list.
Proof.
  split; [apply half_range_list_wf|].
  exists null_list. split.
  - unfold operator_plus, half_range_list, adopted. cbn [m_size].
    change (wrap32 (half_range + half_range)) with (-2147483648).
    change (0 <? -2147483648) with false. cbv iota.
    apply CxList_new_eq.
  - unfold length, half_range_list, adopted, null_list. cbn [m_size].
    unfold half_range. lia.
Qed.

(** ** removeFirst, removeLast and replaceAt *)

Section InPlace.
Context {T : Type} `{Element T}.
Implicit Types (l : CxList T) (chain : list (CxListStore T)) (xs ys : list T).

Lemma removeFirst_wf l : wf l -> wf (removeFirst l).
Proof.
  intros Hwf. pose proof Hwf as [Hcap Hb Hs Hz Hw Hcells Hnd].
  unfold removeFirst. destruct (Z.ltb_spec 0 (m_size l)); [|done].
  rewrite wrap32_id by (unfold INT32_MAX in *; lia).
  split; fields; done || lia.
Qed.

Lemma removeLast_wf l : wf l -> wf (removeLast l).
Proof.
  intros Hwf. pose proof Hwf as [Hcap Hb Hs Hz Hw Hcells Hnd].
  unfold removeLast. destruct (Z.ltb_spec 0 (m_size l)); [|done].
  rewrite wrap32_id by (unfold INT32_MAX in *; lia).
  split; fields; done || lia.
Qed.

(** C9. On an empty list [removeFirst] and [removeLast] change nothing:
    the list they leave is the list they found, field by field, and its
    length is still 0. *)
Theorem remove_ends_of_empty_list l :
  length l = 0 ->
  removeFirst l = l /\ removeLast l = l /\
  length (removeFirst l) = 0 /\ length (removeLast l) = 0.
Proof.
  unfold length, removeFirst, removeLast. intros Hl. rewrite Hl. by simpl.
Qed.

(** C10. For a valid index [replaceAt] returns true, the element at the
    index becomes the new value, and length, capacity and the element at
    every other position are as before. *)
Theorem replaceAt_valid l (idx : CxI32) (v : T) :
  wf l -> 0 <= idx < length l ->
  exists l',
    replaceAt idx v l = Some (l', true) /\
    value idx l' = Some v /\
    length l' = length l /\ capacity l' = capacity l /\
    (forall j, j <> idx -> value j l' = value j l) /\
    wf l'.
Proof.
  unfold length, capacity. intros Hwf Hidx.
  pose proof Hwf as [Hcap Hb Hs Hz Hw Hcells Hnd].
  destruct (write_elem_spec l idx v Hwf) as (p & c & Hp & Hc & Hwr); [lia|].
  exists (set_store c l). split_and!; fields; try done.
  - unfold replaceAt.
    destruct (Z.leb_spec 0 idx); [|lia].
    destruct (Z.ltb_spec idx (m_size l)); [|lia]. simpl. by rewrite Hwr.
  - rewrite value_in_range by (fields; lia).
    rewrite read_elem_raw by (fields; lia). fields.
    replace (Z.to_nat (mp_list l) + Z.to_nat idx)%nat
      with (Z.to_nat (mp_list l + idx)) by lia.
    rewrite Hp. simpl. rewrite (deref_assign _ _ _ _ _ Hc).
    by rewrite decide_True.
  - intros j Hj.
    destruct (decide (0 <= j < m_size l)) as [Hin|Hout].
    + rewrite !value_in_range by (fields; lia).
      rewrite !read_elem_raw by (fields; lia). fields.
      destruct (mp_raw l !! (Z.to_nat (mp_list l) + Z.to_nat j)%nat)
        as [c'|] eqn:Hc'; [|done].
      change (load c c' = load (mp_store l) c').
      rewrite (load_assign _ _ _ _ _ Hc).
      destruct (decide (c' = Some p)) as [->|]; [|done].
      pose proof (NoDup_lookup _ _ _ _ Hnd Hc' Hp). lia.
    + by rewrite !value_out_of_range by (fields; lia).
  - by eapply set_store_wf.
Qed.

(** Outside the list [replaceAt] returns false and changes nothing. *)
Lemma replaceAt_invalid l (idx : CxI32) (v : T) :
  ~ (0 <= idx < length l) -> replaceAt idx v l = Some (l, false).
Proof.
  unfold length, replaceAt. intros Hidx.
  destruct (Z.leb_spec 0 idx); [|done].
  destruct (Z.ltb_spec idx (m_size l)); [lia|done].
Qed.

End InPlace.

(** C9 at the list of the default constructor. *)
Lemma remove_ends_of_empty_list_witness :
  length (null_list (T:=CxI32)) = 0 /\
  removeFirst (null_list (T:=CxI32)) = null_list /\
  removeLast (null_list (T:=CxI32)) = null_list /\
  length (removeFirst (null_list (T:=CxI32))) = 0 /\
  length (removeLast (null_list (T:=CxI32))) = 0.
Proof.
  split; [reflexivity|].
  exact (remove_ends_of_empty_list (null_list (T:=CxI32)) eq_refl).
Defined.

(** C10 at [replaceAt(1, 9)] on [1, 2, 3]. *)
Lemma replaceAt_valid_witness :
  wf (adopted [1; 2; 3] 3) /\ 0 <= 1 < length (adopted [1; 2; 3] 3) /\
  exists l',
    replaceAt 1 9 (adopted [1; 2; 3] 3) = Some (l', true) /\
    value 1 l' = Some 9 /\
    length l' = length (adopted [1; 2; 3] 3) /\
    capacity l' = capacity (adopted [1; 2; 3] 3) /\
    (forall j, j <> 1 -> value j l' = value j (adopted [1; 2; 3] 3)) /\
    wf l'.
Proof.
  assert (Hwf : wf (adopted [1; 2; 3] 3))
    by (apply adopted_wf; [unfold INT32_MAX; lia|reflexivity]).
  assert (Hidx : 0 <= 1 < length (adopted [1; 2; 3] 3))
    by (vm_compute; split; discriminate || reflexivity).
  split_and!; [done..|].
  exact (replaceAt_valid (adopted [1; 2; 3] 3) 1 9 Hwf Hidx).
Defined.

(** ** Elements and reads *)

Section ElementsReads.
Context {T : Type} `{Element T}.
Implicit Types (l : CxList T) (chain : list (CxListStore T)) (xs ys : list T).

Lemma elements_read l xs (i : Z) :
  elements l = Some xs -> 0 <= i < m_size l ->
  exists x, xs !! Z.to_nat i = Some x /\ read_elem l i = Some x.
Proof.
  intros Hxs Hi. destruct (elements_lookup _ _ Hxs) as [Hlen Hread].
  destruct (lookup_lt_is_Some_2 xs (Z.to_nat i)) as [x Hx]; [lia|].
  exists x. split; [done|]. rewrite <- (Z2Nat.id i) by lia. by apply Hread.
Qed.

Lemma elements_length l xs :
  elements l = Some xs -> 0 <= m_size l ->
  Z.of_nat (Datatypes.length xs) = m_size l.
Proof. intros Hxs Hz. destruct (elements_lookup _ _ Hxs). lia. Qed.

Lemma insert_elements l (idx : CxI32) (v : T) l' xs :
  wf l -> 0 <= idx <= m_size l -> elements l = Some xs ->
  insert idx v l = Some l' ->
  elements l' = Some (take (Z.to_nat idx) xs ++ v :: drop (Z.to_nat idx) xs).
Proof.
  intros Hwf Hidx Hxs Hins.
  destruct (insert_inv l idx v l' Hwf Hidx Hins) as (Hwf' & Hsz & _ & Hrd).
  destruct (elements_lookup _ _ Hxs) as [Hlen Hread].
  pose proof (wf_size l Hwf) as Hz.
  assert (Hlt : Datatypes.length (take (Z.to_nat idx) xs) = Z.to_nat idx)
    by (rewrite length_take; lia).
  apply elements_of_reads.
  - rewrite length_app, Hlt. simpl. rewrite length_drop. lia.
  - intros i x Hx. apply lookup_lt_Some in Hx as Hi.
    rewrite length_app, Hlt in Hi. simpl in Hi. rewrite length_drop in Hi.
    rewrite Hrd by lia. repeat case_decide.
    + rewrite lookup_app_l in Hx by lia.
      rewrite lookup_take_lt in Hx by lia. by apply Hread.
    + rewrite lookup_app_r in Hx by lia.
      replace (i - Datatypes.length (take (Z.to_nat idx) xs))%nat with O in Hx
        by lia.
      by injection Hx as ->.
    + rewrite lookup_app_r in Hx by lia. rewrite Hlt in Hx.
      destruct (i - Z.to_nat idx)%nat as [|k] eqn:Hk; [lia|].
      simpl in Hx. rewrite lookup_drop in Hx.
      replace (Z.of_nat i - 1) with (Z.of_nat (Z.to_nat idx + k)) by lia.
      by apply Hread.
Qed.

Lemma priv_removeAt_elements l (idx : CxI32) l' xs :
  wf l -> 0 <= idx < m_size l -> elements l = Some xs ->
  priv_removeAt idx l = Some l' ->
  elements l' = Some (delete (Z.to_nat idx) xs).
Proof.
  intros Hwf Hidx Hxs Hrm.
  destruct (priv_removeAt_inv l idx l' Hwf Hidx Hrm)
    as (Hwf' & Hsz & _ & _ & Hrd).
  destruct (elements_lookup _ _ Hxs) as [Hlen Hread].
  apply elements_of_reads.
  - rewrite length_delete by (apply lookup_lt_is_Some_2; lia). lia.
  - intros i x Hx. apply lookup_lt_Some in Hx as Hi.
    rewrite length_delete in Hi by (apply lookup_lt_is_Some_2; lia).
    rewrite Hrd by lia. case_decide.
    + rewrite list_lookup_delete_lt in Hx by lia. by apply Hread.
    + rewrite list_lookup_delete_ge in Hx by lia.
      replace (Z.of_nat i + 1) with (Z.of_nat (Datatypes.S i)) by lia.
      by apply Hread.
Qed.

End ElementsReads.

(** ** Further properties of growth, insertion and removal *)

Section FurtherProperties.
Context {T : Type} `{Element T}.
Implicit Types (l : CxList T) (chain : list (CxListStore T)) (xs ys : list T).

Lemma resizeToCapacity_elements l n l' :
  wf l -> m_capacity l <= n <= INT32_MAX ->
  resizeToCapacity n l = Some l' ->
  m_size l' = m_size l /\ elements l' = elements l.
Proof.
  intros Hwf Hn Hres. pose proof Hwf as [Hcap Hb Hs Hz Hw Hcells Hnd].
  assert (Hrd : forall i, 0 <= i < m_size l -> read_elem l' i = read_elem l i).
  { intros i Hi. eapply resizeToCapacity_read; eauto; lia. }
  rewrite resizeToCapacity_spec in Hres by done.
  assert (m_size l' = m_size l /\ m_invalidValue l' = m_invalidValue l)
    as [Hsz Hinv] by (by injection Hres as <-).
  split; [done|]. apply elements_ext; [done|]. intros i.
  destruct (decide (0 <= i < m_size l)).
  - rewrite !value_in_range by lia. by apply Hrd.
  - rewrite !value_out_of_range by lia. by rewrite Hinv.
Qed.

(** X1. [reserve(n)] never shrinks: the capacity becomes the larger of
    the old capacity and [n], and length and elements are as before. *)
Theorem reserve_keeps_elements l (n : CxI32) :
  wf l -> n <= INT32_MAX ->
  exists l',
    reserve n l = Some l' /\ wf l' /\
    capacity l' = Z.max (capacity l) n /\
    length l' = length l /\ elements l' = elements l.
Proof.
  unfold capacity, length, reserve. intros Hwf Hn.
  destruct (Z.ltb_spec (m_capacity l) n) as [Hgrow|Hfits].
  - assert (Hb : m_capacity l <= n <= INT32_MAX) by lia.
    destruct (resizeToCapacity n l) as [l'|] eqn:Hres;
      [|by rewrite resizeToCapacity_spec in Hres].
    pose proof (resizeToCapacity_wf _ _ _ Hwf Hb Hres) as Hwf'.
    destruct (resizeToCapacity_elements l n l' Hwf Hb Hres) as [Hsz Hel].
    exists l'. split_and!; try done.
    rewrite resizeToCapacity_spec in Hres by done. injection Hres as <-.
    fields. lia.
  - exists l. split_and!; try done. lia.
Qed.

(** X2. Single-element appends to a list whose window starts at cell 0
    of a pointer array of at least one cell all run to their end: the
    length grows by their number and the appended values follow the
    elements, in order. *)
Theorem appends_in_order (vs : list T) l xs :
  wf l -> mp_list l = 0 -> 1 <= capacity l ->
  2 * (length l + Z.of_nat (Datatypes.length vs)) <= INT32_MAX ->
  elements l = Some xs ->
  exists l',
    appends vs l = Some l' /\ wf l' /\
    length l' = length l + Z.of_nat (Datatypes.length vs) /\
    elements l' = Some (xs ++ vs).
Proof. unfold capacity. apply appends_spec. Qed.

(** X3. [insert(idx, v)] with [idx] in [0, length()], on any list but
    the empty one whose window starts at cell 0: the list gets one
    element longer, [v] is at [idx], the elements before it stay and the
    elements from [idx] on move up by one. *)
Theorem insert_places_element l (idx : CxI32) (v : T) xs :
  wf l -> 0 <= idx <= length l ->
  ~ (mp_list l = 0 /\ length l = 0) ->
  (length l = capacity l -> capacity l * 2 <= INT32_MAX) ->
  elements l = Some xs ->
  exists l',
    insert idx v l = Some l' /\ wf l' /\ length l' = length l + 1 /\
    elements l'
    = Some (take (Z.to_nat idx) xs ++ v :: drop (Z.to_nat idx) xs).
Proof.
  unfold length, capacity. intros Hwf Hidx Hne Hdbl Hxs.
  destruct (insert_is_Some l idx v Hwf Hidx Hne Hdbl) as [l' Hl'].
  destruct (insert_inv l idx v l' Hwf Hidx Hl') as (Hwf' & Hsz & _ & _).
  exists l'. split_and!; try done.
  exact (insert_elements l idx v l' xs Hwf Hidx Hxs Hl').
Qed.

(** X4. An empty list whose window starts at cell 0 of its pointer array
    takes no [insert], whatever its capacity: the pointer for the new
    element would be read or written one cell before the array. *)
Theorem insert_into_empty_list_at_start l (v : T) :
  wf l -> mp_list l = 0 -> length l = 0 -> insert 0 v l = None.
Proof. unfold length. apply insert_empty_at_start. Qed.

(** X5. [removeAt(idx)] for a valid index that is the first or the last
    one, or on a list with a slack cell after the window: the element at
    [idx] is removed, the later ones move down by one, and the call ends
    without a [return] statement. *)
Theorem removeAt_removes_element l (idx : CxI32) xs :
  wf l -> 0 <= idx < length l ->
  idx = 0 \/ idx = length l - 1 \/ mp_list l + length l < capacity l ->
  elements l = Some xs ->
  exists l',
    removeAt idx l = Some (l', NoReturn) /\ wf l' /\
    length l' = length l - 1 /\ capacity l' = capacity l /\
    elements l' = Some (delete (Z.to_nat idx) xs).
Proof.
  unfold length, capacity. intros Hwf Hidx Hok Hxs.
  destruct (priv_removeAt_is_Some l idx Hwf Hidx Hok) as [l' Hl'].
  destruct (priv_removeAt_inv l idx l' Hwf Hidx Hl') as (Hwf' & Hsz & Hcap & _).
  exists l'. split_and!; try done.
  - unfold removeAt. zdecide. cbn [andb]. by rewrite Hl'.
  - exact (priv_removeAt_elements l idx l' xs Hwf Hidx Hxs Hl').
Qed.

(** X6. On a list whose window ends with the pointer array,
    [priv_removeAt] at an index that is neither the first nor the last
    reads the cell after the array: it copies [m_size - in_idx] cells
    from [in_idx + 1] on, one more than there are. *)
Theorem priv_removeAt_reads_past_array l (idx : CxI32) :
  wf l -> 0 < idx < length l - 1 ->
  mp_list l + length l = capacity l ->
  priv_removeAt idx l = None /\ removeAt idx l = None.
Proof.
  unfold length, capacity. intros Hwf Hidx Hend.
  pose proof (priv_removeAt_past_end l idx Hwf Hidx Hend) as Hnone.
  split; [done|]. unfold removeAt. zdecide. cbn [andb]. by rewrite Hnone.
Qed.

(** X7. Whenever [insert(idx, v)] and the [removeAt(idx)] after it both
    run to their end, the list has the length and the elements it had
    before the two calls. *)
Theorem insert_then_removeAt_restores l (idx : CxI32) (v : T) l1 l2 r :
  wf l -> 0 <= idx <= length l ->
  insert idx v l = Some l1 -> removeAt idx l1 = Some (l2, r) ->
  length l2 = length l /\ elements l2 = elements l /\
  (forall i, value i l2 = value i l).
Proof.
  intros Hwf Hidx Hins Hrm.
  destruct (insert_removeAt_restores l idx v l1 l2 r Hwf Hidx Hins Hrm)
    as (? & ? & ? & _). done.
Qed.

Lemma set_is_Some l (idx : CxI32) (v : T) :
  wf l -> 0 <= idx -> idx * 2 <= INT32_MAX ->
  (if m_capacity l <=? idx then mp_list l < idx
   else mp_list l + idx < m_capacity l) ->
  is_Some (set idx v l).
Proof.
  intros Hwf Hidx Hdbl Hroom.
  pose proof Hwf as [Hcap Hb Hs Hz Hw Hcells Hnd].
  assert (Hwrite : forall l0, wf l0 -> mp_list l0 + idx < m_capacity l0 ->
                     0 <= mp_list l0 ->
                     is_Some (write_elem idx v (set_size (wrap32 (idx + 1)) l0))).
  { intros l0 Hwf0 Hlt Hs0.
    rewrite wrap32_id by (unfold INT32_MAX in *; lia).
    assert (wf (set_size (idx + 1) l0)) as Hwf1
      by (destruct Hwf0; split; fields; done || lia).
    destruct (write_elem_spec (set_size (idx + 1) l0) idx v Hwf1)
      as (p & c & _ & _ & ->); [fields; lia|by eexists]. }
  unfold set. destruct (Z.leb_spec (m_size l) idx) as [Hext|Hin].
  - destruct (Z.leb_spec (m_capacity l) idx) as [Hsmall|Hfits].
    + rewrite (wrap32_id (idx * 2)) by (unfold INT32_MAX in *; lia).
      assert (Hn : m_capacity l <= idx * 2 <= INT32_MAX) by lia.
      destruct (resizeToCapacity (idx * 2) l) as [l0|] eqn:Hres;
        [|by rewrite resizeToCapacity_spec in Hres].
      pose proof (resizeToCapacity_wf _ _ _ Hwf Hn Hres) as Hwf0.
      rewrite resizeToCapacity_spec in Hres by done. injection Hres as <-.
      cbn [mbind option_bind]. apply Hwrite; [done|fields; lia..].
    + cbn [mbind option_bind]. by apply Hwrite.
  - cbn [mbind option_bind].
    destruct (Z.leb_spec (m_capacity l) idx); [lia|].
    destruct (write_elem_spec l idx v Hwf) as (p & c & _ & _ & ->);
      [lia|by eexists].
Qed.

(** X8. [set(idx, v)] writes inside the list and extends it past its
    end: below a capacity that leaves a cell for the index after the
    window, or from the capacity on, where the pointer array grows to
    twice the index, the call runs to its end; the length becomes the
    larger of the old length and [idx + 1], the element at [idx] is [v]
    and every other element the list had is as before. *)
Theorem set_writes_or_extends l (idx : CxI32) (v : T) :
  wf l -> 0 <= idx -> idx * 2 <= INT32_MAX ->
  (if capacity l <=? idx then mp_list l < idx
   else mp_list l + idx < capacity l) ->
  exists l',
    set idx v l = Some l' /\ wf l' /\
    length l' = Z.max (length l) (idx + 1) /\
    value idx l' = Some v /\
    forall i, 0 <= i < length l -> i <> idx -> value i l' = value i l.
Proof.
  unfold capacity. intros Hwf Hidx Hdbl Hroom.
  destruct (set_is_Some l idx v Hwf Hidx Hdbl Hroom) as [l' Hl'].
  exists l'. split; [done|].
  apply (set_inv l idx v l' Hwf); [lia|done].
Qed.


Lemma read_elem_shift l (k i : Z) :
  read_elem (set_list (mp_list l + k) l) i = read_elem l (k + i).
Proof.
  unfold read_elem, list_cell. fields. by rewrite Z.add_assoc.
Qed.

(** X10. [removeFirst] drops the first element and keeps the others in
    order; on an empty list it drops nothing.  The capacity stays. *)
Theorem removeFirst_drops_first l xs :
  wf l -> elements l = Some xs ->
  elements (removeFirst l) = Some (drop 1 xs) /\
  length (removeFirst l) = Z.max 0 (length l - 1) /\
  capacity (removeFirst l) = capacity l /\ wf (removeFirst l).
Proof.
  unfold length, capacity. intros Hwf Hxs.
  pose proof (removeFirst_wf l Hwf) as Hwf'.
  pose proof Hwf as [Hcap Hb Hs Hz Hw Hcells Hnd].
  destruct (elements_lookup _ _ Hxs) as [Hlen Hread].
  unfold removeFirst in *. destruct (Z.ltb_spec 0 (m_size l)) as [Hpos|Hemp].
  - rewrite wrap32_id in * by (unfold INT32_MAX in *; lia). fields.
    split_and!; [|lia|done..]. apply elements_of_reads.
    + rewrite length_drop. fields. lia.
    + intros i x Hx. rewrite lookup_drop in Hx.
      unfold read_elem, list_cell in *. fields.
      rewrite <- Z.add_assoc.
      replace (1 + Z.of_nat i) with (Z.of_nat (1 + i)) by lia.
      by apply Hread.
  - split_and!; [|lia|done..].
    assert (xs = []) as -> by (apply nil_length_inv; lia). done.
Qed.

(** X11. [removeLast] drops the last element and keeps the others in
    order; on an empty list it drops nothing.  The capacity stays. *)
Theorem removeLast_drops_last l xs :
  wf l -> elements l = Some xs ->
  elements (removeLast l) = Some (take (Datatypes.length xs - 1) xs) /\
  length (removeLast l) = Z.max 0 (length l - 1) /\
  capacity (removeLast l) = capacity l /\ wf (removeLast l).
Proof.
  unfold length, capacity. intros Hwf Hxs.
  pose proof (removeLast_wf l Hwf) as Hwf'.
  pose proof Hwf as [Hcap Hb Hs Hz Hw Hcells Hnd].
  destruct (elements_lookup _ _ Hxs) as [Hlen Hread].
  unfold removeLast in *. destruct (Z.ltb_spec 0 (m_size l)) as [Hpos|Hemp].
  - rewrite wrap32_id in * by (unfold INT32_MAX in *; lia). fields.
    split_and!; [|lia|done..]. apply elements_of_reads.
    + rewrite length_take. fields. lia.
    + intros i x Hx. apply lookup_lt_Some in Hx as Hi.
      rewrite length_take in Hi.
      rewrite lookup_take_lt in Hx by lia. by apply Hread.
  - split_and!; [|lia|done..].
    assert (xs = []) as -> by (apply nil_length_inv; lia). done.
Qed.

End FurtherProperties.

(** ** Searching *)

Lemma for_first_spec {A : Type} (P : Z -> Prop) (f : Z -> A) n i body
    (otherwise : A) :
  (forall j, i <= j < i + Z.of_nat n ->
     body j = Some (Some (f j)) /\ P j \/ body j = Some None /\ ~ P j) ->
  exists r, for_first n i body otherwise = Some r /\
    ((exists k, i <= k < i + Z.of_nat n /\ P k /\
                (forall j, i <= j < k -> ~ P j) /\ r = f k) \/
     ((forall j, i <= j < i + Z.of_nat n -> ~ P j) /\ r = otherwise)).
Proof.
  revert i. induction n as [|n IH]; intros i Hbody.
  - exists otherwise. split; [done|]. right. split; [lia|done].
  - cbn [for_first]. destruct (Hbody i) as [[-> Hp]|[-> Hp]]; [lia| |].
    + exists (f i). split; [done|]. left. exists i. split_and!; [lia..|done| |done].
      intros j Hj. lia.
    + cbn [mbind option_bind]. destruct (IH (i + 1)) as (r & -> & Hr).
      { intros j Hj. apply Hbody. lia. }
      exists r. split; [done|]. destruct Hr as [(k & Hk & Hpk & Hlt & ->)|[Hall ->]].
      * left. exists k. split_and!; [lia..|done| |done].
        intros j Hj. destruct (decide (j = i)) as [->|]; [done|]. apply Hlt. lia.
      * right. split; [|done]. intros j Hj.
        destruct (decide (j = i)) as [->|]; [done|]. apply Hall. lia.
Qed.

Lemma for_down_first_spec {A : Type} (P : Z -> Prop) (f : Z -> A) n i body
    (otherwise : A) :
  (forall j, i - Z.of_nat n < j <= i ->
     body j = Some (Some (f j)) /\ P j \/ body j = Some None /\ ~ P j) ->
  exists r, for_down_first n i body otherwise = Some r /\
    ((exists k, i - Z.of_nat n < k <= i /\ P k /\
                (forall j, k < j <= i -> ~ P j) /\ r = f k) \/
     ((forall j, i - Z.of_nat n < j <= i -> ~ P j) /\ r = otherwise)).
Proof.
  revert i. induction n as [|n IH]; intros i Hbody.
  - exists otherwise. split; [done|]. right. split; [lia|done].
  - cbn [for_down_first]. destruct (Hbody i) as [[-> Hp]|[-> Hp]]; [lia| |].
    + exists (f i). split; [done|]. left. exists i. split_and!; [lia..|done| |done].
      intros j Hj. lia.
    + cbn [mbind option_bind]. destruct (IH (i - 1)) as (r & -> & Hr).
      { intros j Hj. apply Hbody. lia. }
      exists r. split; [done|]. destruct Hr as [(k & Hk & Hpk & Hlt & ->)|[Hall ->]].
      * left. exists k. split_and!; [lia..|done| |done].
        intros j Hj. destruct (decide (j = i)) as [->|]; [done|]. apply Hlt. lia.
      * right. split; [|done]. intros j Hj.
        destruct (decide (j = i)) as [->|]; [done|]. apply Hall. lia.
Qed.

Section Searching.
Context {T : Type} `{Element T}.
Implicit Types (l : CxList T) (xs ys : list T).

(** The body of the search loops at an index of the list. *)
Lemma search_step {A : Type} l xs (v : T) (a : A) (j : Z) :
  elements l = Some xs -> 0 <= j < m_size l ->
  (x ← read_elem l j; Some (if T_eq x v then Some a else None))
    = Some (Some a) /\ xs !! Z.to_nat j = Some v
  \/ (x ← read_elem l j; Some (if T_eq x v then Some a else None))
    = Some None /\ xs !! Z.to_nat j <> Some v.
Proof.
  intros Hxs Hj. destruct (elements_read l xs j Hxs Hj) as (x & Hx & ->).
  cbn [mbind option_bind]. destruct (T_eq x v) eqn:Heq.
  - left. apply T_eq_spec in Heq as ->. done.
  - right. split; [done|]. rewrite Hx. intros [= ->].
    by rewrite T_eq_refl in Heq.
Qed.

(** X12. [indexOf(v, from)] with [from] not negative returns the first
    index at or after [from] whose element is [v], and -1 when there is
    none. *)
Theorem indexOf_first_match l (v : T) (from : CxI32) xs :
  wf l -> elements l = Some xs -> 0 <= from ->
  exists r, indexOf v from l = Some r /\
    ((from <= r < length l /\ xs !! Z.to_nat r = Some v /\
      forall j, from <= j < r -> xs !! Z.to_nat j <> Some v) \/
     (r = -1 /\
      forall j, from <= j < length l -> xs !! Z.to_nat j <> Some v)).
Proof.
  unfold length. intros Hwf Hxs Hfrom. pose proof (wf_size l Hwf) as Hz.
  unfold indexOf, for_range_first.
  destruct (for_first_spec (fun j => xs !! Z.to_nat j = Some v) (fun j => j)
              (Z.to_nat (m_size l - from)) from
              (fun i => x ← read_elem l i;
                        Some (if T_eq x v then Some i else None)) (-1))
    as (r & Hr & Hcase).
  { intros j Hj. apply search_step; [done|lia]. }
  exists r. split; [done|].
  destruct Hcase as [(k & Hk & Hpk & Hlt & ->)|[Hall ->]].
  - left. split_and!; [lia..|done|done].
  - right. split; [done|]. intros j Hj. apply Hall. lia.
Qed.

(** X13. [lastIndexOf(v, from)] with [from] below the length returns the
    last index at or before [from] whose element is [v], counting from
    the last element when [from] is -1, and -1 when there is none. *)
Theorem lastIndexOf_last_match l (v : T) (from : CxI32) xs :
  wf l -> elements l = Some xs -> from < length l ->
  exists r, lastIndexOf v from l = Some r /\
    ((0 <= r <= (if from =? -1 then length l - 1 else from) /\
      xs !! Z.to_nat r = Some v /\
      forall j, r < j <= (if from =? -1 then length l - 1 else from) ->
                xs !! Z.to_nat j <> Some v) \/
     (r = -1 /\
      forall j, 0 <= j <= (if from =? -1 then length l - 1 else from) ->
                xs !! Z.to_nat j <> Some v)).
Proof.
  unfold length. intros Hwf Hxs Hfrom.
  set (start := if from =? -1 then m_size l - 1 else from).
  pose proof Hwf as [Hcap Hb Hs Hz Hw Hcells Hnd].
  unfold lastIndexOf.
  rewrite (wrap32_id (m_size l - 1)) by (unfold INT32_MAX in *; lia).
  cbn zeta. fold start.
  assert (Hstart : start < m_size l) by (subst start; destruct (from =? -1); lia).
  destruct (for_down_first_spec (fun j => xs !! Z.to_nat j = Some v)
              (fun j => j) (Z.to_nat (start + 1)) start
              (fun i => x ← read_elem l i;
                        Some (if T_eq x v then Some i else None)) (-1))
    as (r & Hr & Hcase).
  { intros j Hj. apply search_step; [done|lia]. }
  exists r. split; [done|].
  destruct Hcase as [(k & Hk & Hpk & Hlt & ->)|[Hall ->]].
  - left. split_and!; [lia..|done|done].
  - right. split; [done|]. intros j Hj. apply Hall. lia.
Qed.

(** X14. [contains(v)] is true exactly when [v] is an element of the
    list. *)
Theorem contains_iff_element l (v : T) xs :
  wf l -> elements l = Some xs ->
  exists b, contains v l = Some b /\ (b = true <-> v ∈ xs).
Proof.
  intros Hwf Hxs. pose proof (wf_size l Hwf) as Hz.
  pose proof (elements_length l xs Hxs Hz) as Hlen.
  unfold contains, for_range_first.
  destruct (for_first_spec (fun j => xs !! Z.to_nat j = Some v)
              (fun _ => true) (Z.to_nat (m_size l - 0)) 0
              (fun i => x ← read_elem l i;
                        Some (if T_eq x v then Some true else None)) false)
    as (r & Hr & Hcase).
  { intros j Hj. apply search_step; [done|lia]. }
  exists r. split; [done|].
  destruct Hcase as [(k & Hk & Hpk & Hlt & ->)|[Hall ->]].
  - split; [|done]. intros _. by eapply list_elem_of_lookup_2.
  - split; [done|]. intros [i Hi]%list_elem_of_lookup_1.
    apply lookup_lt_Some in Hi as Hlt. destruct (Hall (Z.of_nat i)); [lia|].
    by rewrite Nat2Z.id.
Qed.

End Searching.

Section Comparing.
Context {T : Type} `{Element T}.
Implicit Types (l : CxList T) (xs ys : list T).

(** The loop shared by [operator==] and [operator!=]: it returns from
    the first index at which the two lists differ. *)
Lemma compare_loop l1 l2 xs ys (found otherwise : CxBool) :
  wf l1 -> elements l1 = Some xs -> elements l2 = Some ys ->
  m_size l1 = m_size l2 ->
  exists r,
    for_range_first 0 (m_size l1)
      (fun i => a ← read_elem l1 i; b ← read_elem l2 i;
                Some (if negb (T_eq a b) then Some found else None))
      otherwise = Some r /\
    (xs = ys /\ r = otherwise \/ xs <> ys /\ r = found).
Proof.
  intros Hwf Hxs Hys Hsz. pose proof (wf_size l1 Hwf) as Hz.
  pose proof (elements_length l1 xs Hxs Hz) as Hlx.
  pose proof (elements_length l2 ys Hys ltac:(lia)) as Hly.
  unfold for_range_first.
  destruct (for_first_spec
              (fun j => xs !! Z.to_nat j <> ys !! Z.to_nat j)
              (fun _ => found) (Z.to_nat (m_size l1 - 0)) 0
              (fun i => a ← read_elem l1 i; b ← read_elem l2 i;
                        Some (if negb (T_eq a b) then Some found else None))
              otherwise)
    as (r & Hr & Hcase).
  { intros j Hj.
    destruct (elements_read l1 xs j Hxs) as (a & Ha & ->); [lia|].
    destruct (elements_read l2 ys j Hys) as (b & Hb & ->); [lia|].
    cbn [mbind option_bind]. rewrite Ha, Hb. destruct (T_eq a b) eqn:Heq.
    - right. apply T_eq_spec in Heq as ->. split; [done|]. by intros [].
    - left. split; [done|]. intros [= ->]. by rewrite T_eq_refl in Heq. }
  exists r. split; [done|].
  destruct Hcase as [(k & Hk & Hpk & _ & ->)|[Hall ->]].
  - right. split; [|done]. by intros ->.
  - left. split; [|done]. apply list_eq. intros i.
    destruct (decide (i < Datatypes.length xs)%nat) as [Hi|Hi].
    + destruct (lookup_lt_is_Some_2 xs i) as [a Ha]; [lia|].
      destruct (lookup_lt_is_Some_2 ys i) as [b Hb]; [lia|].
      rewrite Ha, Hb. destruct (T_eq a b) eqn:Heq.
      * by apply T_eq_spec in Heq as ->.
      * destruct (Hall (Z.of_nat i)); [lia|]. rewrite Nat2Z.id, Ha, Hb.
        intros [= ->]. by rewrite T_eq_refl in Heq.
    + rewrite !lookup_ge_None_2 by lia. done.
Qed.

Lemma sizes_differ l1 l2 xs ys :
  wf l1 -> wf l2 -> elements l1 = Some xs -> elements l2 = Some ys ->
  m_size l1 <> m_size l2 -> xs <> ys.
Proof.
  intros Hwf1 Hwf2 Hxs Hys Hne ->.
  pose proof (elements_length l1 ys Hxs (wf_size _ Hwf1)).
  pose proof (elements_length l2 ys Hys (wf_size _ Hwf2)). lia.
Qed.

(** X15. [operator==] is true exactly when the two lists have the same
    elements in the same order, whatever their capacities and layouts,
    and [operator!=] is its negation. *)
Theorem operator_eq_ne_same_elements l1 l2 xs ys :
  wf l1 -> wf l2 -> elements l1 = Some xs -> elements l2 = Some ys ->
  exists r,
    operator_eq l1 l2 = Some r /\ operator_ne l1 l2 = Some (negb r) /\
    (r = true <-> xs = ys).
Proof.
  intros Hwf1 Hwf2 Hxs Hys. unfold operator_ne, operator_eq.
  destruct (Z.eqb_spec (m_size l1) (m_size l2)) as [Hsz|Hsz].
  - destruct (compare_loop l1 l2 xs ys false true Hwf1 Hxs Hys Hsz)
      as (r & Hr & Hcase).
    destruct (compare_loop l1 l2 xs ys true false Hwf1 Hxs Hys Hsz)
      as (r' & Hr' & Hcase').
    exists r. split; [exact Hr|].
    replace (negb r) with r'; [split; [exact Hr'|]|];
      by destruct Hcase as [[? ->]|[? ->]], Hcase' as [[? ->]|[? ->]].
  - exists false. split; [done|].
    pose proof (sizes_differ l1 l2 xs ys Hwf1 Hwf2 Hxs Hys Hsz). done.
Qed.

(** X16. [startsWith(v)] tells whether [v] is the first element and
    [endsWith(v)] whether it is the last; both are false on an empty
    list. *)
Theorem startsWith_endsWith_ends l (v : T) xs :
  wf l -> elements l = Some xs ->
  exists b e,
    startsWith v l = Some b /\ (b = true <-> head xs = Some v) /\
    endsWith v l = Some e /\ (e = true <-> last xs = Some v).
Proof.
  intros Hwf Hxs. pose proof Hwf as [Hcap Hb Hs Hz Hw Hcells Hnd].
  pose proof (elements_length l xs Hxs Hz) as Hlen.
  unfold startsWith, endsWith.
  destruct (Z.ltb_spec 0 (m_size l)) as [Hpos|Hemp].
  - rewrite wrap32_id by (unfold INT32_MAX in *; lia).
    destruct (elements_read l xs 0 Hxs) as (a & Ha & ->); [lia|].
    destruct (elements_read l xs (m_size l - 1) Hxs) as (z & Hz' & ->); [lia|].
    cbn [mbind option_bind]. exists (T_eq a v), (T_eq z v).
    rewrite !T_eq_spec, head_lookup, last_lookup.
    change (Z.to_nat 0) with O in Ha. rewrite Ha.
    replace (Nat.pred (Datatypes.length xs)) with (Z.to_nat (m_size l - 1))
      by lia.
    rewrite Hz'. split_and!; try done; split; congruence.
  - assert (xs = []) as -> by (apply nil_length_inv; lia).
    exists false, false. done.
Qed.

End Comparing.

Section ByValue.
Context {T : Type} `{Element T}.
Implicit Types (l : CxList T) (xs ys : list T).

(** The search of [remove] and [replace]: [indexOf] from the start. *)
Lemma indexOf_from_start l (v : T) xs :
  wf l -> elements l = Some xs ->
  (exists k : nat,
     indexOf v 0 l = Some (Z.of_nat k) /\ xs !! k = Some v /\
     forall j, (j < k)%nat -> xs !! j <> Some v) \/
  (indexOf v 0 l = Some (-1) /\ v ∉ xs).
Proof.
  intros Hwf Hxs. pose proof (wf_size l Hwf) as Hz.
  pose proof (elements_length l xs Hxs Hz) as Hlen.
  unfold indexOf, for_range_first.
  destruct (for_first_spec (fun j => xs !! Z.to_nat j = Some v) (fun j => j)
              (Z.to_nat (m_size l - 0)) 0
              (fun i => x ← read_elem l i;
                        Some (if T_eq x v then Some i else None)) (-1))
    as (r & Hr & Hcase).
  { intros j Hj. apply search_step; [done|lia]. }
  rewrite Hr. destruct Hcase as [(k & Hk & Hpk & Hlt & ->)|[Hall ->]].
  - left. exists (Z.to_nat k). rewrite Z2Nat.id by lia. split_and!; [done..|].
    intros j Hj. specialize (Hlt (Z.of_nat j)). rewrite Nat2Z.id in Hlt.
    apply Hlt. lia.
  - right. split; [done|]. intros [i Hi]%list_elem_of_lookup_1.
    apply lookup_lt_Some in Hi as Hlt. destruct (Hall (Z.of_nat i)); [lia|].
    by rewrite Nat2Z.id.
Qed.

(** X17. [remove(v)] on a list with a free cell after its window removes
    the first element equal to [v] and returns true; with no such
    element it returns false and leaves the list as it was. *)
Theorem remove_first_occurrence l (v : T) xs :
  wf l -> mp_list l + length l < capacity l -> elements l = Some xs ->
  (exists (k : nat) l',
     remove v l = Some (l', true) /\ xs !! k = Some v /\
     (forall j, (j < k)%nat -> xs !! j <> Some v) /\
     elements l' = Some (delete k xs) /\ wf l') \/
  (remove v l = Some (l, false) /\ v ∉ xs).
Proof.
  unfold length, capacity. intros Hwf Hslack Hxs.
  pose proof (wf_size l Hwf) as Hz.
  pose proof (elements_length l xs Hxs Hz) as Hlen.
  unfold remove.
  destruct (indexOf_from_start l v xs Hwf Hxs)
    as [(k & -> & Hk & Hfirst)|[-> Hnot]].
  - left. apply lookup_lt_Some in Hk as Hlt. cbn [mbind option_bind].
    destruct (Z.eqb_spec (Z.of_nat k) (-1)); [lia|]. cbn [negb].
    assert (Hidx : 0 <= Z.of_nat k < m_size l) by lia.
    destruct (priv_removeAt_is_Some l (Z.of_nat k) Hwf Hidx) as [l' Hl'];
      [lia|].
    destruct (priv_removeAt_inv l _ l' Hwf Hidx Hl') as (Hwf' & _).
    pose proof (priv_removeAt_elements l _ l' xs Hwf Hidx Hxs Hl') as Hxs'.
    rewrite Nat2Z.id in Hxs'. exists k, l'. rewrite Hl'. done.
  - right. done.
Qed.

(** X18. [replace(old, new)] puts [new] in the place of the first
    element equal to [old] and returns true; with no such element it
    returns false and leaves the list as it was. *)
Theorem replace_first_occurrence l (in_old in_new : T) xs :
  wf l -> elements l = Some xs ->
  (exists (k : nat) l',
     replace in_old in_new l = Some (l', true) /\ xs !! k = Some in_old /\
     (forall j, (j < k)%nat -> xs !! j <> Some in_old) /\
     elements l' = Some (<[k := in_new]> xs) /\
     length l' = length l /\ capacity l' = capacity l /\ wf l') \/
  (replace in_old in_new l = Some (l, false) /\ in_old ∉ xs).
Proof.
  unfold length, capacity. intros Hwf Hxs.
  pose proof Hwf as [Hcap Hb Hs Hz Hw Hcells Hnd].
  pose proof (elements_length l xs Hxs Hz) as Hlen.
  unfold replace.
  destruct (indexOf_from_start l in_old xs Hwf Hxs)
    as [(k & -> & Hk & Hfirst)|[-> Hnot]].
  - left. apply lookup_lt_Some in Hk as Hlt. cbn [mbind option_bind].
    destruct (Z.eqb_spec (Z.of_nat k) (-1)); [lia|]. cbn [negb].
    assert (Hidx : 0 <= Z.of_nat k < m_size l) by lia.
    destruct (write_elem_spec l (Z.of_nat k) in_new Hwf)
      as (p & c & _ & Hc & Hwr); [lia|].
    destruct (write_elem_inv l _ in_new _ Hwf (proj1 Hidx) Hwr)
      as (Hwf' & Hsz' & Hcap' & _).
    pose proof (write_elem_elements l _ in_new _ xs Hwf Hidx Hxs Hwr) as Hxs'.
    rewrite Nat2Z.id in Hxs'. exists k, (set_store c l). rewrite Hwr. done.
  - right. done.
Qed.

(** X19. [takeAt(idx)] for a valid index that is the first or the last
    one, or on a list with a free cell after its window, returns the
    element at [idx] and removes it from the list. *)
Theorem takeAt_returns_and_removes l (idx : CxI32) xs :
  wf l -> 0 <= idx < length l ->
  idx = 0 \/ idx = length l - 1 \/ mp_list l + length l < capacity l ->
  elements l = Some xs ->
  exists l' x,
    takeAt idx l = Some (l', x) /\ xs !! Z.to_nat idx = Some x /\
    elements l' = Some (delete (Z.to_nat idx) xs) /\
    length l' = length l - 1 /\ wf l'.
Proof.
  unfold length, capacity. intros Hwf Hidx Hok Hxs.
  destruct (elements_read l xs idx Hxs Hidx) as (x & Hx & Hrd).
  destruct (priv_removeAt_is_Some l idx Hwf Hidx Hok) as [l' Hl'].
  destruct (priv_removeAt_inv l idx l' Hwf Hidx Hl') as (Hwf' & Hsz & _).
  exists l', x. split_and!; try done.
  - unfold takeAt. zdecide. cbn [andb]. by rewrite Hrd, Hl'.
  - exact (priv_removeAt_elements l idx l' xs Hwf Hidx Hxs Hl').
Qed.

(** X20. [takeLast] on a list that is not empty returns the last element
    and shortens the list by it; the slot the element was in holds
    [m_invalidValue] afterwards.  On an empty list it returns
    [m_invalidValue] and changes nothing. *)
Theorem takeLast_returns_last l xs :
  wf l -> elements l = Some xs ->
  (exists l' x ys,
     takeLast l = Some (l', x) /\ xs = ys ++ [x] /\
     elements l' = Some ys /\ length l' = length l - 1 /\
     operator_index (length l') l' = Some (m_invalidValue l) /\ wf l') \/
  (takeLast l = Some (l, m_invalidValue l) /\ xs = []).
Proof.
  unfold length, operator_index. intros Hwf Hxs.
  pose proof Hwf as [Hcap Hb Hs Hz Hw Hcells Hnd].
  pose proof (elements_length l xs Hxs Hz) as Hlen.
  unfold takeLast. destruct (Z.ltb_spec 0 (m_size l)) as [Hpos|Hemp].
  - left. rewrite wrap32_id by (unfold INT32_MAX in *; lia).
    destruct (elements_read l xs (m_size l - 1) Hxs) as (x & Hx & ->); [lia|].
    cbn [mbind option_bind]. fields.
    set (l1 := set_size (m_size l - 1) l).
    assert (Hwf1 : wf l1) by (split; subst l1; fields; done || lia).
    destruct (write_elem_spec l1 (m_size l - 1) (m_invalidValue l) Hwf1)
      as (p & c & _ & Hc & Hwr); [subst l1; fields; lia|].
    assert (Hnn : 0 <= m_size l - 1) by lia.
    destruct (write_elem_inv l1 _ _ _ Hwf1 Hnn Hwr)
      as (Hwf' & Hsz' & _ & _ & _ & _ & Hinv & Hrd).
    rewrite Hwr. subst l1. fields.
    exists (set_store c (set_size (m_size l - 1) l)), x,
           (take (Z.to_nat (m_size l - 1)) xs).
    split_and!; try done.
    + rewrite <- (take_drop (Z.to_nat (m_size l - 1)) xs) at 1. f_equal.
      apply list_eq. intros [|i].
      * rewrite lookup_drop, Nat.add_0_r. done.
      * rewrite lookup_drop. simpl. apply lookup_ge_None_2. lia.
    + destruct (elements_lookup _ _ Hxs) as [_ Hread].
      apply elements_of_reads.
      * rewrite length_take. fields. lia.
      * intros i y Hy. apply lookup_lt_Some in Hy as Hi.
        rewrite length_take in Hi. rewrite lookup_take_lt in Hy by lia.
        rewrite Hrd by lia. unfold read_elem, list_cell. fields.
        by apply Hread.
  - right. split; [done|]. apply nil_length_inv. lia.
Qed.

(** X21. An index outside [0, length()) changes nothing: [removeAt] and
    [replaceAt] return false, [takeAt] and [value] return
    [m_invalidValue], the two-argument [value] returns the value given
    for that case, and the list is as it was, field by field. *)
Theorem index_out_of_range l (idx : CxI32) (v : T) :
  ~ (0 <= idx < length l) ->
  removeAt idx l = Some (l, Value false) /\
  replaceAt idx v l = Some (l, false) /\
  takeAt idx l = Some (l, m_invalidValue l) /\
  value idx l = Some (m_invalidValue l) /\
  value_or idx v l = Some v.
Proof.
  unfold length. intros Hidx.
  unfold removeAt, replaceAt, takeAt, value, value_or.
  destruct (Z.leb_spec 0 idx); [|done].
  destruct (Z.ltb_spec idx (m_size l)); [lia|done].
Qed.

End ByValue.

Section RemoveAll.
Context {T : Type} `{Element T}.
Implicit Types (l : CxList T) (xs ys : list T).

(** [priv_removeAt] never moves the end of the window up. *)
Lemma priv_removeAt_window_end l (idx : CxI32) l' :
  wf l -> 0 <= idx < m_size l -> priv_removeAt idx l = Some l' ->
  mp_list l' + m_size l' <= mp_list l + m_size l.
Proof.
  intros Hwf Hidx. pose proof Hwf as [Hcap Hb Hs Hz Hw Hcells Hnd].
  unfold INT32_MAX in *. unfold priv_removeAt.
  destruct (list_cell l idx) as [ptr|]; [|done].
  cbn [mbind option_bind]. rewrite shiftr1_le by lia.
  rewrite (wrap32_id (m_size l - 1)) by (unfold INT32_MAX; lia).
  destruct (Z.eqb_spec idx 0) as [->|Hne].
  - cbn [negb mbind option_bind]. fields.
    rewrite (wrap32_id (m_size l - 1)) by (unfold INT32_MAX; lia).
    intros [= <-]. fields. lia.
  - cbn [negb].
    destruct (Z.eqb_spec idx (m_size l - 1)) as [Hlast|Hmid];
      cbn [negb mbind option_bind].
    + fields. rewrite (wrap32_id (m_size l - 1)) by (unfold INT32_MAX; lia).
      intros [= <-]. fields. lia.
    + destruct (mem_copy _ _ _ _) as [raw1|]; [|done].
      cbn [mbind option_bind].
      destruct (raw_write _ _ _) as [raw2|]; [|done].
      cbn [mbind option_bind]. fields.
      rewrite (wrap32_id (m_size l - 1)) by (unfold INT32_MAX; lia).
      intros [= <-]. fields. lia.
Qed.

Lemma removeAll_loop_spec (v : T) :
  forall (k fuel : nat) (i count : CxI32) l ys,
    wf l -> elements l = Some ys ->
    mp_list l + m_size l < m_capacity l ->
    Z.of_nat k = m_size l - i -> 0 <= i ->
    0 <= count -> count + m_size l <= INT32_MAX ->
    (k + 1 <= fuel)%nat ->
    exists l',
      removeAll_loop fuel v i count l
      = Finished (l', count + occurrences v (drop (Z.to_nat i) ys)) /\
      wf l' /\ m_capacity l' = m_capacity l /\
      elements l'
      = Some (take (Z.to_nat i) ys
              ++ filter (fun x => T_eq x v = false) (drop (Z.to_nat i) ys)).
Proof.
  induction k as [|k IH];
    intros fuel i count l ys Hwf Hys Hslack Hk Hi Hcount Hfit Hfuel.
  - destruct fuel as [|fuel]; [lia|]. simpl.
    destruct (Z.ltb_spec i (m_size l)); [lia|].
    destruct (elements_lookup _ _ Hys) as [Hlen _].
    rewrite drop_ge, take_ge by lia. simpl. rewrite app_nil_r, Z.add_0_r.
    by exists l.
  - destruct fuel as [|fuel]; [lia|].
    pose proof Hwf as [Hcap Hb Hs Hz Hw Hcells Hnd].
    destruct (elements_lookup _ _ Hys) as [Hlen Hread].
    destruct (lookup_lt_is_Some_2 ys (Z.to_nat i)) as [x Hx]; [lia|].
    pose proof (Hread _ _ Hx) as Hrx. rewrite Z2Nat.id in Hrx by lia.
    rewrite (drop_S _ _ _ Hx). cbn [occurrences].
    assert (Hnext : Z.to_nat (i + 1) = Datatypes.S (Z.to_nat i)) by lia.
    cbn [removeAll_loop]. destruct (Z.ltb_spec i (m_size l)); [|lia].
    rewrite Hrx. destruct (T_eq x v) eqn:Hxv.
    + rewrite filter_cons_False by (by rewrite Hxv).
      assert (Hidx : 0 <= i < m_size l) by lia.
      destruct (priv_removeAt_is_Some l i Hwf Hidx) as [l1 Hl1]; [lia|].
      rewrite Hl1.
      destruct (priv_removeAt_inv l i l1 Hwf Hidx Hl1)
        as (Hwf1 & Hsz1 & Hcap1 & _).
      pose proof (priv_removeAt_window_end l i l1 Hwf Hidx Hl1) as Hend1.
      pose proof (priv_removeAt_elements l i l1 ys Hwf Hidx Hys Hl1) as Hys1.
      rewrite (wrap32_id (count + 1)) by (unfold INT32_MAX in *; lia).
      destruct (IH fuel i (count + 1) l1 (delete (Z.to_nat i) ys))
        as (l' & Hl' & Hwf' & Hcap' & Hys');
        [done|done|lia|lia|lia|lia|lia|lia|].
      exists l'. rewrite Hl', Hys'. rewrite delete_take_drop.
      rewrite take_app_length', drop_app_length'
        by (rewrite length_take; lia).
      split_and!; [f_equal; f_equal; lia|done|lia|done].
    + rewrite filter_cons_True by done.
      rewrite (wrap32_id (i + 1)) by (unfold INT32_MAX in *; lia).
      destruct (IH fuel (i + 1) count l ys)
        as (l' & Hl' & Hwf' & Hcap' & Hys');
        [done|done|lia|lia|lia|lia|lia|lia|].
      exists l'. rewrite Hl', Hys', Hnext.
      rewrite (take_S_r _ _ x) by done. rewrite <- app_assoc.
      split_and!; [f_equal; f_equal; lia|done..].
Qed.

(** X22. [removeAll(v)] on a list with a free cell after its window
    ends: the elements equal to [v] are gone, the others are left in
    their order, and the number returned is the number of elements that
    were equal to [v]. *)
Theorem removeAll_removes_and_counts l (v : T) xs :
  wf l -> mp_list l + length l < capacity l -> elements l = Some xs ->
  exists fuel l',
    removeAll fuel v l = Finished (l', occurrences v xs) /\
    elements l' = Some (filter (fun x => T_eq x v = false) xs) /\
    length l' = length l - occurrences v xs /\
    capacity l' = capacity l /\ wf l'.
Proof.
  unfold length, capacity. intros Hwf Hslack Hxs.
  pose proof Hwf as [Hcap Hb Hs Hz Hw Hcells Hnd].
  destruct (removeAll_loop_spec v (Z.to_nat (m_size l))
              (Z.to_nat (m_size l) + 1) 0 0 l xs)
    as (l' & Hl' & Hwf' & Hcap' & Hxs'); [done|done|lia|lia|lia|lia|lia|lia|].
  change (Z.to_nat 0) with O in *. rewrite drop_0, take_0 in *.
  simpl in Hxs'. exists (Z.to_nat (m_size l) + 1)%nat, l'.
  split_and!; try done.
  pose proof (elements_length _ _ Hxs Hz) as Hlen.
  pose proof (elements_length _ _ Hxs' (wf_size _ Hwf')) as Hlen'.
  clear -Hlen Hlen'. revert Hlen Hlen'. generalize (m_size l) (m_size l').
  induction xs as [|x xs IH]; intros n n'; simpl.
  - lia.
  - destruct (T_eq x v) eqn:Hxv.
    + rewrite filter_cons_False by (by rewrite Hxv). intros.
      specialize (IH (n - 1) n'). lia.
    + rewrite filter_cons_True by done. simpl. intros.
      specialize (IH (n - 1) (n' - 1)). lia.
Qed.

End RemoveAll.

Section Filling.
Context {T : Type} `{Element T}.
Implicit Types (l : CxList T) (xs ys : list T).

(** What [reserve] leaves of a list, field by field. *)
Lemma reserve_spec l (n : CxI32) :
  wf l -> n <= INT32_MAX ->
  exists l',
    reserve n l = Some l' /\ wf l' /\
    m_size l' = m_size l /\ mp_list l' = mp_list l /\
    m_capacity l' = Z.max (m_capacity l) n /\
    m_invalidValue l' = m_invalidValue l /\
    forall i, 0 <= i -> mp_list l + i < m_capacity l ->
              read_elem l' i = read_elem l i.
Proof.
  intros Hwf Hn. unfold reserve.
  destruct (Z.ltb_spec (m_capacity l) n) as [Hgrow|Hfits].
  - assert (Hb : m_capacity l <= n <= INT32_MAX) by lia.
    destruct (resizeToCapacity n l) as [l'|] eqn:Hres;
      [|by rewrite resizeToCapacity_spec in Hres].
    pose proof (resizeToCapacity_wf _ _ _ Hwf Hb Hres) as Hwf'.
    assert (Hrd : forall i, 0 <= i -> mp_list l + i < m_capacity l ->
                            read_elem l' i = read_elem l i).
    { intros i Hi Hlt. by eapply resizeToCapacity_read. }
    exists l'. rewrite resizeToCapacity_spec in Hres by done.
    injection Hres as <-. fields. split_and!; try done. lia.
  - exists l. split_and!; try done. lia.
Qed.

(** A loop that writes one value to each of [n] cells from [base] on. *)
Lemma write_loop (P : Z -> T -> Prop) l (body : Z -> CxList T -> option (CxList T))
    (base n : Z) :
  wf l -> 0 <= base -> 0 <= n -> mp_list l + base + n <= m_capacity l ->
  (forall j s, 0 <= j < n ->
     exists x, P j x /\ body j s = write_elem (base + j) x s) ->
  exists l',
    for_range 0 n body l = Some l' /\ wf l' /\
    m_size l' = m_size l /\ mp_list l' = mp_list l /\
    m_capacity l' = m_capacity l /\
    m_invalidValue l' = m_invalidValue l /\
    (forall i, 0 <= i < n ->
       exists x, P i x /\ read_elem l' (base + i) = Some x) /\
    (forall i, 0 <= i -> ~ (base <= i < base + n) ->
       read_elem l' i = read_elem l i).
Proof.
  intros Hwf Hbase Hn Hroom Hbody.
  destruct (for_range_inv
    (fun j s =>
       wf s /\ m_size s = m_size l /\ mp_list s = mp_list l /\
       m_capacity s = m_capacity l /\
       m_invalidValue s = m_invalidValue l /\
       (forall i, 0 <= i < j ->
          exists x, P i x /\ read_elem s (base + i) = Some x) /\
       (forall i, 0 <= i -> ~ (base <= i < base + j) ->
          read_elem s i = read_elem l i))
    0 n body l) as (l' & Hl' & HP); [lia| |..].
  - split_and!; try done. intros i Hi. lia.
  - intros j s Hj (Hwfs & Hsz & Hst & Hcap & Hinv & Hnew & Hold).
    destruct (Hbody j s Hj) as (x & Hx & ->).
    pose proof (wf_start s Hwfs) as Hs0.
    destruct (write_elem_spec s (base + j) x Hwfs) as (p & c & _ & _ & Hwr);
      [lia|].
    assert (Hnn : 0 <= base + j) by lia.
    destruct (write_elem_inv s _ x _ Hwfs Hnn Hwr)
      as (Hwf' & Hsz' & Hcap' & Hst' & Hinv' & _ & Hv & Hrd).
    exists (set_store c s). split; [done|].
    split_and!; try congruence.
    + intros i Hi. destruct (decide (i = j)) as [->|Hne].
      * by exists x.
      * rewrite Hrd by lia. apply Hnew. lia.
    + intros i Hi Hout. rewrite Hrd by lia. apply Hold; lia.
  - exists l'. done.
Qed.

(** What [resize] leaves of a list, field by field. *)
Lemma resize_spec l (n : CxI32) :
  wf l -> 0 <= n <= INT32_MAX -> mp_list l + n <= Z.max (m_capacity l) n ->
  exists l',
    resize n l = Some l' /\ wf l' /\
    m_size l' = n /\ mp_list l' = mp_list l /\
    m_capacity l' = Z.max (m_capacity l) n /\
    m_invalidValue l' = m_invalidValue l /\
    forall i, 0 <= i -> mp_list l + i < m_capacity l ->
              read_elem l' i = read_elem l i.
Proof.
  intros Hwf Hn Hroom.
  destruct (reserve_spec l n Hwf (proj2 Hn))
    as (l0 & Hl0 & Hwf0 & Hsz0 & Hst0 & Hcap0 & Hinv0 & Hrd0).
  unfold resize. unfold reserve in Hl0. rewrite Hl0.
  cbn [mbind option_bind]. exists (set_size n l0).
  split_and!; fields; try done.
  destruct Hwf0. split; fields; done || lia.
Qed.

(** X23. [resize(n)] to a length the list has already keeps the first
    [n] elements and the capacity; no cell and no slot is touched. *)
Theorem resize_shorter_keeps_prefix l (n : CxI32) xs :
  wf l -> 0 <= n <= length l -> elements l = Some xs ->
  exists l',
    resize n l = Some l' /\ wf l' /\ length l' = n /\
    capacity l' = capacity l /\
    elements l' = Some (take (Z.to_nat n) xs).
Proof.
  unfold length, capacity. intros Hwf Hn Hxs.
  pose proof Hwf as [Hcap Hb Hs Hz Hw Hcells Hnd].
  destruct (resize_spec l n Hwf)
    as (l' & Hl' & Hwf' & Hsz & Hst & Hcap' & _ & Hrd); [lia..|].
  exists l'. split_and!; [done..|lia|].
  destruct (elements_lookup _ _ Hxs) as [Hlen Hread].
  apply elements_of_reads.
  - rewrite length_take. lia.
  - intros i x Hx. apply lookup_lt_Some in Hx as Hi.
    rewrite length_take in Hi. rewrite lookup_take_lt in Hx by lia.
    rewrite Hrd by lia. by apply Hread.
Qed.

Lemma fill_spec l (v : T) (n : CxI32) :
  wf l -> 0 <= n <= INT32_MAX -> n <> -1 ->
  mp_list l + n <= Z.max (m_capacity l) n ->
  exists l',
    fill v n l = Some l' /\ wf l' /\ m_size l' = n /\
    m_capacity l' = Z.max (m_capacity l) n /\
    elements l' = Some (replicate (Z.to_nat n) v).
Proof.
  intros Hwf Hn Hne Hroom. unfold fill.
  destruct (Z.eqb_spec n (-1)); [done|].
  destruct (resize_spec l n Hwf Hn Hroom)
    as (l0 & -> & Hwf0 & Hsz0 & Hst0 & Hcap0 & _ & _).
  cbn [mbind option_bind].
  destruct (write_loop (fun _ x => x = v) l0
              (fun i s => write_elem i v s) 0 n)
    as (l' & Hl' & Hwf' & Hsz' & _ & Hcap' & _ & Hnew & _);
    [done|lia|lia|lia| |].
  { intros j s Hj. by exists v. }
  exists l'. split_and!; [done|done|lia|lia|].
  apply elements_of_reads.
  - rewrite length_replicate. lia.
  - intros i x [-> Hi]%lookup_replicate.
    destruct (Hnew (Z.of_nat i)) as (? & -> & Hrd); [lia|]. done.
Qed.

(** X24. [fill(v, n)] makes the list [n] elements long, all of them [v],
    when the window has [n] cells from its start on, in the array as it
    is or as it grows; [fill(v)] replaces every element of the list by
    [v]. *)
Theorem fill_replicates l (v : T) (n : CxI32) :
  wf l ->
  n = -1 \/
  0 <= n <= INT32_MAX /\ mp_list l + n <= Z.max (capacity l) n ->
  exists l',
    fill v n l = Some l' /\ wf l' /\
    elements l'
    = Some (replicate (Z.to_nat (if n =? -1 then length l else n)) v).
Proof.
  unfold length, capacity. intros Hwf Hn.
  pose proof Hwf as [Hcap Hb Hs Hz Hw Hcells Hnd].
  destruct (Z.eqb_spec n (-1)) as [->|Hne].
  - destruct (Z.eq_dec (m_size l) (-1)) as [|Hm]; [lia|].
    destruct (fill_spec l v (m_size l) Hwf)
      as (l' & Hl' & Hwf' & _ & _ & Hxs'); [lia..|].
    exists l'. split_and!; try done.
    unfold fill in *. change (-1 =? -1) with true.
    destruct (Z.eqb_spec (m_size l) (-1)); [lia|done].
  - destruct Hn as [|[Hn Hroom]]; [done|].
    destruct (fill_spec l v n Hwf Hn Hne Hroom)
      as (l' & Hl' & Hwf' & _ & _ & Hxs').
    by exists l'.
Qed.

(** X25. [CxList(n, v)] is a list of [n] elements, all of them [v]. *)
Theorem CxList_filled_replicates (n : CxI32) (v : T) :
  0 <= n <= INT32_MAX ->
  exists l,
    CxList_filled n v = Some l /\ wf l /\ length l = n /\ capacity l = n /\
    elements l = Some (replicate (Z.to_nat n) v).
Proof.
  unfold length, capacity. intros Hn. unfold CxList_filled.
  destruct (resize_spec null_list n null_list_wf Hn)
    as (l0 & Hl0 & Hwf0 & Hsz0 & Hst0 & Hcap0 & _ & _);
    [cbn [null_list mp_list m_capacity]; lia|].
  cbn [null_list mp_list m_capacity] in *.
  unfold initialise. rewrite Hl0. cbn [mbind option_bind].
  pose proof Hwf0 as [Hcap Hb Hs Hz Hw Hcells Hnd].
  destruct (fill_spec l0 v n Hwf0 Hn) as (l' & Hl' & Hwf' & Hsz' & Hcap' & Hxs');
    [lia..|].
  exists l'. split_and!; try done; [|lia].
  unfold fill in *. rewrite Hsz0. change (-1 =? -1) with true.
  destruct (Z.eqb_spec n (-1)); [lia|done].
Qed.

End Filling.

Section Copying.
Context {T : Type} `{Element T}.
Implicit Types (l : CxList T) (xs ys : list T).

(** X26. [append(list)] of another list puts its elements after the
    elements of this one, when the window has the cells for them from
    its start on, in the array as it is or as it grows; the list of the
    default constructor is such a list. *)
Theorem append_list_concatenates l src xs ys :
  wf l -> wf src -> elements l = Some xs -> elements src = Some ys ->
  length l + length src <= INT32_MAX ->
  mp_list l + length l + length src
    <= Z.max (capacity l) (length l + length src) ->
  exists l',
    append_list src l = Some l' /\ wf l' /\
    length l' = length l + length src /\
    capacity l' = Z.max (capacity l) (length l + length src) /\
    elements l' = Some (xs ++ ys).
Proof.
  unfold length, capacity. intros Hwf Hwfs Hxs Hys Hfit Hroom.
  pose proof Hwf as [Hcap Hb Hs Hz Hw Hcells Hnd].
  pose proof (wf_size src Hwfs) as Hzs.
  destruct (elements_lookup _ _ Hxs) as [Hlx Hrx].
  destruct (elements_lookup _ _ Hys) as [Hly Hry].
  unfold append_list.
  rewrite (wrap32_id (m_size l + m_size src)) by (unfold INT32_MAX in *; lia).
  destruct (reserve_spec l (m_size l + m_size src) Hwf Hfit)
    as (l1 & Hl1 & Hwf1 & Hsz1 & Hst1 & Hcap1 & _ & Hrd1).
  unfold reserve in Hl1. rewrite Hl1. cbn [mbind option_bind].
  destruct (write_loop (fun j x => ys !! Z.to_nat j = Some x) l1
              (fun i s => x ← read_elem src i; write_elem (m_size l1 + i) x s)
              (m_size l1) (m_size src))
    as (l2 & Hl2 & Hwf2 & Hsz2 & Hst2 & Hcap2 & _ & Hnew & Hold);
    [done|lia|lia|lia| |].
  { intros j s Hj. destruct (elements_read src ys j Hys Hj) as (x & Hx & ->).
    by exists x. }
  rewrite Hl2. cbn [mbind option_bind].
  rewrite wrap32_id by (unfold INT32_MAX in *; lia).
  eexists. split; [done|]. fields. split_and!; [|lia|lia|].
  - destruct Hwf2. split; fields; done || lia.
  - apply elements_of_reads.
    + rewrite length_app. fields. lia.
    + intros i x Hx. unfold read_elem, list_cell. fields.
      change (read_elem l2 (Z.of_nat i) = Some x).
      destruct (decide (i < Datatypes.length xs)%nat) as [Hi|Hi].
      * rewrite lookup_app_l in Hx by done.
        rewrite Hold, Hrd1 by lia. by apply Hrx.
      * rewrite lookup_app_r in Hx by lia.
        apply lookup_lt_Some in Hx as Hlt.
        destruct (Hnew (Z.of_nat (i - Datatypes.length xs)))
          as (x' & Hx' & Hrd); [lia|].
        rewrite Nat2Z.id in Hx'. assert (x' = x) as -> by congruence.
        rewrite <- Hrd. f_equal. lia.
Qed.

(** A list of one block whose cell [i] points at slot [i]. *)
Lemma single_block_wf ys (inv : T) (cap off n : Z) :
  0 <= off -> 0 <= n -> off + n <= cap <= INT32_MAX ->
  Z.of_nat (Datatypes.length ys) = cap ->
  wf (mkList (block_cells 0 0 (Z.to_nat cap)) off [mkStore ys cap] inv cap n).
Proof.
  intros Hoff Hn Hcap Hlen. split; fields; try lia.
  - rewrite block_cells_length. lia.
  - intros i c Hc.
    apply list_elem_of_lookup_2, block_cells_elem in Hc as (j & -> & Hj).
    simpl. unfold deref. simpl. apply lookup_lt_is_Some_2. lia.
  - apply block_cells_NoDup.
Qed.

Lemma single_block_elements ys (inv : T) (cap off n : Z) :
  0 <= off -> 0 <= n -> off + n <= cap ->
  Z.of_nat (Datatypes.length ys) = cap ->
  elements (mkList (block_cells 0 0 (Z.to_nat cap)) off [mkStore ys cap]
                   inv cap n)
  = Some (take (Z.to_nat n) (drop (Z.to_nat off) ys)).
Proof.
  intros Hoff Hn Hcap Hlen. apply elements_of_reads.
  - rewrite length_take, length_drop. fields. lia.
  - intros i x Hx. apply lookup_lt_Some in Hx as Hi.
    rewrite length_take, length_drop in Hi.
    rewrite lookup_take_lt, lookup_drop in Hx by lia.
    rewrite read_elem_rawZ by (fields; lia). fields.
    rewrite block_cells_lookup by lia. simpl. unfold deref. simpl.
    rewrite <- Hx. f_equal. lia.
Qed.

(** The cells of a list lead to its elements. *)
Lemma wf_cell_values l :
  wf l ->
  exists ys,
    Z.of_nat (Datatypes.length ys) = m_capacity l /\
    (forall (i : nat) x, ys !! i = Some x ->
       exists p, mp_raw l !! i = Some (Some p) /\
                 deref p (mp_store l) = Some x) /\
    elements l
    = Some (take (Z.to_nat (m_size l)) (drop (Z.to_nat (mp_list l)) ys)).
Proof.
  intros Hwf. pose proof Hwf as [Hcap Hb Hs Hz Hw Hcells Hnd].
  assert (is_Some (mapM (load (mp_store l)) (mp_raw l))) as [ys Hys].
  { apply mapM_is_Some, Forall_lookup. intros i c Hc. by eapply Hcells. }
  apply mapM_Some_1 in Hys as Hall. apply length_mapM in Hys as Hlen.
  exists ys. split_and!; [lia| |].
  - intros i x Hx.
    destruct (Forall2_lookup_r _ _ _ _ _ Hall Hx) as ([p|] & Hc & Hv);
      [|done].
    by exists p.
  - rewrite elements_window by lia. apply mapM_Some_2. unfold window.
    by apply Forall2_take, Forall2_drop.
Qed.

(** The loop of [operator=]: cell by cell, the pointer array is pointed
    at the new block and the value the source cell leads to is copied. *)
Lemma assign_loop (src : CxList T) ys (n : Z) :
  0 <= n -> Z.of_nat (Datatypes.length ys) = n ->
  (forall (i : nat) x, ys !! i = Some x ->
     exists p, mp_raw src !! i = Some (Some p) /\
               deref p (mp_store src) = Some x) ->
  for_range 0 n
    (fun i '(c, r) =>
       r' ← raw_write i (mkPtr 0 (Z.to_nat i)) r;
       p ← raw_read (mp_raw src) i;
       x ← deref p (mp_store src);
       c' ← assign (mkPtr 0 (Z.to_nat i)) x c;
       Some (c', r'))
    ([mkStore (replicate (Z.to_nat n) T_default) n],
     replicate (Z.to_nat n) None)
  = Some ([mkStore ys n], block_cells 0 0 (Z.to_nat n)).
Proof.
  intros Hn Hlen Hcells.
  set (body := fun (i : Z) '(c, r) =>
    r' ← raw_write i (mkPtr 0 (Z.to_nat i)) r;
    p ← raw_read (mp_raw src) i;
    x ← deref p (mp_store src);
    c' ← assign (mkPtr 0 (Z.to_nat i)) x c;
    Some (c', r')).
  destruct (for_range_inv
    (fun j (s : list (CxListStore T) * list Cell) =>
       s = ([mkStore (take (Z.to_nat j) ys
                      ++ replicate (Z.to_nat (n - j)) T_default) n],
            block_cells 0 0 (Z.to_nat j)
            ++ replicate (Z.to_nat (n - j)) None))
    0 n body
    ([mkStore (replicate (Z.to_nat n) T_default) n],
     replicate (Z.to_nat n) None)) as (s & Hs & HP).
  - lia.
  - by rewrite Z.sub_0_r.
  - intros j s Hj ->. eexists. split; [|reflexivity]. unfold body.
    destruct (lookup_lt_is_Some_2 ys (Z.to_nat j)) as [x Hx]; [lia|].
    destruct (Hcells _ _ Hx) as (p & Hp & Hd).
    rewrite raw_write_Some
      by (rewrite length_app, block_cells_length, length_replicate; lia).
    cbn [mbind option_bind].
    rewrite (raw_read_lookup _ _ p) by (lia || done).
    cbn [mbind option_bind]. rewrite Hd. cbn [mbind option_bind].
    unfold assign.
    cbn [blk slot lookup list_lookup mbind option_bind store size].
    rewrite decide_True
      by (rewrite length_app, length_take, length_replicate; lia).
    cbn [mbind option_bind insert list_insert]. do 3 f_equal.
    + replace (Z.to_nat (n - j)) with (Datatypes.S (Z.to_nat (n - (j + 1))))
        by lia.
      replace (Z.to_nat j)
        with (Datatypes.length (take (Z.to_nat j) ys) + 0)%nat at 1
        by (rewrite length_take; lia).
      rewrite insert_app_r. simpl.
      replace (Z.to_nat (j + 1)) with (Datatypes.S (Z.to_nat j)) by lia.
      rewrite (take_S_r _ _ _ Hx). by rewrite <- app_assoc.
    + replace (Z.to_nat (n - j)) with (Datatypes.S (Z.to_nat (n - (j + 1))))
        by lia.
      replace (Z.to_nat j)
        with (Datatypes.length (block_cells 0 0 (Z.to_nat j)) + 0)%nat at 1
        by (rewrite block_cells_length; lia).
      rewrite insert_app_r. simpl.
      replace (Z.to_nat (j + 1)) with (Datatypes.S (Z.to_nat j)) by lia.
      rewrite block_cells_snoc. by rewrite <- app_assoc.
  - fold body. rewrite Hs, HP. rewrite Z.sub_diag. simpl.
    rewrite !app_nil_r. by rewrite take_ge by lia.
Qed.

Lemma operator_assign_spec src l :
  wf src ->
  exists l',
    operator_assign src l = Some l' /\ wf l' /\
    m_size l' = m_size src /\ m_capacity l' = m_capacity src /\
    mp_list l' = mp_list src /\ m_invalidValue l' = m_invalidValue l /\
    elements l' = elements src.
Proof.
  intros Hwf. pose proof Hwf as [Hcap Hb Hs Hz Hw Hcells Hnd].
  destruct (wf_cell_values src Hwf) as (ys & Hlen & Hys & Hxs).
  unfold operator_assign.
  destruct (Z.ltb_spec 0 (m_capacity src)) as [Hpos|Hzero].
  - unfold mem_alloc, CxListStore_new, new_array. zdecide.
    cbn [mbind option_bind].
    rewrite (assign_loop src ys (m_capacity src)) by (lia || done).
    cbn [mbind option_bind]. eexists. split; [done|]. fields.
    split_and!; try done.
    + apply single_block_wf; lia.
    + rewrite Hxs. apply single_block_elements; lia.
  - eexists. split; [done|]. unfold clear, freeStorage. fields.
    assert (m_capacity src = 0) as Hc0 by lia.
    assert (m_size src = 0) as Hz0 by lia.
    rewrite Hc0, Hz0. split_and!; try done.
    + split; fields; try done; try (unfold INT32_MAX; lia). apply NoDup_nil_2.
    + lia.
    + rewrite Hxs, Hz0. done.
Qed.

(** X27. The copy constructor makes a list with the elements, the length
    and the capacity of its source, and the two lists are equal by
    [operator==]. *)
Theorem CxList_copy_same_elements src xs :
  wf src -> elements src = Some xs ->
  exists l',
    CxList_copy src = Some l' /\ wf l' /\
    elements l' = Some xs /\
    length l' = length src /\ capacity l' = capacity src /\
    operator_eq l' src = Some true.
Proof.
  unfold length, capacity. intros Hwf Hxs.
  destruct (operator_assign_spec src null_list Hwf)
    as (l' & Hl' & Hwf' & Hsz & Hcap & _ & _ & Hxs').
  exists l'. rewrite Hxs in Hxs'. split_and!; try done.
  unfold operator_eq. rewrite Hsz, Z.eqb_refl. rewrite <- Hsz.
  destruct (compare_loop l' src xs xs false true Hwf' Hxs' Hxs Hsz)
    as (r & Hr & [[_ ->]|[? _]]); done.
Qed.

End Copying.

Section Compacting.
Context {T : Type} `{Element T}.
Implicit Types (l : CxList T) (xs ys : list T).




(** X29. [CxList(array, n, copy)] is a list of the [n] elements of the
    array, in their order, whether the array is adopted or copied. *)
Theorem CxList_array_elements (arr : list T) (n : CxI32) (copy : CxCopy) :
  0 < n <= INT32_MAX -> Z.of_nat (Datatypes.length arr) = n ->
  copy = kCxNoCopy \/ copy = kCxCopy ->
  exists l,
    CxList_array arr n copy = Some l /\ wf l /\
    elements l = Some arr /\ length l = n /\ capacity l = n.
Proof.
  intros Hn Hlen Hcopy. exists (adopted arr n). split_and!.
  - destruct Hcopy as [->| ->].
    + apply CxList_array_NoCopy. lia.
    + apply CxList_array_Copy; [lia|done].
  - apply adopted_wf; [lia|done].
  - apply adopted_elements; [lia|done].
  - done.
  - done.
Qed.


End Compacting.

(** ** Examples *)

Lemma sample_full_wf : wf sample_full.
Proof. apply adopted_wf; [unfold INT32_MAX; lia|reflexivity]. Qed.

Lemma sample_slack_wf : wf sample_slack.
Proof.
  apply removeLast_wf, adopted_wf; [unfold INT32_MAX; lia|reflexivity].
Qed.

Lemma sample_tail_wf : wf sample_tail.
Proof.
  apply removeFirst_wf, adopted_wf; [unfold INT32_MAX; lia|reflexivity].
Qed.

Lemma sample_mid_wf : wf sample_mid.
Proof.
  apply removeFirst_wf, removeLast_wf, adopted_wf;
    [unfold INT32_MAX; lia|reflexivity].
Qed.

Lemma sample_empty_wf : wf sample_empty.
Proof.
  apply removeLast_wf, adopted_wf; [unfold INT32_MAX; lia|reflexivity].
Qed.

(** X1 at [reserve(8)] on [1, 5, 2, 5, 3]. *)
Lemma reserve_keeps_elements_witness :
  wf sample_full /\
  8 <= INT32_MAX /\
  (exists l',
      reserve 8 sample_full = Some l' /\ wf l' /\
      capacity l' = Z.max (capacity sample_full) 8 /\
      length l' = length sample_full /\ elements l' = elements sample_full).
Proof.
  assert (H1 : wf sample_full) by (exact sample_full_wf).
  assert (H2 : 8 <= INT32_MAX) by (by_evaluation).
  exact (conj H1 (conj H2
    (reserve_keeps_elements (T:=CxI32) sample_full 8 H1 H2))).
Defined.

(** X2 at [append(8)], [append(9)] on [1, 5, 2, 5, 3]. *)
Lemma appends_in_order_witness :
  wf sample_full /\
  mp_list sample_full = 0 /\
  1 <= capacity sample_full /\
  2 * (length sample_full + Z.of_nat (Datatypes.length [8; 9])) <= INT32_MAX /\
  elements sample_full = Some [1; 5; 2; 5; 3] /\
  (exists l',
      appends [8; 9] sample_full = Some l' /\ wf l' /\
      length l' = length sample_full + Z.of_nat (Datatypes.length [8; 9]) /\
      elements l' = Some ([1; 5; 2; 5; 3] ++ [8; 9])).
Proof.
  assert (H1 : wf sample_full) by (exact sample_full_wf).
  assert (H2 : mp_list sample_full = 0) by (by_evaluation).
  assert (H3 : 1 <= capacity sample_full) by (by_evaluation).
  assert (H4 : 2 * (length sample_full + Z.of_nat (Datatypes.length [8; 9]))
      <= INT32_MAX) by (by_evaluation).
  assert (H5 : elements sample_full = Some [1; 5; 2; 5; 3]) by (by_evaluation).
  exact (conj H1 (conj H2 (conj H3 (conj H4 (conj H5
    (appends_in_order (T:=CxI32) [8; 9] sample_full [1; 5; 2; 5; 3] H1 H2 H3
        H4 H5)))))).
Defined.

(** X3 at [insert(2, 9)] on [1, 5, 2, 5, 3], a full list. *)
Lemma insert_places_element_witness :
  wf sample_full /\
  0 <= 2 <= length sample_full /\
  (~ (mp_list sample_full = 0 /\ length sample_full = 0)) /\
  (length sample_full = capacity sample_full -> capacity sample_full * 2 <=
      INT32_MAX) /\
  elements sample_full = Some [1; 5; 2; 5; 3] /\
  (exists l',
      insert 2 9 sample_full = Some l' /\ wf l' /\ length l' = length
          sample_full + 1 /\
      elements l'
      = Some (take (Z.to_nat 2) [1; 5; 2; 5; 3] ++ 9 :: drop (Z.to_nat 2) [1;
          5; 2; 5; 3])).
Proof.
  assert (H1 : wf sample_full) by (exact sample_full_wf).
  assert (H2 : 0 <= 2 <= length sample_full) by (by_evaluation).
  assert (H3 : ~ (mp_list sample_full = 0 /\ length sample_full = 0)) by
      (by_evaluation).
  assert (H4 : (length sample_full = capacity sample_full -> capacity
      sample_full * 2 <= INT32_MAX)) by (by_evaluation).
  assert (H5 : elements sample_full = Some [1; 5; 2; 5; 3]) by (by_evaluation).
  exact (conj H1 (conj H2 (conj H3 (conj H4 (conj H5
    (insert_places_element (T:=CxI32) sample_full 2 9 [1; 5; 2; 5; 3] H1 H2 H3
        H4 H5)))))).
Defined.

(** X4 at [insert(0, 9)] on an empty list of capacity 1. *)
Lemma insert_into_empty_list_at_start_witness :
  wf sample_empty /\
  mp_list sample_empty = 0 /\
  length sample_empty = 0 /\
  (insert 0 9 sample_empty = None).
Proof.
  assert (H1 : wf sample_empty) by (exact sample_empty_wf).
  assert (H2 : mp_list sample_empty = 0) by (by_evaluation).
  assert (H3 : length sample_empty = 0) by (by_evaluation).
  exact (conj H1 (conj H2 (conj H3
    (insert_into_empty_list_at_start (T:=CxI32) sample_empty 9 H1 H2 H3)))).
Defined.

(** X5 at [removeAt(1)] on [1, 5, 2, 5, 3] with a free cell at the end. *)
Lemma removeAt_removes_element_witness :
  wf sample_slack /\
  0 <= 1 < length sample_slack /\
  (1 = 0 \/ 1 = length sample_slack - 1 \/ mp_list sample_slack + length
      sample_slack < capacity sample_slack) /\
  elements sample_slack = Some [1; 5; 2; 5; 3] /\
  (exists l',
      removeAt 1 sample_slack = Some (l', NoReturn) /\ wf l' /\
      length l' = length sample_slack - 1 /\ capacity l' = capacity
          sample_slack /\
      elements l' = Some (delete (Z.to_nat 1) [1; 5; 2; 5; 3])).
Proof.
  assert (H1 : wf sample_slack) by (exact sample_slack_wf).
  assert (H2 : 0 <= 1 < length sample_slack) by (by_evaluation).
  assert (H3 : 1 = 0 \/ 1 = length sample_slack - 1 \/ mp_list sample_slack +
      length sample_slack < capacity sample_slack) by (right; right;
      vm_compute; reflexivity).
  assert (H4 : elements sample_slack = Some [1; 5; 2; 5; 3]) by (by_evaluation).
  exact (conj H1 (conj H2 (conj H3 (conj H4
    (removeAt_removes_element (T:=CxI32) sample_slack 1 [1; 5; 2; 5; 3] H1 H2
        H3 H4))))).
Defined.

(** X6 at [removeAt(1)] on [1, 5, 2, 5, 3], a full list. *)
Lemma priv_removeAt_reads_past_array_witness :
  wf sample_full /\
  0 < 1 < length sample_full - 1 /\
  mp_list sample_full + length sample_full = capacity sample_full /\
  (priv_removeAt 1 sample_full = None /\ removeAt 1 sample_full = None).
Proof.
  assert (H1 : wf sample_full) by (exact sample_full_wf).
  assert (H2 : 0 < 1 < length sample_full - 1) by (by_evaluation).
  assert (H3 : mp_list sample_full + length sample_full = capacity
      sample_full) by (by_evaluation).
  exact (conj H1 (conj H2 (conj H3
    (priv_removeAt_reads_past_array (T:=CxI32) sample_full 1 H1 H2 H3)))).
Defined.

(** X7 at [insert(2, 9)] and [removeAt(2)] on [1, 5, 2, 5, 3] with a free cell at either end. *)
Lemma insert_then_removeAt_restores_witness :
  wf sample_mid /\
  0 <= 2 <= length sample_mid /\
  insert 2 9 sample_mid = Some (mkList ((Some ∘ mkPtr 0) <$> [1; 2; 0; 3; 4;
      5; 6]%nat) 0 [mkStore [9; 1; 5; 2; 5; 3; 7] 7] 0 7 6) /\
  removeAt 2 (mkList ((Some ∘ mkPtr 0) <$> [1; 2; 0; 3; 4; 5; 6]%nat) 0
      [mkStore [9; 1; 5; 2; 5; 3; 7] 7] 0 7 6) = Some ((mkList ((Some ∘ mkPtr
      0) <$> [1; 2; 3; 4; 5; 0; 6]%nat) 0 [mkStore [9; 1; 5; 2; 5; 3; 7] 7] 0
      7 5), NoReturn) /\
  (length (mkList ((Some ∘ mkPtr 0) <$> [1; 2; 3; 4; 5; 0; 6]%nat) 0
        [mkStore [9; 1; 5; 2; 5; 3; 7] 7] 0 7 5) = length sample_mid /\
            elements (mkList ((Some ∘ mkPtr 0) <$> [1; 2; 3; 4; 5; 0; 6]%nat) 0
        [mkStore [9; 1; 5; 2; 5; 3; 7] 7] 0 7 5) = elements sample_mid /\
    (forall i, value i (mkList ((Some ∘ mkPtr 0) <$> [1; 2; 3; 4; 5; 0;
        6]%nat) 0
        [mkStore [9; 1; 5; 2; 5; 3; 7] 7] 0 7 5) = value i sample_mid)).
Proof.
  assert (H1 : wf sample_mid) by (exact sample_mid_wf).
  assert (H2 : 0 <= 2 <= length sample_mid) by (by_evaluation).
  assert (H3 : insert 2 9 sample_mid = Some (mkList ((Some ∘ mkPtr 0) <$> [1;
      2; 0; 3; 4; 5; 6]%nat) 0 [mkStore [9; 1; 5; 2; 5; 3; 7] 7] 0 7 6)) by
      (by_evaluation).
  assert (H4 : removeAt 2 (mkList ((Some ∘ mkPtr 0) <$> [1; 2; 0; 3; 4; 5;
      6]%nat) 0 [mkStore [9; 1; 5; 2; 5; 3; 7] 7] 0 7 6) = Some ((mkList
      ((Some ∘ mkPtr 0) <$> [1; 2; 3; 4; 5; 0; 6]%nat) 0 [mkStore [9; 1; 5; 2;
      5; 3; 7] 7] 0 7 5), NoReturn)) by (by_evaluation).
  exact (conj H1 (conj H2 (conj H3 (conj H4
    (insert_then_removeAt_restores (T:=CxI32) sample_mid 2 9 (mkList ((Some ∘
        mkPtr 0) <$> [1; 2; 0; 3; 4; 5; 6]%nat) 0
      [mkStore [9; 1; 5; 2; 5; 3; 7] 7] 0 7 6) (mkList ((Some ∘ mkPtr 0) <$>
          [1; 2; 3; 4; 5; 0; 6]%nat) 0
      [mkStore [9; 1; 5; 2; 5; 3; 7] 7] 0 7 5) NoReturn H1 H2 H3 H4))))).
Defined.

(** X8 at [set(7, 9)] on [1, 5, 2, 5, 3]. *)
Lemma set_writes_or_extends_witness :
  wf sample_full /\
  0 <= 7 /\
  7 * 2 <= INT32_MAX /\
  (if capacity sample_full <=? 7 then mp_list sample_full < 7 else mp_list
      sample_full + 7 < capacity sample_full) /\
  (exists l',
      set 7 9 sample_full = Some l' /\ wf l' /\
      length l' = Z.max (length sample_full) (7 + 1) /\
      value 7 l' = Some 9 /\
      forall i, 0 <= i < length sample_full -> i <> 7 -> value i l' = value i
          sample_full).
Proof.
  assert (H1 : wf sample_full) by (exact sample_full_wf).
  assert (H2 : 0 <= 7) by (by_evaluation).
  assert (H3 : 7 * 2 <= INT32_MAX) by (by_evaluation).
  assert (H4 : (if capacity sample_full <=? 7 then mp_list sample_full < 7
      else mp_list sample_full + 7 < capacity sample_full)) by (by_evaluation).
  exact (conj H1 (conj H2 (conj H3 (conj H4
    (set_writes_or_extends (T:=CxI32) sample_full 7 9 H1 H2 H3 H4))))).
Defined.


(** X10 at [removeFirst] on [1, 5, 2, 5, 3]. *)
Lemma removeFirst_drops_first_witness :
  wf sample_full /\
  elements sample_full = Some [1; 5; 2; 5; 3] /\
  (elements (removeFirst sample_full) = Some (drop 1 [1; 5; 2; 5; 3]) /\
    length (removeFirst sample_full) = Z.max 0 (length sample_full - 1) /\
    capacity (removeFirst sample_full) = capacity sample_full /\ wf
        (removeFirst sample_full)).
Proof.
  assert (H1 : wf sample_full) by (exact sample_full_wf).
  assert (H2 : elements sample_full = Some [1; 5; 2; 5; 3]) by (by_evaluation).
  exact (conj H1 (conj H2
    (removeFirst_drops_first (T:=CxI32) sample_full [1; 5; 2; 5; 3] H1 H2))).
Defined.

(** X11 at [removeLast] on [1, 5, 2, 5, 3]. *)
Lemma removeLast_drops_last_witness :
  wf sample_full /\
  elements sample_full = Some [1; 5; 2; 5; 3] /\
  (elements (removeLast sample_full) = Some (take (Datatypes.length [1; 5; 2;
      5; 3] - 1) [1; 5; 2; 5; 3]) /\
    length (removeLast sample_full) = Z.max 0 (length sample_full - 1) /\
    capacity (removeLast sample_full) = capacity sample_full /\ wf (removeLast
        sample_full)).
Proof.
  assert (H1 : wf sample_full) by (exact sample_full_wf).
  assert (H2 : elements sample_full = Some [1; 5; 2; 5; 3]) by (by_evaluation).
  exact (conj H1 (conj H2
    (removeLast_drops_last (T:=CxI32) sample_full [1; 5; 2; 5; 3] H1 H2))).
Defined.

(** X12 at [indexOf(5, 2)] on [1, 5, 2, 5, 3]. *)
Lemma indexOf_first_match_witness :
  wf sample_full /\
  elements sample_full = Some [1; 5; 2; 5; 3] /\
  0 <= 2 /\
  (exists r, indexOf 5 2 sample_full = Some r /\
      ((2 <= r < length sample_full /\ [1; 5; 2; 5; 3] !! Z.to_nat r = Some 5 /\
        forall j, 2 <= j < r -> [1; 5; 2; 5; 3] !! Z.to_nat j <> Some 5) \/
       (r = -1 /\
        forall j, 2 <= j < length sample_full -> [1; 5; 2; 5; 3] !! Z.to_nat j
            <> Some 5))).
Proof.
  assert (H1 : wf sample_full) by (exact sample_full_wf).
  assert (H2 : elements sample_full = Some [1; 5; 2; 5; 3]) by (by_evaluation).
  assert (H3 : 0 <= 2) by (by_evaluation).
  exact (conj H1 (conj H2 (conj H3
    (indexOf_first_match (T:=CxI32) sample_full 5 2 [1; 5; 2; 5; 3] H1 H2
        H3)))).
Defined.

(** X13 at [lastIndexOf(5, 2)] on [1, 5, 2, 5, 3]. *)
Lemma lastIndexOf_last_match_witness :
  wf sample_full /\
  elements sample_full = Some [1; 5; 2; 5; 3] /\
  2 < length sample_full /\
  (exists r, lastIndexOf 5 2 sample_full = Some r /\
      ((0 <= r <= (if 2 =? -1 then length sample_full - 1 else 2) /\
        [1; 5; 2; 5; 3] !! Z.to_nat r = Some 5 /\
        forall j, r < j <= (if 2 =? -1 then length sample_full - 1 else 2) ->
                  [1; 5; 2; 5; 3] !! Z.to_nat j <> Some 5) \/
       (r = -1 /\
        forall j, 0 <= j <= (if 2 =? -1 then length sample_full - 1 else 2) ->
                  [1; 5; 2; 5; 3] !! Z.to_nat j <> Some 5))).
Proof.
  assert (H1 : wf sample_full) by (exact sample_full_wf).
  assert (H2 : elements sample_full = Some [1; 5; 2; 5; 3]) by (by_evaluation).
  assert (H3 : 2 < length sample_full) by (by_evaluation).
  exact (conj H1 (conj H2 (conj H3
    (lastIndexOf_last_match (T:=CxI32) sample_full 5 2 [1; 5; 2; 5; 3] H1 H2
        H3)))).
Defined.

(** X14 at [contains(2)] on [1, 5, 2, 5, 3]. *)
Lemma contains_iff_element_witness :
  wf sample_full /\
  elements sample_full = Some [1; 5; 2; 5; 3] /\
  (exists b, contains 2 sample_full = Some b /\ (b = true <-> 2 ∈ [1; 5; 2; 5;
      3])).
Proof.
  assert (H1 : wf sample_full) by (exact sample_full_wf).
  assert (H2 : elements sample_full = Some [1; 5; 2; 5; 3]) by (by_evaluation).
  exact (conj H1 (conj H2
    (contains_iff_element (T:=CxI32) sample_full 2 [1; 5; 2; 5; 3] H1 H2))).
Defined.

(** X15 at two lists of the elements [1, 5, 2, 5, 3] with different capacities and windows. *)
Lemma operator_eq_ne_same_elements_witness :
  wf sample_full /\
  wf sample_tail /\
  elements sample_full = Some [1; 5; 2; 5; 3] /\
  elements sample_tail = Some [1; 5; 2; 5; 3] /\
  (exists r,
      operator_eq sample_full sample_tail = Some r /\ operator_ne sample_full
          sample_tail = Some (negb r) /\
      (r = true <-> [1; 5; 2; 5; 3] = [1; 5; 2; 5; 3])).
Proof.
  assert (H1 : wf sample_full) by (exact sample_full_wf).
  assert (H2 : wf sample_tail) by (exact sample_tail_wf).
  assert (H3 : elements sample_full = Some [1; 5; 2; 5; 3]) by (by_evaluation).
  assert (H4 : elements sample_tail = Some [1; 5; 2; 5; 3]) by (by_evaluation).
  exact (conj H1 (conj H2 (conj H3 (conj H4
    (operator_eq_ne_same_elements (T:=CxI32) sample_full sample_tail [1; 5; 2;
        5; 3] [1; 5; 2; 5; 3] H1 H2 H3 H4))))).
Defined.

(** X16 at [startsWith(1)] and [endsWith(1)] on [1, 5, 2, 5, 3]. *)
Lemma startsWith_endsWith_ends_witness :
  wf sample_full /\
  elements sample_full = Some [1; 5; 2; 5; 3] /\
  (exists b e,
      startsWith 1 sample_full = Some b /\ (b = true <-> head [1; 5; 2; 5; 3]
          = Some 1) /\
      endsWith 1 sample_full = Some e /\ (e = true <-> last [1; 5; 2; 5; 3] =
          Some 1)).
Proof.
  assert (H1 : wf sample_full) by (exact sample_full_wf).
  assert (H2 : elements sample_full = Some [1; 5; 2; 5; 3]) by (by_evaluation).
  exact (conj H1 (conj H2
    (startsWith_endsWith_ends (T:=CxI32) sample_full 1 [1; 5; 2; 5; 3] H1 H2))).
Defined.

(** X17 at [remove(5)] on [1, 5, 2, 5, 3] with a free cell at the end. *)
Lemma remove_first_occurrence_witness :
  wf sample_slack /\
  mp_list sample_slack + length sample_slack < capacity sample_slack /\
  elements sample_slack = Some [1; 5; 2; 5; 3] /\
  ((exists (k : nat) l',
       remove 5 sample_slack = Some (l', true) /\ [1; 5; 2; 5; 3] !! k = Some
           5 /\
       (forall j, (j < k)%nat -> [1; 5; 2; 5; 3] !! j <> Some 5) /\
       elements l' = Some (delete k [1; 5; 2; 5; 3]) /\ wf l') \/
    (remove 5 sample_slack = Some (sample_slack, false) /\ 5 ∉ [1; 5; 2; 5;
        3])).
Proof.
  assert (H1 : wf sample_slack) by (exact sample_slack_wf).
  assert (H2 : mp_list sample_slack + length sample_slack < capacity
      sample_slack) by (by_evaluation).
  assert (H3 : elements sample_slack = Some [1; 5; 2; 5; 3]) by (by_evaluation).
  exact (conj H1 (conj H2 (conj H3
    (remove_first_occurrence (T:=CxI32) sample_slack 5 [1; 5; 2; 5; 3] H1 H2
        H3)))).
Defined.

(** X18 at [replace(5, 9)] on [1, 5, 2, 5, 3]. *)
Lemma replace_first_occurrence_witness :
  wf sample_full /\
  elements sample_full = Some [1; 5; 2; 5; 3] /\
  ((exists (k : nat) l',
       replace 5 9 sample_full = Some (l', true) /\ [1; 5; 2; 5; 3] !! k =
           Some 5 /\
       (forall j, (j < k)%nat -> [1; 5; 2; 5; 3] !! j <> Some 5) /\
       elements l' = Some (<[k := 9]> [1; 5; 2; 5; 3]) /\
       length l' = length sample_full /\ capacity l' = capacity sample_full /\
           wf l') \/
    (replace 5 9 sample_full = Some (sample_full, false) /\ 5 ∉ [1; 5; 2; 5;
        3])).
Proof.
  assert (H1 : wf sample_full) by (exact sample_full_wf).
  assert (H2 : elements sample_full = Some [1; 5; 2; 5; 3]) by (by_evaluation).
  exact (conj H1 (conj H2
    (replace_first_occurrence (T:=CxI32) sample_full 5 9 [1; 5; 2; 5; 3] H1
        H2))).
Defined.

(** X19 at [takeAt(1)] on [1, 5, 2, 5, 3] with a free cell at the end. *)
Lemma takeAt_returns_and_removes_witness :
  wf sample_slack /\
  0 <= 1 < length sample_slack /\
  (1 = 0 \/ 1 = length sample_slack - 1 \/ mp_list sample_slack + length
      sample_slack < capacity sample_slack) /\
  elements sample_slack = Some [1; 5; 2; 5; 3] /\
  (exists l' x,
      takeAt 1 sample_slack = Some (l', x) /\ [1; 5; 2; 5; 3] !! Z.to_nat 1 =
          Some x /\
      elements l' = Some (delete (Z.to_nat 1) [1; 5; 2; 5; 3]) /\
      length l' = length sample_slack - 1 /\ wf l').
Proof.
  assert (H1 : wf sample_slack) by (exact sample_slack_wf).
  assert (H2 : 0 <= 1 < length sample_slack) by (by_evaluation).
  assert (H3 : 1 = 0 \/ 1 = length sample_slack - 1 \/ mp_list sample_slack +
      length sample_slack < capacity sample_slack) by (right; right;
      vm_compute; reflexivity).
  assert (H4 : elements sample_slack = Some [1; 5; 2; 5; 3]) by (by_evaluation).
  exact (conj H1 (conj H2 (conj H3 (conj H4
    (takeAt_returns_and_removes (T:=CxI32) sample_slack 1 [1; 5; 2; 5; 3] H1
        H2 H3 H4))))).
Defined.

(** X20 at [takeLast] on [1, 5, 2, 5, 3]. *)
Lemma takeLast_returns_last_witness :
  wf sample_full /\
  elements sample_full = Some [1; 5; 2; 5; 3] /\
  ((exists l' x ys,
       takeLast sample_full = Some (l', x) /\ [1; 5; 2; 5; 3] = ys ++ [x] /\
       elements l' = Some ys /\ length l' = length sample_full - 1 /\
       operator_index (length l') l' = Some (m_invalidValue sample_full) /\ wf
           l') \/
    (takeLast sample_full = Some (sample_full, m_invalidValue sample_full) /\
        [1; 5; 2; 5; 3] = [])).
Proof.
  assert (H1 : wf sample_full) by (exact sample_full_wf).
  assert (H2 : elements sample_full = Some [1; 5; 2; 5; 3]) by (by_evaluation).
  exact (conj H1 (conj H2
    (takeLast_returns_last (T:=CxI32) sample_full [1; 5; 2; 5; 3] H1 H2))).
Defined.

(** X21 at index 7 on [1, 5, 2, 5, 3]. *)
Lemma index_out_of_range_witness :
  ~ (0 <= 7 < length sample_full) /\
  (removeAt 7 sample_full = Some (sample_full, Value false) /\
    replaceAt 7 9 sample_full = Some (sample_full, false) /\
    takeAt 7 sample_full = Some (sample_full, m_invalidValue sample_full) /\
    value 7 sample_full = Some (m_invalidValue sample_full) /\
    value_or 7 9 sample_full = Some 9).
Proof.
  assert (H1 : ~ (0 <= 7 < length sample_full)) by (by_evaluation).
  exact (conj H1
    (index_out_of_range (T:=CxI32) sample_full 7 9 H1)).
Defined.

(** X22 at [removeAll(5)] on [1, 5, 2, 5, 3] with a free cell at the end. *)
Lemma removeAll_removes_and_counts_witness :
  wf sample_slack /\
  mp_list sample_slack + length sample_slack < capacity sample_slack /\
  elements sample_slack = Some [1; 5; 2; 5; 3] /\
  (exists fuel l',
      removeAll fuel 5 sample_slack = Finished (l', occurrences 5 [1; 5; 2; 5;
          3]) /\
      elements l' = Some (filter (fun x => T_eq x 5 = false) [1; 5; 2; 5; 3]) /\
      length l' = length sample_slack - occurrences 5 [1; 5; 2; 5; 3] /\
      capacity l' = capacity sample_slack /\ wf l').
Proof.
  assert (H1 : wf sample_slack) by (exact sample_slack_wf).
  assert (H2 : mp_list sample_slack + length sample_slack < capacity
      sample_slack) by (by_evaluation).
  assert (H3 : elements sample_slack = Some [1; 5; 2; 5; 3]) by (by_evaluation).
  exact (conj H1 (conj H2 (conj H3
    (removeAll_removes_and_counts (T:=CxI32) sample_slack 5 [1; 5; 2; 5; 3] H1
        H2 H3)))).
Defined.

(** X23 at [resize(2)] on [1, 5, 2, 5, 3]. *)
Lemma resize_shorter_keeps_prefix_witness :
  wf sample_full /\
  0 <= 2 <= length sample_full /\
  elements sample_full = Some [1; 5; 2; 5; 3] /\
  (exists l',
      resize 2 sample_full = Some l' /\ wf l' /\ length l' = 2 /\
      capacity l' = capacity sample_full /\
      elements l' = Some (take (Z.to_nat 2) [1; 5; 2; 5; 3])).
Proof.
  assert (H1 : wf sample_full) by (exact sample_full_wf).
  assert (H2 : 0 <= 2 <= length sample_full) by (by_evaluation).
  assert (H3 : elements sample_full = Some [1; 5; 2; 5; 3]) by (by_evaluation).
  exact (conj H1 (conj H2 (conj H3
    (resize_shorter_keeps_prefix (T:=CxI32) sample_full 2 [1; 5; 2; 5; 3] H1
        H2 H3)))).
Defined.

(** X24 at [fill(7, 3)] on [1, 5, 2, 5, 3]. *)
Lemma fill_replicates_witness :
  wf sample_full /\
  (3 = -1 \/ 0 <= 3 <= INT32_MAX /\ mp_list sample_full + 3 <= Z.max (capacity
      sample_full) 3) /\
  (exists l',
      fill 7 3 sample_full = Some l' /\ wf l' /\
      elements l'
      = Some (replicate (Z.to_nat (if 3 =? -1 then length sample_full else 3))
          7)).
Proof.
  assert (H1 : wf sample_full) by (exact sample_full_wf).
  assert (H2 : 3 = -1 \/ 0 <= 3 <= INT32_MAX /\ mp_list sample_full + 3 <=
      Z.max (capacity sample_full) 3) by (right; vm_compute; intuition
      discriminate).
  exact (conj H1 (conj H2
    (fill_replicates (T:=CxI32) sample_full 7 3 H1 H2))).
Defined.

(** X25 at [CxList(3, 7)]. *)
Lemma CxList_filled_replicates_witness :
  0 <= 3 <= INT32_MAX /\
  (exists l,
      CxList_filled 3 7 = Some l /\ wf l /\ length l = 3 /\ capacity l = 3 /\
      elements l = Some (replicate (Z.to_nat 3) 7)).
Proof.
  assert (H1 : 0 <= 3 <= INT32_MAX) by (by_evaluation).
  exact (conj H1
    (CxList_filled_replicates (T:=CxI32) 3 7 H1)).
Defined.

(** X26 at [append(list)] of [1, 5, 2, 5, 3] to the list of the default constructor. *)
Lemma append_list_concatenates_witness :
  wf null_list /\
  wf sample_tail /\
  elements null_list = Some [] /\
  elements sample_tail = Some [1; 5; 2; 5; 3] /\
  length null_list + length sample_tail <= INT32_MAX /\
  mp_list null_list + length null_list + length sample_tail <= Z.max (capacity
      null_list) (length null_list + length sample_tail) /\
  (exists l',
      append_list sample_tail null_list = Some l' /\ wf l' /\
      length l' = length null_list + length sample_tail /\
      capacity l' = Z.max (capacity null_list) (length null_list + length
          sample_tail) /\
      elements l' = Some ([] ++ [1; 5; 2; 5; 3])).
Proof.
  assert (H1 : wf null_list) by (exact null_list_wf).
  assert (H2 : wf sample_tail) by (exact sample_tail_wf).
  assert (H3 : elements null_list = Some []) by (by_evaluation).
  assert (H4 : elements sample_tail = Some [1; 5; 2; 5; 3]) by (by_evaluation).
  assert (H5 : length null_list + length sample_tail <= INT32_MAX) by
      (by_evaluation).
  assert (H6 : mp_list null_list + length null_list + length sample_tail <=
      Z.max (capacity null_list) (length null_list + length sample_tail)) by
      (by_evaluation).
  exact (conj H1 (conj H2 (conj H3 (conj H4 (conj H5 (conj H6
    (append_list_concatenates (T:=CxI32) null_list sample_tail [] [1; 5; 2; 5;
        3] H1 H2 H3 H4 H5 H6))))))).
Defined.

(** X27 at the copy of [1, 5, 2, 5, 3], a list whose window starts at cell 1. *)
Lemma CxList_copy_same_elements_witness :
  wf sample_tail /\
  elements sample_tail = Some [1; 5; 2; 5; 3] /\
  (exists l',
      CxList_copy sample_tail = Some l' /\ wf l' /\
      elements l' = Some [1; 5; 2; 5; 3] /\
      length l' = length sample_tail /\ capacity l' = capacity sample_tail /\
      operator_eq l' sample_tail = Some true).
Proof.
  assert (H1 : wf sample_tail) by (exact sample_tail_wf).
  assert (H2 : elements sample_tail = Some [1; 5; 2; 5; 3]) by (by_evaluation).
  exact (conj H1 (conj H2
    (CxList_copy_same_elements (T:=CxI32) sample_tail [1; 5; 2; 5; 3] H1 H2))).
Defined.


(** X29 at the copying constructor on the array [1, 5, 2, 5, 3]. *)
Lemma CxList_array_elements_witness :
  0 < 5 <= INT32_MAX /\
  Z.of_nat (Datatypes.length [1; 5; 2; 5; 3]) = 5 /\
  (kCxCopy = kCxNoCopy \/ kCxCopy = kCxCopy) /\
  (exists l,
      CxList_array [1; 5; 2; 5; 3] 5 kCxCopy = Some l /\ wf l /\
      elements l = Some [1; 5; 2; 5; 3] /\ length l = 5 /\ capacity l = 5).
Proof.
  assert (H1 : 0 < 5 <= INT32_MAX) by (by_evaluation).
  assert (H2 : Z.of_nat (Datatypes.length [1; 5; 2; 5; 3]) = 5) by
      (by_evaluation).
  assert (H3 : kCxCopy = kCxNoCopy \/ kCxCopy = kCxCopy) by (right;
      reflexivity).
  exact (conj H1 (conj H2 (conj H3
    (CxList_array_elements (T:=CxI32) [1; 5; 2; 5; 3] 5 kCxCopy H1 H2 H3)))).
Defined.

